(** * Release automation of the TOML repository ([scripts/release.py])

    A shallow embedding of the release script and the properties its
    specification states about it.  The script is a sequential program
    over three pieces of environment: the file system, the two git
    working copies it drives through [git] commands, and the process
    environment (arguments, clock, terminal).  Each of them is a field
    of the [World] record below and the script's functions are state
    transformers over it that may raise.

    Conventions.
    - A file is its bytes, a [string] with one character per byte.  The
      encoding of the locale is UTF-8, and a text that the program holds
      (a line, an argument, a message) is the [string] of its encoding:
      comparing, joining and cutting at line terminators do to the
      encodings what they do to the texts.  The two operations of the
      script that look at single characters are [len], which counts
      them ([py_len]), and the classes of the pattern, which are taken
      over ASCII: arguments range over the texts of code points below
      256, among which [\d] is [0-9].
    - The host is POSIX: [os.linesep] is a single line feed.
    - Paths are the strings pathlib prints for them; directories exist
      wherever a file is written or a command is run, so that a command
      in a directory that is no working copy is answered by git itself.
    - Parts I to VII are the embedding, Part VIII the predicates the
      properties are stated with, Part IX a concrete release, Part X the
      properties and their proofs. *)

From stdpp Require Import gmap strings list fin_maps pretty.
From Stdlib Require Import Ascii ZArith Lia.

Open Scope string_scope.
Open Scope list_scope.

(* ===================================================================== *)
(** * Part I.  Text files as Python reads and writes them                *)
(* ===================================================================== *)

Definition LF : ascii := "010"%char.
Definition CR : ascii := "013"%char.

(** The one-character string ["\n"]. *)
Definition NL : string := String LF "".

Definition os_linesep : string := NL.

(** [open(path)] opens in text mode with [newline=None]: universal
    newlines.  On input the sequences CR LF and a lone CR are both handed
    to the program as a single LF.  This is the text read from bytes
    that decode; those that do not are refused ([decodes] below). *)
Fixpoint read_text (raw : string) : string :=
  match raw with
  | "" => ""
  | String c rest =>
      if Ascii.eqb c CR then
        match rest with
        | String c' rest' =>
            if Ascii.eqb c' LF then String LF (read_text rest')
            else String LF (read_text rest)
        | "" => String LF ""
        end
      else String c (read_text rest)
  end.

(** [os.fdopen(fh, "w")], again with [newline=None]: every LF written is
    replaced by [os.linesep]. *)
Fixpoint write_text (s : string) : string :=
  match s with
  | "" => ""
  | String c rest =>
      if Ascii.eqb c LF then os_linesep +:+ write_text rest
      else String c (write_text rest)
  end.

(** [for got_line in given_file]: the text cut after every LF; each
    piece keeps its LF, and a last piece without one is produced when
    the text does not end in LF. *)
Fixpoint readlines (s : string) : list string :=
  match s with
  | "" => []
  | String c rest =>
      if Ascii.eqb c LF then NL :: readlines rest
      else match readlines rest with
           | [] => [String c ""]
           | l :: ls => String c l :: ls
           end
  end.

(** Concatenation of a list of strings (what a sequence of [write]
    calls leaves in a file opened for writing). *)
Fixpoint concat_str (l : list string) : string :=
  match l with
  | [] => ""
  | s :: l' => s +:+ concat_str l'
  end.

(** ** The encoding

    A file opened in text mode is decoded with the encoding of the
    locale, UTF-8, and the decoder is strict: bytes that are not the
    encoding of a text raise [UnicodeDecodeError]. *)

Definition byte_in (lo hi : N) (b : ascii) : bool :=
  (lo <=? N_of_ascii b)%N && (N_of_ascii b <=? hi)%N.

(** Where the decoder stands between two bytes: at the start of a
    character, or inside one with one, two or three continuation bytes
    to come.  Right after the bytes E0, ED, F0 and F4 the next byte has
    a narrower range than a continuation byte otherwise has: no overlong
    form, no surrogate, nothing beyond U+10FFFF. *)
Inductive utf8_state :=
| AtStart | Cont1 | Cont2 | AfterE0 | AfterED | Cont3 | AfterF0 | AfterF4.

Definition utf8_step (st : utf8_state) (b : ascii) : option utf8_state :=
  match st with
  | AtStart =>
      if byte_in 0 127 b then Some AtStart
      else if byte_in 194 223 b then Some Cont1
      else if byte_in 224 224 b then Some AfterE0
      else if byte_in 237 237 b then Some AfterED
      else if byte_in 225 239 b then Some Cont2
      else if byte_in 240 240 b then Some AfterF0
      else if byte_in 241 243 b then Some Cont3
      else if byte_in 244 244 b then Some AfterF4
      else None
  | Cont1 => if byte_in 128 191 b then Some AtStart else None
  | Cont2 => if byte_in 128 191 b then Some Cont1 else None
  | AfterE0 => if byte_in 160 191 b then Some Cont1 else None
  | AfterED => if byte_in 128 159 b then Some Cont1 else None
  | Cont3 => if byte_in 128 191 b then Some Cont2 else None
  | AfterF0 => if byte_in 144 191 b then Some Cont2 else None
  | AfterF4 => if byte_in 128 143 b then Some Cont2 else None
  end.

Fixpoint utf8_run (st : utf8_state) (raw : string) : option utf8_state :=
  match raw with
  | "" => Some st
  | String b rest =>
      match utf8_step st b with
      | Some st' => utf8_run st' rest
      | None => None
      end
  end.

(** Whether the bytes [raw] are the encoding of a text. *)
Definition decodes (raw : string) : bool :=
  match utf8_run AtStart raw with
  | Some AtStart => true
  | _ => false
  end.

(** [len(s)]: the number of characters of [s], which is the number of
    bytes of its encoding that do not continue a character. *)
Fixpoint py_len (s : string) : nat :=
  match s with
  | "" => 0
  | String b rest => if byte_in 128 191 b then py_len rest else S (py_len rest)
  end.

(* ===================================================================== *)
(** * Part II.  The file system and [change_line]                        *)
(* ===================================================================== *)

Record File := mkFile { f_data : string; f_mode : N }.

(** Absolute path to regular file. *)
Abbreviation FileSystem := (gmap string File).

(** The primitive file-system effects [change_line] performs, in the
    order the interpreter performs them.  A run of the function is a
    list of them, and a crash is a run cut short.  The last three are
    what [shutil.move] does: it renames the file, or, when the file
    cannot be renamed because source and destination are on different
    file systems, it copies the file, content and then mode, and removes
    the source. *)
Inductive fs_op :=
| OpCreate (p : string)                 (* tempfile.mkstemp() *)
| OpOpenRead (p : string)               (* path.open(), open(src, "rb") *)
| OpAppend (p : string) (chunk : string)  (* tmp_file.write(chunk) *)
| OpCopymode (src dst : string)         (* shutil.copymode, shutil.copystat *)
| OpUnlink (p : string)                 (* path.unlink(), os.unlink(src) *)
| OpMove (src dst : string)             (* os.rename(src, dst) *)
| OpOpenWrite (p : string) (mode : N)   (* open(dst, "wb") *)
| OpWrite (p : string) (block : string).  (* a block of the copy written to dst *)

(** [None] is an [OSError]. *)
Definition exec_op (op : fs_op) (fs : FileSystem) : option FileSystem :=
  match op with
  | OpCreate p =>
      match fs !! p with
      | None => Some (<[p := mkFile "" 384]> fs)      (* 0o600 *)
      | Some _ => None
      end
  | OpOpenRead p =>
      match fs !! p with Some _ => Some fs | None => None end
  | OpAppend p chunk =>
      match fs !! p with
      | Some f => Some (<[p := mkFile (f_data f +:+ write_text chunk) (f_mode f)]> fs)
      | None => None
      end
  | OpCopymode src dst =>
      match fs !! src, fs !! dst with
      | Some s, Some d => Some (<[dst := mkFile (f_data d) (f_mode s)]> fs)
      | _, _ => None
      end
  | OpUnlink p =>
      match fs !! p with Some _ => Some (delete p fs) | None => None end
  | OpMove src dst =>
      match fs !! src with
      | Some s => Some (<[dst := s]> (delete src fs))
      | None => None
      end
  | OpOpenWrite p mode =>
      match fs !! p with
      | Some f => Some (<[p := mkFile "" (f_mode f)]> fs)   (* truncated *)
      | None => Some (<[p := mkFile "" mode]> fs)           (* created *)
      end
  | OpWrite p block =>
      match fs !! p with
      | Some f => Some (<[p := mkFile (f_data f +:+ block) (f_mode f)]> fs)
      | None => None
      end
  end.

(** Runs the operations in order; stops at the first error and reports
    the file system as it is at that point. *)
Fixpoint run_ops (ops : list fs_op) (fs : FileSystem) : FileSystem * bool :=
  match ops with
  | [] => (fs, true)
  | op :: ops' =>
      match exec_op op fs with
      | Some fs' => run_ops ops' fs'
      | None => (fs, false)
      end
  end.

(** The body of the [for got_line in given_file] loop: the chunks handed
    to [tmp_file.write], in order. *)
Definition line_writes (line : string) (to : list string) (got_line : string)
  : list string :=
  if negb (got_line =? line +:+ NL)%string
  then [got_line]                                   (* not-to-be-replaced lines *)
  else map (fun replacement => replacement +:+ NL) to.   (* replacement lines *)

Definition tmp_writes (line : string) (to : list string) (given : string)
  : list string :=
  flat_map (line_writes line to) (readlines given).

(** The name [mkstemp] picks: a new name in the temporary directory.  It
    is not in use, and it is not [path], which is not a temporary
    file. *)
Definition mkstemp_name (fs : FileSystem) (path : string) : string :=
  fresh ({[path]} ∪ dom fs).

(** The mode of a file that [open] creates under the given umask:
    0o666 without the bits of the umask. *)
Definition created_mode (umask : N) : N := N.ldiff 438 umask.

(** [shutil.move(src, dst)], for a destination that does not exist.  It
    is a rename when [copy] is [None]; otherwise [copy] is the umask of
    the process and the blocks in which the content of [src] is
    copied. *)
Definition move_ops (copy : option (N * list string)) (src dst : string)
  : list fs_op :=
  match copy with
  | None => [OpMove src dst]
  | Some (umask, blocks) =>
      [OpOpenRead src; OpOpenWrite dst (created_mode umask)]
      ++ map (OpWrite dst) blocks
      ++ [OpCopymode src dst; OpUnlink src]
  end.

(** The effects of [change_line(path, line=line, to=to)] on a file
    system in which [path] holds [given], a file that decodes. *)
Definition change_line_steps (copy : option (N * list string))
    (tmp path line : string) (to : list string) (given : File) : list fs_op :=
  [OpCreate tmp; OpOpenRead path]
  ++ map (OpAppend tmp) (tmp_writes line to (read_text (f_data given)))
  ++ [OpCopymode path tmp; OpUnlink path]
  ++ move_ops copy tmp path.

(** The same where the temporary file can be renamed. *)
Definition change_line_ops (tmp path line : string) (to : list string)
    (given : File) : list fs_op :=
  [OpCreate tmp; OpOpenRead path]
  ++ map (OpAppend tmp) (tmp_writes line to (read_text (f_data given)))
  ++ [OpCopymode path tmp; OpUnlink path; OpMove tmp path].

(** [change_line] from start to end: the file system it leaves and
    whether it returned.  A complete run leaves the same file system
    whichever way the file is moved.  The function raises, after
    [mkstemp], when [path] cannot be opened, and when what [path] holds
    does not decode; the temporary file stays in both cases.  (What has
    reached the temporary file when the decoder stops depends on how far
    ahead of the loop the interpreter reads; it is left empty here.) *)
Definition change_line (path line : string) (to : list string) (fs : FileSystem)
  : FileSystem * bool :=
  let tmp := mkstemp_name fs path in
  match fs !! path with
  | Some given =>
      if decodes (f_data given)
      then run_ops (change_line_ops tmp path line to given) fs
      else ((run_ops [OpCreate tmp; OpOpenRead path] fs).1, false)
  | None => run_ops [OpCreate tmp; OpOpenRead path] fs
  end.

(** The text [change_line] leaves in the file, as a function of the text
    it found there. *)
Definition rewritten (line : string) (to : list string) (data : string)
  : string :=
  write_text (concat_str (tmp_writes line to (read_text data))).

(** ** The contract in the specification's words

    A file is a sequence of lines; a line's content excludes its
    terminator, and the last line may lack one. *)
Fixpoint lines_of (s : string) : list string :=
  match s with
  | "" => []
  | String c rest =>
      if Ascii.eqb c LF then "" :: lines_of rest
      else match lines_of rest with
           | [] => [String c ""]
           | l :: ls => String c l :: ls
           end
  end.

(** "Every line whose content equals the match value exactly is replaced
    by the replacement lines (in order, each becoming its own line), and
    every other line is copied unchanged." *)
Definition replace_lines (line : string) (to : list string)
    (ls : list string) : list string :=
  flat_map (fun l => if (l =? line)%string then to else [l]) ls.

(** A list of lines written out, each followed by a line feed. *)
Definition unlines (ls : list string) : string :=
  concat_str (map (fun l => l +:+ NL) ls).

(** The lines of a file as a program that reads it in text mode sees
    them: CR LF and a lone CR end a line as LF does. *)
Definition text_lines (data : string) : list string := lines_of (read_text data).

(* ===================================================================== *)
(** * Part III.  Exceptions                                              *)
(* ===================================================================== *)

Inductive exn :=
| AssertionError (msg : string)
| SystemExit (code : Z)
| OSError
| UnicodeDecodeError
| EOFError.

Inductive result (A : Type) :=
| Ok (a : A)
| Raise (e : exn).
Arguments Ok {A} a.
Arguments Raise {A} e.

(* ===================================================================== *)
(** * Part IV.  Regular expressions and [get_version]                    *)
(* ===================================================================== *)

(** The fragment of Python's [re] syntax that [SEMVER_REGEX] uses.
    [r?] is [Alt r Eps] and [r+] is [Seq r (Star r)]; both are greedy,
    as is [Star]. *)
Inductive regex :=
| Eps
| Cls (p : ascii -> bool)             (* a character class *)
| Seq (r1 r2 : regex)
| Alt (r1 r2 : regex)                 (* r1|r2, r1 tried first *)
| Star (r : regex)                    (* r* *)
| Group (name : string) (r : regex)   (* (?P<name>r) *)
| Bol                                 (* ^ *)
| Eol.                                (* $ *)

Definition Opt (r : regex) : regex := Alt r Eps.
Definition Plus (r : regex) : regex := Seq r (Star r).

Fixpoint Seqs (rs : list regex) : regex :=
  match rs with
  | [] => Eps
  | [r] => r
  | r :: rs' => Seq r (Seqs rs')
  end.

(** The state of a match in progress: how many characters have been
    consumed, what remains, and the groups closed so far (latest
    first). *)
Record mstate := mkM {
  pos : nat;
  rest : string;
  caps : list (string * string)
}.

Definition advance (st : mstate) (rest' : string) : mstate :=
  mkM (S (pos st)) rest' (caps st).

(** The text consumed between two states of the same match. *)
Definition consumed (st st' : mstate) : string :=
  String.substring 0 (pos st' - pos st) (rest st).

Definition set_group (name : string) (st st' : mstate) : mstate :=
  mkM (pos st') (rest st') ((name, consumed st st') :: caps st').

(** [$] without [re.MULTILINE]: at the end of the string, or just before
    a line feed that is the last character of the string. *)
Definition at_eol (rest : string) : bool :=
  match rest with
  | "" => true
  | String c "" => Ascii.eqb c LF
  | _ => false
  end.

(** The loop of a greedy [r*]: one more iteration of the body first,
    the rest of the pattern [k] when that leads nowhere.  An iteration
    must consume at least one character (every starred expression of
    the pattern does), so the remaining length bounds their number. *)
Definition star_loop (body : mstate -> (mstate -> option mstate) -> option mstate)
    (k : mstate -> option mstate) : nat -> mstate -> option mstate :=
  fix loop (fuel : nat) (st : mstate) {struct fuel} : option mstate :=
    match fuel with
    | O => k st
    | S fuel' =>
        match body st (fun st1 =>
                if (pos st <? pos st1)%nat then loop fuel' st1 else None) with
        | Some m => Some m
        | None => k st
        end
    end.

(** The backtracking matcher, in continuation-passing style: [k] is the
    rest of the pattern, and the first alternative that leads to an
    overall match wins. *)
Fixpoint rmatch (r : regex) (st : mstate) (k : mstate -> option mstate)
  {struct r} : option mstate :=
  match r with
  | Eps => k st
  | Cls p =>
      match rest st with
      | String c rest' => if p c then k (advance st rest') else None
      | "" => None
      end
  | Seq r1 r2 => rmatch r1 st (fun st1 => rmatch r2 st1 k)
  | Alt r1 r2 =>
      match rmatch r1 st k with
      | Some m => Some m
      | None => rmatch r2 st k
      end
  | Star r1 => star_loop (rmatch r1) k (String.length (rest st)) st
  | Group name r1 => rmatch r1 st (fun st1 => k (set_group name st st1))
  | Bol => if (pos st =? 0)%nat then k st else None
  | Eol => if at_eol (rest st) then k st else None
  end.

(** [pattern.match(s)]: a match anchored at the start of [s]. *)
Definition re_match (r : regex) (s : string) : option mstate :=
  rmatch r (mkM 0 s []) Some.

(** [match.group(name)]: [None] when the group took no part. *)
Fixpoint group (cs : list (string * string)) (name : string) : option string :=
  match cs with
  | [] => None
  | (n, v) :: cs' => if (n =? name)%string then Some v else group cs' name
  end.

(** Character classes.  [\d] is [0-9]: Python's also matches the
    decimal digits of other scripts, of which there are none among the
    code points below 256. *)
Definition in_range (lo hi c : ascii) : bool :=
  (nat_of_ascii lo <=? nat_of_ascii c)%nat && (nat_of_ascii c <=? nat_of_ascii hi)%nat.

Definition is_digit (c : ascii) : bool := in_range "0" "9" c.       (* \d *)
Definition is_pos_digit (c : ascii) : bool := in_range "1" "9" c.   (* [1-9] *)
Definition is_letter_or_hyphen (c : ascii) : bool :=                (* [a-zA-Z-] *)
  in_range "a" "z" c || in_range "A" "Z" c || Ascii.eqb c "-".
Definition is_idchar (c : ascii) : bool :=                          (* [0-9a-zA-Z-] *)
  in_range "0" "9" c || in_range "a" "z" c || in_range "A" "Z" c
  || Ascii.eqb c "-".

Definition Chr (c : ascii) : regex := Cls (Ascii.eqb c).

(** [0|[1-9]\d*] *)
Definition re_numeric : regex :=
  Alt (Chr "0") (Seq (Cls is_pos_digit) (Star (Cls is_digit))).

(** One dot-separated prerelease identifier:
    [0|[1-9]\d*|\d*[a-zA-Z-][0-9a-zA-Z-]*] *)
Definition re_prerelease_id : regex :=
  Alt (Chr "0")
   (Alt (Seq (Cls is_pos_digit) (Star (Cls is_digit)))
        (Seqs [Star (Cls is_digit); Cls is_letter_or_hyphen; Star (Cls is_idchar)])).

(** [[0-9a-zA-Z-]+] *)
Definition re_build_id : regex := Plus (Cls is_idchar).

Definition re_prerelease : regex :=
  Seq re_prerelease_id (Star (Seq (Chr ".") re_prerelease_id)).

Definition re_buildmetadata : regex :=
  Seq re_build_id (Star (Seq (Chr ".") re_build_id)).

Definition SEMVER_REGEX : regex :=
  Seqs [ Bol;
         Group "major" re_numeric;
         Chr ".";
         Group "minor" re_numeric;
         Chr ".";
         Group "patch" re_numeric;
         Opt (Seq (Chr "-") (Group "prerelease" re_prerelease));
         Opt (Seq (Chr "+") (Group "buildmetadata" re_buildmetadata));
         Eol ].

(** Truth value of a [str]-or-[None]. *)
Definition truthy (o : option string) : bool :=
  match o with
  | Some s => negb (s =? "")%string
  | None => false
  end.

(** [get_version()], as a function of [sys.argv]. *)
Definition get_version (argv : list string) : result string :=
  if negb (length argv =? 2)%nat
  then Raise (AssertionError "Got wrong number of arguments, expected 1.")
  else
    let version := nth 1 argv "" in
    match re_match SEMVER_REGEX version with
    | None => Raise (AssertionError "Given version is not a valid semver.")
    | Some m =>
        if truthy (group (caps m) "buildmetadata")
        then Raise (AssertionError "Shouldn't have build metadata in version.")
        else Ok version
    end.

(** ** Semantic versions in the specification's words *)

(** A non-negative integer without leading zeros, except the literal 0. *)
Definition str_all (p : ascii -> bool) (s : string) : bool :=
  forallb p (String.list_ascii_of_string s).

Definition numeric_ok (s : string) : bool :=
  match s with
  | "" => false
  | String c rest =>
      if Ascii.eqb c "0" then (rest =? "")%string
      else is_digit c && str_all is_digit rest
  end.

(** An alphanumeric/hyphen identifier; when it is numeric it has no
    leading zero unless it is exactly 0. *)
Definition prerelease_id_ok (s : string) : bool :=
  negb (s =? "")%string && str_all is_idchar s
  && (if str_all is_digit s then numeric_ok s else true).

Definition build_id_ok (s : string) : bool :=
  negb (s =? "")%string && str_all is_idchar s.

Record SemVer := mkSemVer {
  sv_major : string;
  sv_minor : string;
  sv_patch : string;
  sv_prerelease : option (list string);
  sv_build : option (list string)
}.

(** Dot-separated identifiers. *)
Fixpoint dotted (ids : list string) : string :=
  match ids with
  | [] => ""
  | [i] => i
  | i :: ids' => i +:+ "." +:+ dotted ids'
  end.

Definition label (prefix : string) (ids : option (list string)) : string :=
  match ids with
  | Some l => prefix +:+ dotted l
  | None => ""
  end.

Definition render (v : SemVer) : string :=
  sv_major v +:+ "." +:+ sv_minor v +:+ "." +:+ sv_patch v
  +:+ label "-" (sv_prerelease v) +:+ label "+" (sv_build v).

Definition ids_ok (ok : string -> bool) (ids : option (list string)) : bool :=
  match ids with
  | Some l => negb (length l =? 0)%nat && forallb ok l
  | None => true
  end.

Definition semver_ok (v : SemVer) : bool :=
  numeric_ok (sv_major v) && numeric_ok (sv_minor v) && numeric_ok (sv_patch v)
  && ids_ok prerelease_id_ok (sv_prerelease v)
  && ids_ok build_id_ok (sv_build v).

(** [s] is a valid semantic version. *)
Definition is_semver (s : string) : Prop :=
  exists v, semver_ok v = true /\ s = render v.

(** [s] is a valid semantic version without build metadata: what the
    data model calls a Version. *)
Definition is_version (s : string) : Prop :=
  exists v, semver_ok v = true /\ sv_build v = None /\ s = render v.

(* ===================================================================== *)
(** * Part V.  The version-control collaborator                          *)
(* ===================================================================== *)

(** The script talks to git through nine commands.  The model below
    gives each of them the effect git documents for it on a working
    copy: commits form a graph through their parents, branches, tags and
    remote-tracking branches name commits, the index holds what is
    staged, and every remote has the branches and tags of the repository
    behind it.  Commits live in one object store; a commit is named by
    its position there.  Ref names are taken to be well formed. *)

Record Commit := mkCommit {
  c_parents : list nat;
  c_message : string;
  c_tree : gmap string string          (* path to content *)
}.

Record Tag := mkTag { t_message : string; t_target : nat }.

Record Remote := mkRemote {
  r_url : string;
  r_heads : gmap string nat;
  r_tags : gmap string Tag
}.

Inductive Head :=
| OnBranch (b : string)
| Detached (c : nat).

Record Repo := mkRepo {
  g_head : Head;
  g_branches : gmap string nat;              (* refs/heads *)
  g_tracking : gmap (string * string) nat;   (* refs/remotes/<remote>/<branch> *)
  g_tags : gmap string Tag;                  (* refs/tags *)
  g_index : gmap string string;
  g_remotes : gmap string Remote
}.

(** ** Small string helpers *)

(** [s.rstrip("\n")] *)
Fixpoint rstrip_nl (s : string) : string :=
  match s with
  | "" => ""
  | String c rest =>
      match rstrip_nl rest with
      | "" => if Ascii.eqb c LF then "" else String c ""
      | rest' => String c rest'
      end
  end.

(** The first occurrence of [pat] in [s]: what precedes and what
    follows it. *)
Fixpoint split_at (pat s : string) : option (string * string) :=
  if String.prefix pat s
  then Some ("", String.substring (String.length pat) (String.length s) s)
  else match s with
       | "" => None
       | String c rest =>
           match split_at pat rest with
           | Some (a, b) => Some (String c a, b)
           | None => None
           end
       end.

(** [c * n] for a one-character string. *)
Fixpoint repeat_chr (c : ascii) (n : nat) : string :=
  match n with
  | O => ""
  | S n' => String c (repeat_chr c n')
  end.

(** ** History *)

(** The commits reachable from [c].  A commit reachable at all is
    reachable along a path without repetition, so as many steps as there
    are objects suffice. *)
Fixpoint reach_fuel (store : list Commit) (fuel : nat) (c : nat) : gset nat :=
  match fuel with
  | O => ∅
  | S fuel' =>
      match store !! c with
      | None => ∅
      | Some cm => {[c]} ∪ ⋃ (map (reach_fuel store fuel') (c_parents cm))
      end
  end.

Definition reach (store : list Commit) (c : nat) : gset nat :=
  reach_fuel store (length store) c.

Definition head_commit (r : Repo) : option nat :=
  match g_head r with
  | OnBranch b => g_branches r !! b
  | Detached c => Some c
  end.

(** A revision name: [HEAD], a tag, a branch, or [<remote>/<branch>]. *)
Definition resolve (r : Repo) (name : string) : option nat :=
  if (name =? "HEAD")%string then head_commit r
  else match g_tags r !! name with
       | Some t => Some (t_target t)
       | None =>
           match g_branches r !! name with
           | Some c => Some c
           | None =>
               match split_at "/" name with
               | Some (remote, b) => g_tracking r !! (remote, b)
               | None => None
               end
           end
       end.

Definition commit_name (c : nat) : string := "commit" +:+ pretty c.

(** Newest first. *)
Definition list_commits (store : list Commit) (keep : nat -> bool)
  : list nat :=
  filter (fun c => keep c = true) (reverse (seq 0 (length store))).

(** [git rev-list <range> --left-right].  [A...B] is the symmetric
    difference, each commit marked with the side it is reachable from;
    [A..B] is what is reachable from [B] and not from [A], all of it on
    the right side; a single revision is everything reachable from it. *)
Definition rev_list (store : list Commit) (r : Repo) (range : string)
  : option (list string) :=
  match split_at "..." range with
  | Some (a, b) =>
      match resolve r a, resolve r b with
      | Some ca, Some cb =>
          let ra := reach store ca in
          let rb := reach store cb in
          Some (map (fun c => (if bool_decide (c ∈ ra) then "<" else ">")
                              +:+ commit_name c)
                  (list_commits store (fun c =>
                     xorb (bool_decide (c ∈ ra)) (bool_decide (c ∈ rb)))))
      | _, _ => None
      end
  | None =>
      match split_at ".." range with
      | Some (a, b) =>
          match resolve r a, resolve r b with
          | Some ca, Some cb =>
              let ra := reach store ca in
              let rb := reach store cb in
              Some (map (fun c => ">" +:+ commit_name c)
                      (list_commits store (fun c =>
                         bool_decide (c ∈ rb) && negb (bool_decide (c ∈ ra)))))
          | _, _ => None
          end
      | None =>
          match resolve r range with
          | Some c =>
              Some (map (fun c => ">" +:+ commit_name c)
                      (list_commits store (fun c' => bool_decide (c' ∈ reach store c))))
          | None => None
          end
      end
  end.

(** ** Working tree, index, status *)

Definition head_tree (store : list Commit) (r : Repo) : gmap string string :=
  match head_commit r with
  | Some c => match store !! c with Some cm => c_tree cm | None => ∅ end
  | None => ∅
  end.

(** The files below the repository's directory. *)
Definition worktree (fs : FileSystem) (dir : string) : gmap string string :=
  f_data <$> filter (fun kv => String.prefix (dir +:+ "/") kv.1 = true) fs.

Definition status_code (tree index work : option string) : string :=
  match index, work with
  | None, Some _ => "??"
  | _, _ =>
      (match tree, index with
       | None, None => " "
       | None, Some _ => "A"
       | Some _, None => "D"
       | Some a, Some b => if (a =? b)%string then " " else "M"
       end)
      +:+
      (match index, work with
       | Some _, None => "D"
       | Some a, Some b => if (a =? b)%string then " " else "M"
       | _, _ => " "
       end)
  end.

(** A path below [dir], as git prints it: relative to [dir]. *)
Definition rel_path (dir p : string) : string :=
  if String.prefix (dir +:+ "/") p
  then String.substring (S (String.length dir)) (String.length p) p
  else p.

(** [git status --porcelain]: one line per path that differs between
    the last commit, the index and the working tree. *)
Definition git_status (store : list Commit) (fs : FileSystem) (dir : string)
    (r : Repo) : string :=
  let tree := head_tree store r in
  let work := worktree fs dir in
  concat_str
    (map (fun p =>
            let code := status_code (tree !! p) (g_index r !! p) (work !! p) in
            if (code =? "  ")%string then ""
            else code +:+ " " +:+ rel_path dir p +:+ NL)
       (elements (dom tree ∪ dom (g_index r) ∪ dom work))).

(** ** Commands *)

(** Exit status, standard output, standard error. *)
Definition Completed : Type := Z * string * string.

Definition failed (rc : Z) (msg : string) : Completed := (rc, "", msg).
Definition succeeded (out : string) : Completed := (0%Z, out, "").

Definition abs_path (dir p : string) : string :=
  if String.prefix "/" p then p else dir +:+ "/" +:+ p.

(** [git add]: every path must be a file of the working tree or a path
    of the index; nothing is staged otherwise. *)
Definition git_add (fs : FileSystem) (dir : string) (files : list string)
    (r : Repo) : option Repo :=
  let paths := map (abs_path dir) files in
  if forallb (fun p => String.prefix (dir +:+ "/") p
                       && (bool_decide (is_Some (fs !! p))
                           || bool_decide (is_Some (g_index r !! p)))) paths
  then Some (mkRepo (g_head r) (g_branches r) (g_tracking r) (g_tags r)
               (foldl (fun idx p =>
                         match fs !! p with
                         | Some f => <[p := f_data f]> idx
                         | None => delete p idx
                         end) (g_index r) paths)
               (g_remotes r))
  else None.

Definition set_head (r : Repo) (c : nat) : Repo :=
  match g_head r with
  | OnBranch b =>
      mkRepo (g_head r) (<[b := c]> (g_branches r)) (g_tracking r) (g_tags r)
        (g_index r) (g_remotes r)
  | Detached _ =>
      mkRepo (Detached c) (g_branches r) (g_tracking r) (g_tags r)
        (g_index r) (g_remotes r)
  end.

(** [git commit -m]: refuses when nothing is staged. *)
Definition git_commit_cmd (store : list Commit) (msg : string) (r : Repo)
  : option (list Commit * Repo) :=
  if bool_decide (g_index r = head_tree store r) || (msg =? "")%string then None
  else
    let parents := match head_commit r with Some c => [c] | None => [] end in
    Some ((store ++ [mkCommit parents msg (g_index r)])%list,
          set_head r (length store)).

(** [git tag -m msg name]: an annotated tag on the current commit. *)
Definition git_tag (msg name : string) (r : Repo) : option Repo :=
  match g_tags r !! name, head_commit r with
  | None, Some c =>
      Some (mkRepo (g_head r) (g_branches r) (g_tracking r)
              (<[name := mkTag msg c]> (g_tags r)) (g_index r) (g_remotes r))
  | _, _ => None
  end.

(** The history a fetch of the branches of a remote brings along. *)
Definition fetched (store : list Commit) (rem : Remote) : gset nat :=
  ⋃ (map (fun kv => reach store kv.2) (map_to_list (r_heads rem))).

(** [git remote update <name>], a fetch: the remote-tracking branches
    follow the remote's branches, and the tags of the remote that point
    into the history fetched are copied, except where the repository has
    a tag of that name. *)
Definition git_remote_update (store : list Commit) (name : string) (r : Repo)
  : option Repo :=
  match g_remotes r !! name with
  | Some rem =>
      Some (mkRepo (g_head r) (g_branches r)
              (map_fold (fun b c trk => <[(name, b) := c]> trk)
                 (g_tracking r) (r_heads rem))
              (g_tags r
               ∪ filter (fun kv => t_target kv.2 ∈ fetched store rem) (r_tags rem))
              (g_index r) (g_remotes r))
  | None => None
  end.

(** One ref of a push: [HEAD] is the current branch, anything else a
    tag.  [None] when the ref does not exist locally; otherwise the
    remote after the update and whether it was accepted.  A branch moves
    only forward, a tag is never moved. *)
Definition push_ref (store : list Commit) (r : Repo) (ref : string)
    (rem : Remote) : option (Remote * bool) :=
  if (ref =? "HEAD")%string then
    match g_head r with
    | OnBranch b =>
        match g_branches r !! b with
        | Some c =>
            match r_heads rem !! b with
            | Some old =>
                if bool_decide (old ∈ reach store c)
                then Some (mkRemote (r_url rem) (<[b := c]> (r_heads rem)) (r_tags rem), true)
                else Some (rem, false)
            | None =>
                Some (mkRemote (r_url rem) (<[b := c]> (r_heads rem)) (r_tags rem), true)
            end
        | None => None
        end
    | Detached _ => None
    end
  else
    match g_tags r !! ref with
    | Some t =>
        match r_tags rem !! ref with
        | Some t' =>
            Some (rem, bool_decide (t_target t' = t_target t)
                       && (t_message t' =? t_message t)%string)
        | None =>
            Some (mkRemote (r_url rem) (r_heads rem) (<[ref := t]> (r_tags rem)), true)
        end
    | None => None
    end.

Fixpoint push_refs (store : list Commit) (r : Repo) (refs : list string)
    (rem : Remote) : option (Remote * bool) :=
  match refs with
  | [] => Some (rem, true)
  | ref :: refs' =>
      match push_ref store r ref rem with
      | Some (rem', ok) =>
          match push_refs store r refs' rem' with
          | Some (rem'', ok') => Some (rem'', ok && ok')
          | None => None
          end
      | None => None
      end
  end.

(** [git push <remote> <ref>...]: nothing is sent unless every ref
    exists; then each ref is accepted or rejected on its own and the
    status is non-zero if any was rejected. *)
Definition git_push (store : list Commit) (remote : string)
    (refs : list string) (r : Repo) : option (Repo * bool) :=
  match g_remotes r !! remote with
  | Some rem =>
      match push_refs store r refs rem with
      | Some (rem', ok) =>
          Some (mkRepo (g_head r) (g_branches r) (g_tracking r) (g_tags r)
                  (g_index r) (<[remote := rem']> (g_remotes r)), ok)
      | None => None
      end
  | None => None
  end.

(** [git config --get remote.<name>.url] *)
Definition git_config_get (key : string) (r : Repo) : option string :=
  match List.find (fun kv => ("remote." +:+ kv.1 +:+ ".url" =? key)%string)
          (map_to_list (g_remotes r)) with
  | Some kv => Some (r_url kv.2)
  | None => None
  end.

(* ===================================================================== *)
(** * Part VI.  The process and its world                                *)
(* ===================================================================== *)

(** What the run has done so far, oldest first.  The script never reads
    this history; it is kept to state in which order things happen. *)
Inductive event :=
| EvRun (args : list string) (cwd : string) (rc : Z)
| EvChangeLine (path line : string) (to : list string)
| EvCopyfile (src dst : string)
| EvInput.

Record World := mkWorld {
  w_fs : FileSystem;
  w_store : list Commit;
  w_repos : gmap string Repo;           (* working copies, by directory *)
  w_cwd : string;                       (* absolute, normalised *)
  w_umask : N;                          (* the umask of the process *)
  w_argv : list string;                 (* sys.argv *)
  w_timestamp : Z;                      (* int(datetime.now().timestamp()) *)
  w_today : string;                     (* today's date as %Y-%m-%d *)
  w_stdin : list string;                (* lines waiting on standard input *)
  w_out : list (bool * nat * string);   (* printed: to stderr?, depth, text *)
  w_indent : nat;                       (* log.indent *)
  w_trace : list event
}.

Definition set_fs (fs : FileSystem) (w : World) : World :=
  mkWorld fs (w_store w) (w_repos w) (w_cwd w) (w_umask w) (w_argv w) (w_timestamp w)
    (w_today w) (w_stdin w) (w_out w) (w_indent w) (w_trace w).
Definition set_git (store : list Commit) (dir : string) (r : Repo) (w : World)
  : World :=
  mkWorld (w_fs w) store (<[dir := r]> (w_repos w)) (w_cwd w) (w_umask w) (w_argv w)
    (w_timestamp w) (w_today w) (w_stdin w) (w_out w) (w_indent w) (w_trace w).
Definition set_stdin (l : list string) (w : World) : World :=
  mkWorld (w_fs w) (w_store w) (w_repos w) (w_cwd w) (w_umask w) (w_argv w) (w_timestamp w)
    (w_today w) l (w_out w) (w_indent w) (w_trace w).
Definition set_out (o : list (bool * nat * string)) (w : World) : World :=
  mkWorld (w_fs w) (w_store w) (w_repos w) (w_cwd w) (w_umask w) (w_argv w) (w_timestamp w)
    (w_today w) (w_stdin w) o (w_indent w) (w_trace w).
Definition set_indent (n : nat) (w : World) : World :=
  mkWorld (w_fs w) (w_store w) (w_repos w) (w_cwd w) (w_umask w) (w_argv w) (w_timestamp w)
    (w_today w) (w_stdin w) (w_out w) n (w_trace w).
Definition record (e : event) (w : World) : World :=
  mkWorld (w_fs w) (w_store w) (w_repos w) (w_cwd w) (w_umask w) (w_argv w) (w_timestamp w)
    (w_today w) (w_stdin w) (w_out w) (w_indent w) (w_trace w ++ [e]).

(** A computation: it reads and changes the world and returns or
    raises. *)
Definition M (A : Type) : Type := World -> result A * World.

Definition ret {A} (a : A) : M A := fun w => (Ok a, w).
Definition raise {A} (e : exn) : M A := fun w => (Raise e, w).
Definition bind {A B} (m : M A) (f : A -> M B) : M B :=
  fun w =>
    match m w with
    | (Ok a, w') => f a w'
    | (Raise e, w') => (Raise e, w')
    end.

Declare Scope m_scope.
Delimit Scope m_scope with M.
Notation "x <- c ;; k" := (bind c (fun x => k))
  (at level 100, c at next level, right associativity) : m_scope.
Notation "c ;; k" := (bind c (fun _ => k))
  (at level 100, right associativity) : m_scope.
Bind Scope m_scope with M.
Open Scope m_scope.

(** [assert cond, msg] *)
Definition assert (cond : bool) (msg : string) : M unit :=
  if cond then ret tt else raise (AssertionError msg).

(** [log(message)] and [log(message, error=True)]: the message goes to
    standard output or standard error, indented by the current depth. *)
Definition log (message : string) (error : bool) : M unit :=
  fun w => (Ok tt, set_out (w_out w ++ [(error, w_indent w, message)]) w).

(** [print(message)] *)
Definition print (message : string) : M unit :=
  fun w => (Ok tt, set_out (w_out w ++ [(false, O, message)]) w).

(** [with task(message): body].  An [AssertionError] of the body is
    reported and becomes [sys.exit(1)]; the depth is restored on every
    way out. *)
Definition task {A} (message : string) (body : M A) : M A :=
  fun w =>
    let w1 := (log (message +:+ "...") false w).2 in
    let w2 := set_indent (S (w_indent w1)) w1 in
    match body w2 with
    | (Ok a, w3) => (Ok a, set_indent (pred (w_indent w3)) w3)
    | (Raise (AssertionError e), w3) =>
        let w4 := (log ("ERROR: " +:+ e) true w3).2 in
        (Raise (SystemExit 1), set_indent (pred (w_indent w4)) w4)
    | (Raise e, w3) => (Raise e, set_indent (pred (w_indent w3)) w3)
    end.

Definition usage : Completed := failed 129 "usage".

Definition git_ok (out : string) (store : list Commit) (dir : string)
    (r : Repo) (w : World) : Completed * World :=
  (succeeded out, set_git store dir r w).

(** The git executable, run in [dir] with the given arguments.  A
    directory that is no working copy is one that exists and has no
    repository: git refuses to work there. *)
Definition git (args : list string) (dir : string) (w : World)
  : Completed * World :=
  match w_repos w !! dir with
  | None => (failed 128 "fatal: not a git repository", w)
  | Some r =>
      match args with
      | [] => (usage, w)
      | sub :: rest =>
          if (sub =? "config")%string then
            match rest with
            | [flag; key] =>
                if (flag =? "--get")%string then
                  match git_config_get key r with
                  | Some url => (succeeded (url +:+ NL), w)
                  | None => (failed 1 "", w)
                  end
                else (usage, w)
            | _ => (usage, w)
            end
          else if (sub =? "branch")%string then
            match rest with
            | [flag] =>
                if (flag =? "--show-current")%string then
                  match g_head r with
                  | OnBranch b => (succeeded (b +:+ NL), w)
                  | Detached _ => (succeeded "", w)
                  end
                else (usage, w)
            | _ => (usage, w)
            end
          else if (sub =? "status")%string then
            match rest with
            | [flag] =>
                if (flag =? "--porcelain")%string
                then (succeeded (git_status (w_store w) (w_fs w) dir r), w)
                else (usage, w)
            | _ => (usage, w)
            end
          else if (sub =? "remote")%string then
            match rest with
            | [verb; name] =>
                if (verb =? "update")%string then
                  match git_remote_update (w_store w) name r with
                  | Some r' =>
                      git_ok ("Fetching " +:+ name +:+ NL) (w_store w) dir r' w
                  | None => (failed 1 "fatal: No such remote", w)
                  end
                else (usage, w)
            | _ => (usage, w)
            end
          else if (sub =? "rev-list")%string then
            match rest with
            | [range; flag] =>
                if (flag =? "--left-right")%string then
                  match rev_list (w_store w) r range with
                  | Some commits => (succeeded (unlines commits), w)
                  | None => (failed 128 "fatal: bad revision", w)
                  end
                else (usage, w)
            | _ => (usage, w)
            end
          else if (sub =? "add")%string then
            match git_add (w_fs w) dir rest r with
            | Some r' => git_ok "" (w_store w) dir r' w
            | None => (failed 128 "fatal: pathspec did not match any files", w)
            end
          else if (sub =? "commit")%string then
            match rest with
            | [flag; msg] =>
                if (flag =? "-m")%string then
                  match git_commit_cmd (w_store w) msg r with
                  | Some (store', r') => git_ok (msg +:+ NL) store' dir r' w
                  | None => (failed 1 "nothing to commit", w)
                  end
                else (usage, w)
            | _ => (usage, w)
            end
          else if (sub =? "tag")%string then
            match rest with
            | [flag; msg; name] =>
                if (flag =? "-m")%string then
                  match git_tag msg name r with
                  | Some r' => git_ok "" (w_store w) dir r' w
                  | None => (failed 128 "fatal: tag already exists", w)
                  end
                else (usage, w)
            | _ => (usage, w)
            end
          else if (sub =? "push")%string then
            match rest with
            | remote :: refs =>
                match git_push (w_store w) remote refs r with
                | Some (r', true) => git_ok "" (w_store w) dir r' w
                | Some (r', false) =>
                    (failed 1 "error: failed to push some refs",
                     set_git (w_store w) dir r' w)
                | None => (failed 128 "fatal: could not push", w)
                end
            | [] => (usage, w)
            end
          else (usage, w)
      end
  end.

(** [subprocess.run(args, cwd=cwd, capture_output=True)]; the only
    program on the path is git, and [cwd] exists (a missing directory
    would raise before git is started). *)
Definition subprocess_run (args : list string) (cwd : string) : M Completed :=
  fun w =>
    match args with
    | prog :: args' =>
        if (prog =? "git")%string then
          let '(res, w') := git args' cwd w in
          (Ok res, record (EvRun args cwd res.1.1) w')
        else (Raise OSError, w)
    | [] => (Raise OSError, w)
    end.

(** [" ".join(words)] *)
Fixpoint join_words (words : list string) : string :=
  match words with
  | [] => ""
  | [x] => x
  | x :: rest => x +:+ " " +:+ join_words rest
  end.

(** [" stdout ".center(80, "-")] and its sibling. *)
Definition banner (title : string) : string :=
  repeat_chr "-" 36 +:+ " " +:+ title +:+ " " +:+ repeat_chr "-" 36.

Definition or_nothing (s : string) : string :=
  if (s =? "")%string then "<nothing>" else s.

(** [run] of the script: the command's output without trailing line
    feeds, or a report and an [AssertionError] when it fails. *)
Definition run (args : list string) (cwd : string) : M string :=
  result <- subprocess_run args cwd ;;
  let '(returncode, stdout, stderr) := result in
  if (returncode =? 0)%Z then ret (rstrip_nl stdout)
  else
    log (join_words ("$" :: args)) false ;;
    log (banner "stdout") false ;;
    log (or_nothing stdout) false ;;
    log (banner "stderr") false ;;
    log (or_nothing stderr) false ;;
    raise (AssertionError
             ("Exited with non-zero exit code: " +:+ pretty returncode)).

(** [change_line] as the script calls it: a file that is missing is an
    [OSError], one that does not decode a [UnicodeDecodeError]. *)
Definition do_change_line (path line : string) (to : list string) : M unit :=
  fun w =>
    let '(fs', ok) := change_line path line to (w_fs w) in
    let w' := record (EvChangeLine path line to) (set_fs fs' w) in
    if ok then (Ok tt, w')
    else match w_fs w !! path with
         | Some _ => (Raise UnicodeDecodeError, w')
         | None => (Raise OSError, w')
         end.

(** [shutil.copyfile(src, dst)]: the content only; an existing
    destination keeps its mode, a new one gets what [open] gives a file
    it creates, 0o666 without the bits of the umask. *)
Definition copyfile (src dst : string) : M unit :=
  fun w =>
    match w_fs w !! src with
    | Some f =>
        if (src =? dst)%string then (Raise OSError, w)
        else
          let mode := match w_fs w !! dst with
                      | Some d => f_mode d
                      | None => created_mode (w_umask w)
                      end in
          (Ok tt, record (EvCopyfile src dst)
                    (set_fs (<[dst := mkFile (f_data f) mode]> (w_fs w)) w))
    | None => (Raise OSError, w)
    end.

(** [input(prompt)] *)
Definition input (prompt : string) : M string :=
  fun w =>
    let w1 := (print prompt w).2 in
    match w_stdin w1 with
    | l :: rest => (Ok l, record EvInput (set_stdin rest w1))
    | [] => (Raise EOFError, w1)
    end.

(** ** Paths *)

Fixpoint before_last_slash (s : string) : option string :=
  match s with
  | "" => None
  | String c rest =>
      match before_last_slash rest with
      | Some p => Some (String c p)
      | None => if Ascii.eqb c "/" then Some "" else None
      end
  end.

(** [path.parent] of an absolute path. *)
Definition path_parent (p : string) : string :=
  match before_last_slash p with
  | Some "" => "/"
  | Some d => d
  | None => "."
  end.

(** [dir / name] *)
Definition path_join (dir name : string) : string :=
  if (dir =? "/")%string then "/" +:+ name else dir +:+ "/" +:+ name.
Infix "//" := path_join (at level 40, left associativity).

(* ===================================================================== *)
(** * Part VII.  The release script                                      *)
(* ===================================================================== *)

Definition git_commit (message : string) (files : list string) (repo : string)
  : M unit :=
  run ("git" :: "add" :: files) repo ;;
  run ["git"; "commit"; "-m"; message] repo ;;
  ret tt.

Definition check_repo_state (repo name : string) : M unit :=
  (* Check upstream remote is configured correctly *)
  upstream <- run ["git"; "config"; "--get"; "remote.upstream.url"] repo ;;
  assert (upstream =? "git@github.com:toml-lang/" +:+ name +:+ ".git")%string
    ("Got incorrect upstream repo: " +:+ upstream) ;;
  (* Check current branch is correct *)
  current_branch <- run ["git"; "branch"; "--show-current"] repo ;;
  assert ((current_branch =? "main") || (current_branch =? "master"))%string
    current_branch ;;
  (* Check working directory is clean *)
  working_directory_state <- run ["git"; "status"; "--porcelain"] repo ;;
  assert (working_directory_state =? "")%string
    ("Dirty working directory" +:+ NL +:+ working_directory_state) ;;
  (* Check up-to-date with remote *)
  task "Checking against remote" (
    run ["git"; "remote"; "update"; "upstream"] repo ;;
    deviation <- run ["git"; "rev-list";
                      current_branch +:+ "..upstream/" +:+ current_branch;
                      "--left-right"] repo ;;
    assert (deviation =? "")%string
      ("Local branch deviates from upstream" +:+ NL +:+ deviation)).

Definition get_repositories : M (string * string) :=
  fun w =>
    let spec_repo := w_cwd w in
    let website_repo := path_parent spec_repo // "toml.io" in
    (task "Checking repositories" (
       task "toml" (check_repo_state spec_repo "toml") ;;
       task "toml.io" (check_repo_state website_repo "toml.io")) ;;
     ret (website_repo, spec_repo)) w.

Definition prepare_release (version spec_repo website_repo : string) : M unit :=
  fun w =>
    (* Make "backup" tags *)
    let backup_tag := "backup/" +:+ pretty (w_timestamp w) in
    let date := w_today w in
    let release_heading := "## " +:+ version +:+ " / " +:+ date in
    let release_message := "Release v" +:+ version in
    let unreleased_heading := "## unreleased" in
    let changelog := spec_repo // "CHANGELOG.md" in
    let source_md := spec_repo // "toml.md" in
    let destination_md :=
      website_repo // "specs" // "en" // ("v" +:+ version +:+ ".md") in
    let new_heading := "TOML v" +:+ version in
    (run ["git"; "tag"; "-m"; "backup"; backup_tag] spec_repo ;;
     run ["git"; "tag"; "-m"; "backup"; backup_tag] website_repo ;;
     task "Updating changelog for release" (
       do_change_line changelog unreleased_heading [release_heading] ;;
       git_commit release_message [changelog] spec_repo) ;;
     task "Creating release tag" (
       run ["git"; "tag"; "-m"; release_message; version] spec_repo) ;;
     task "Updating changelog for development" (
       do_change_line changelog release_heading
         [unreleased_heading; ""; "Nothing."; ""; release_heading] ;;
       git_commit "Bump for development" [changelog] spec_repo) ;;
     task "Copy to website" (
       copyfile source_md destination_md) ;;
     task "Update title" (
       do_change_line destination_md "TOML" [new_heading] ;;
       do_change_line destination_md "===="
         [repeat_chr "=" (py_len new_heading)]) ;;
     task "Commit new version" (
       git_commit release_message [destination_md] website_repo)) w.

Definition push_release (version spec_repo website_repo : string) : M unit :=
  print "Publishing changes..." ;;
  task "specs repository" (
    run ["git"; "push"; "origin"; "HEAD"; version] spec_repo ;;
    run ["git"; "push"; "upstream"; "HEAD"; version] spec_repo) ;;
  task "website repository" (
    run ["git"; "push"; "origin"; "HEAD"] website_repo ;;
    run ["git"; "push"; "upstream"; "HEAD"] website_repo) ;;
  ret tt.

Definition main : M unit :=
  fun w =>
    (version <- (fun w => (get_version (w_argv w), w)) ;;
     repos <- get_repositories ;;
     let '(website_repo, spec_repo) := repos in
     task "Preparing release" (
       prepare_release version spec_repo website_repo) ;;
     input "Press enter when ready." ;;
     task "Publishing release" (
       push_release version spec_repo website_repo)) w.

(** The exit status of the process and the world it leaves. *)
Definition run_main (w : World) : Z * World :=
  match main w with
  | (Ok _, w') => (0%Z, w')
  | (Raise (SystemExit code), w') => (code, w')
  | (Raise _, w') => (1%Z, w')
  end.

(* ===================================================================== *)
(** * Part VIII.  The vocabulary of the properties *)
(* ===================================================================== *)

(** ** Text *)

(** Whether the character [c] occurs in [s]. *)
Fixpoint str_has (c : ascii) (s : string) : bool :=
  match s with
  | "" => false
  | String a rest => Ascii.eqb a c || str_has c rest
  end.

(** What follows the last line feed of a text, as a line of its own
    when there is something. *)
Definition last_piece (tail : string) : list string :=
  if (tail =? "")%string then [] else [tail].

(** Whether an operation changes what is at [path]. *)
Definition touches (path : string) (op : fs_op) : bool :=
  match op with
  | OpOpenRead _ => false
  | OpCreate p | OpAppend p _ | OpUnlink p | OpOpenWrite p _ | OpWrite p _ =>
      (p =? path)%string
  | OpCopymode _ dst => (dst =? path)%string
  | OpMove src dst => (src =? path)%string || (dst =? path)%string
  end.

(** The release heading of [prepare_release] and the lines its second
    edit puts in the heading's place. *)
Definition release_heading (version date : string) : string :=
  "## " +:+ version +:+ " / " +:+ date.

Definition development_section (heading : string) : list string :=
  ["## unreleased"; ""; "Nothing."; ""; heading].

(** ** Matches of a pattern *)

(** [matches r st st']: some way of matching [r] leads from [st] to
    [st'].  The matcher [rmatch] explores these ways in its order of
    preference. *)
Inductive matches : regex -> mstate -> mstate -> Prop :=
| M_Eps st : matches Eps st st
| M_Cls p st c rest' :
    rest st = String c rest' -> p c = true ->
    matches (Cls p) st (advance st rest')
| M_Seq r1 r2 st st1 st2 :
    matches r1 st st1 -> matches r2 st1 st2 -> matches (Seq r1 r2) st st2
| M_AltL r1 r2 st st' : matches r1 st st' -> matches (Alt r1 r2) st st'
| M_AltR r1 r2 st st' : matches r2 st st' -> matches (Alt r1 r2) st st'
| M_Star0 r st : matches (Star r) st st
| M_StarS r st st1 st2 :
    matches r st st1 -> pos st < pos st1 -> matches (Star r) st1 st2 ->
    matches (Star r) st st2
| M_Group n r st st1 :
    matches r st st1 -> matches (Group n r) st (set_group n st st1)
| M_Bol st : pos st = 0 -> matches Bol st st
| M_Eol st : at_eol (rest st) = true -> matches Eol st st.

(** [r] can consume the word [w] wherever [w] is what comes next. *)
Definition runs (r : regex) (w : string) : Prop :=
  forall st tail, rest st = w +:+ tail ->
    exists st', matches r st st' /\ rest st' = tail
                /\ pos st' = pos st + String.length w.

(** Identifiers after the first, each with its dot. *)
Fixpoint dotted_tail (ids : list string) : string :=
  match ids with
  | [] => ""
  | i :: ids' => "." +:+ i +:+ dotted_tail ids'
  end.

(** The pattern without its final [$], and without its last two items. *)
Definition semver_items : list regex :=
  [ Bol; Group "major" re_numeric; Chr "."; Group "minor" re_numeric; Chr ".";
    Group "patch" re_numeric;
    Opt (Seq (Chr "-") (Group "prerelease" re_prerelease)) ].

Definition semver_build : regex :=
  Opt (Seq (Chr "+") (Group "buildmetadata" re_buildmetadata)).

(** Whether [r] has a group named [n]. *)
Fixpoint mentions (n : string) (r : regex) : bool :=
  match r with
  | Group m r' => (m =? n)%string || mentions n r'
  | Seq a b | Alt a b => mentions n a || mentions n b
  | Star a => mentions n a
  | _ => false
  end.

(** The characters [r] can consume. *)
Fixpoint alphabet (r : regex) : ascii -> bool :=
  match r with
  | Cls p => p
  | Seq a b | Alt a b => fun c => alphabet a c || alphabet b c
  | Star a | Group _ a => alphabet a
  | _ => fun _ => false
  end.

(** Whether every match of [r] consumes at least one character. *)
Fixpoint consuming (r : regex) : bool :=
  match r with
  | Cls _ => true
  | Seq a b => consuming a || consuming b
  | Alt a b => consuming a && consuming b
  | Group _ a => consuming a
  | _ => false
  end.


(** ** Histories *)

(** The command of an event, without its exit status. *)
Definition command (e : event) : option (list string * string) :=
  match e with
  | EvRun args cwd _ => Some (args, cwd)
  | _ => None
  end.

Definition exit_status (e : event) : option Z :=
  match e with
  | EvRun _ _ rc => Some rc
  | _ => None
  end.

Definition is_ok {A} (r : result A) : bool :=
  match r with Ok _ => true | Raise _ => false end.

(** [m] appends to the history some events that, together with its
    outcome, satisfy [P]. *)
Definition emits {A} (m : M A) (P : result A -> list event -> Prop) : Prop :=
  forall w, exists evs, w_trace (m w).2 = w_trace w ++ evs /\ P (m w).1 evs.

(** What [task] makes of the outcome of its body. *)
Definition task_outcome {A} (r : result A) : result A :=
  match r with
  | Raise (AssertionError _) => Raise (SystemExit 1)
  | _ => r
  end.

(** The world in which the body of a [task] starts. *)
Definition task_enter (msg : string) (w : World) : World :=
  set_indent (S (w_indent w))
    (set_out (w_out w ++ [(false, w_indent w, msg +:+ "...")]) w).

(** How a step that fails shows in the history: a command with its
    non-zero status, an edit that could not open or decode its file,
    nothing for a copy or a prompt that failed. *)
Definition failed_as (step : event) (tail : list event) : Prop :=
  match step with
  | EvRun args cwd _ => exists rc, rc <> 0%Z /\ tail = [EvRun args cwd rc]
  | EvChangeLine _ _ _ => tail = [step]
  | EvCopyfile _ _ | EvInput => tail = []
  end.

(** [evs] is what a run through [steps] leaves in the history: all of
    them when it succeeds, and otherwise those before the step that
    failed, followed by the trace of the failure. *)
Definition attempts (steps : list event) (ok : bool) (evs : list event) : Prop :=
  if ok then evs = steps
  else exists pre step post tail,
      steps = pre ++ step :: post /\ failed_as step tail /\ evs = pre ++ tail.

(** [m] runs through [steps], from any world. *)
Definition performs {A} (m : M A) (steps : list event) : Prop :=
  emits m (fun r evs => attempts steps (is_ok r) evs).

(** The four pushes of [push_release], in order. *)
Definition pushes (version spec_repo website_repo : string) : list event :=
  [ EvRun ["git"; "push"; "origin"; "HEAD"; version] spec_repo 0;
    EvRun ["git"; "push"; "upstream"; "HEAD"; version] spec_repo 0;
    EvRun ["git"; "push"; "origin"; "HEAD"] website_repo 0;
    EvRun ["git"; "push"; "upstream"; "HEAD"] website_repo 0 ].

(** Where a remote of a working copy stands: its branches and its tags,
    each with the number of its commit. *)
Definition remote_refs (w : World) (dir name : string)
  : option (list (string * nat) * list (string * nat)) :=
  match w_repos w !! dir ≫= fun r => g_remotes r !! name with
  | Some rem => Some (map_to_list (r_heads rem), map_to_list (t_target <$> r_tags rem))
  | None => None
  end.

(** The messages of all commits, oldest first. *)
Definition commit_messages (w : World) : list string := c_message <$> w_store w.

(** ** Inspections *)

Definition is_query_sub (sub : string) : bool :=
  (sub =? "config")%string || (sub =? "branch")%string || (sub =? "status")%string
  || (sub =? "remote")%string || (sub =? "rev-list")%string.

(** The events of the Repository Inspector: the four read-only queries
    and the fetch. *)
Definition is_query (e : event) : bool :=
  match e with
  | EvRun (prog :: sub :: _) _ _ => (prog =? "git")%string && is_query_sub sub
  | _ => false
  end.

(** What a repository [r] may have become through fetches from
    [upstream] and nothing else.  The current branch, the branches, the
    index and the remotes are the same.  The tags of [r] are all there,
    and a tag that [r] did not have is a tag of [upstream].  The
    remote-tracking branches of other remotes are the same, and one of
    [upstream] that has changed is where the branch of [upstream] is. *)
Definition only_fetched (r r' : Repo) : Prop :=
  g_head r' = g_head r /\ g_branches r' = g_branches r
  /\ g_index r' = g_index r /\ g_remotes r' = g_remotes r
  /\ (forall name t, g_tags r !! name = Some t -> g_tags r' !! name = Some t)
  /\ (forall name t, g_tags r' !! name = Some t ->
        g_tags r !! name = Some t
        \/ exists rem, g_remotes r !! "upstream" = Some rem
                       /\ r_tags rem !! name = Some t)
  /\ (forall remote b c, g_tracking r' !! (remote, b) = Some c ->
        g_tracking r !! (remote, b) = Some c
        \/ remote = "upstream"
           /\ exists rem, g_remotes r !! "upstream" = Some rem
                          /\ r_heads rem !! b = Some c)
  /\ (forall remote b, remote <> "upstream" ->
        g_tracking r' !! (remote, b) = g_tracking r !! (remote, b)).

(** Between [w] and [w'] no file was written, no commit or tag was
    made, nothing was staged or pushed, and nothing but inspections was
    run: the file system and the commits are the same, and every
    repository is as it was up to what it has fetched from
    [upstream]. *)
Definition untouched (w w' : World) : Prop :=
  w_fs w' = w_fs w /\ w_store w' = w_store w
  /\ (forall d, option_Forall2 only_fetched (w_repos w !! d) (w_repos w' !! d))
  /\ exists evs, w_trace w' = w_trace w ++ evs /\ forallb is_query evs = true.

(** The working tree of [repo] is dirty: [git status] has something to
    report. *)
Definition dirty (repo : string) (w : World) : Prop :=
  exists r, w_repos w !! repo = Some r
            /\ git_status (w_store w) (w_fs w) repo r <> "".

(** An exception that makes the process exit with a non-zero status. *)
Definition fatal (e : exn) : Prop := e <> SystemExit 0.

(** [m] touches nothing and, when it raises, ends the process with a
    non-zero status. *)
Definition quietly {A} (m : M A) : Prop :=
  forall w, untouched w (m w).2 /\ forall e, (m w).1 = Raise e -> fatal e.

(** What [prepare_release] does, step by step, at a given time. *)
Definition prepare_steps (version spec_repo website_repo : string)
    (timestamp : Z) (date : string) : list event :=
  let backup_tag := "backup/" +:+ pretty timestamp in
  let heading := release_heading version date in
  let release_message := "Release v" +:+ version in
  let changelog := spec_repo // "CHANGELOG.md" in
  let destination_md :=
    website_repo // "specs" // "en" // ("v" +:+ version +:+ ".md") in
  let new_heading := "TOML v" +:+ version in
  [ EvRun ["git"; "tag"; "-m"; "backup"; backup_tag] spec_repo 0;
    EvRun ["git"; "tag"; "-m"; "backup"; backup_tag] website_repo 0;
    EvChangeLine changelog "## unreleased" [heading];
    EvRun ["git"; "add"; changelog] spec_repo 0;
    EvRun ["git"; "commit"; "-m"; release_message] spec_repo 0;
    EvRun ["git"; "tag"; "-m"; release_message; version] spec_repo 0;
    EvChangeLine changelog heading (development_section heading);
    EvRun ["git"; "add"; changelog] spec_repo 0;
    EvRun ["git"; "commit"; "-m"; "Bump for development"] spec_repo 0;
    EvCopyfile (spec_repo // "toml.md") destination_md;
    EvChangeLine destination_md "TOML" [new_heading];
    EvChangeLine destination_md "====" [repeat_chr "=" (py_len new_heading)];
    EvRun ["git"; "add"; destination_md] website_repo 0;
    EvRun ["git"; "commit"; "-m"; release_message] website_repo 0 ].

(** The part of the world the release changes. *)
Definition core (w : World) : FileSystem * list Commit * gmap string Repo :=
  (w_fs w, w_store w, w_repos w).

(** What [prepare_release] leaves behind when it succeeds: the steps in
    their order, the release tag on the commit made from the first edit
    of the changelog, and the commit of the second edit on top of it. *)
Definition tag_on_release_commit (version spec_repo website_repo : string)
    (w w' : World) : Prop :=
  let changelog := spec_repo // "CHANGELOG.md" in
  let heading := release_heading version (w_today w) in
  w_trace w' = w_trace w ++ prepare_steps version spec_repo website_repo
                              (w_timestamp w) (w_today w)
  /\ exists (r : Repo) (c : nat) (release bump : Commit) (f : File),
    w_repos w' !! spec_repo = Some r
    /\ g_tags r !! version = Some (mkTag ("Release v" +:+ version) c)
    /\ w_store w' !! c = Some release
    /\ c_message release = "Release v" +:+ version
    /\ w_fs w !! changelog = Some f
    /\ c_tree release !! changelog
       = Some (rewritten "## unreleased" [heading] (f_data f))
    /\ w_store w' !! S c = Some bump
    /\ c_message bump = "Bump for development"
    /\ c_parents bump = [c]
    /\ c_tree bump !! changelog
       = Some (rewritten heading (development_section heading)
                 (rewritten "## unreleased" [heading] (f_data f)))
    /\ head_commit r = Some (S c).


(** ** The run as a whole and its parts *)

(** What the script is given: where it runs, its arguments, the clock,
    what waits on standard input, and the umask. *)
Definition setting (w : World)
  : string * list string * Z * string * list string * N :=
  (w_cwd w, w_argv w, w_timestamp w, w_today w, w_stdin w, w_umask w).

(** [m] leaves the setting as it is. *)
Definition steady {A} (m : M A) : Prop := forall w, setting (m w).2 = setting w.

(** What [main] adds to the history once both repositories have passed
    their inspection: the steps of the preparation up to one that
    failed; or all of them, when the prompt finds standard input at its
    end; or all of them, the prompt, and the pushes up to one that
    failed. *)
Definition release_history (version spec_repo website_repo : string)
    (timestamp : Z) (date : string) (stdin : list string)
    (ok : bool) (evs : list event) : Prop :=
  let prep := prepare_steps version spec_repo website_repo timestamp date in
  (ok = false /\ attempts prep false evs)
  \/ (ok = false /\ stdin = [] /\ evs = prep)
  \/ (stdin <> [] /\ exists pushed,
        attempts (pushes version spec_repo website_repo) ok pushed
        /\ evs = prep ++ EvInput :: pushed).

(** An event without its exit status. *)
Definition action (e : event) : event :=
  match e with
  | EvRun args cwd _ => EvRun args cwd 0
  | _ => e
  end.

(** The events that publish: the [git push] commands. *)
Definition is_push (e : event) : bool :=
  match e with
  | EvRun (prog :: sub :: _) _ _ => (prog =? "git")%string && (sub =? "push")%string
  | _ => false
  end.

(** [m] ends the process, if at all, with status 1. *)
Definition exits_1 {A} (m : M A) : Prop :=
  forall w c, (m w).1 = Raise (SystemExit c) -> c = 1%Z.

(** The five commands of an inspection, for the branch [b] that the
    second of them reports. *)
Definition inspection_steps (repo b : string) : list event :=
  [ EvRun ["git"; "config"; "--get"; "remote.upstream.url"] repo 0;
    EvRun ["git"; "branch"; "--show-current"] repo 0;
    EvRun ["git"; "status"; "--porcelain"] repo 0;
    EvRun ["git"; "remote"; "update"; "upstream"] repo 0;
    EvRun ["git"; "rev-list"; b +:+ "..upstream/" +:+ b; "--left-right"] repo 0 ].

(** [evs] is what an inspection that did not pass leaves in the
    history.  Either a command failed: then [evs] has the commands
    before it, each with status 0, and the command that failed with its
    status.  Or an answer was refused: then [evs] has the commands up to
    the one that gave the answer, each with status 0, which is the first
    (the URL), the second (the branch), the third (the status) or the
    fifth (the revisions). *)
Definition stopped (steps evs : list event) : Prop :=
  attempts steps false evs \/ exists k, k ∈ [1; 2; 3; 5] /\ evs = take k steps.

(** What [prepare_release] leaves in the changelog and in the document
    of the website, from what it found in the changelog and in
    [toml.md]. *)
Definition released_changelog (version date data : string) : string :=
  let heading := release_heading version date in
  rewritten heading (development_section heading)
    (rewritten "## unreleased" [heading] data).

Definition published_document (version data : string) : string :=
  let new_heading := "TOML v" +:+ version in
  rewritten "====" [repeat_chr "=" (py_len new_heading)]
    (rewritten "TOML" [new_heading] data).

(** The mode [shutil.copyfile] leaves on its destination: the one it
    had, or that of a file created under the umask. *)
Definition copied_mode (umask : N) (fs : FileSystem) (dst : string) : N :=
  match fs !! dst with
  | Some d => f_mode d
  | None => created_mode umask
  end.

(** The file system, the object store and the repositories through a
    successful [prepare_release], in the order of its steps. *)
Record Preparation := mkPreparation {
  p_spec0 : Repo;      (* the spec repository as found *)
  p_spec1 : Repo;      (* with the backup tag *)
  p_spec2 : Repo;      (* the release edit staged *)
  p_spec3 : Repo;      (* the release committed *)
  p_spec4 : Repo;      (* the release tagged *)
  p_spec5 : Repo;      (* the development edit staged *)
  p_spec6 : Repo;      (* the development edit committed *)
  p_web0 : Repo;       (* the website as found *)
  p_web1 : Repo;       (* with the backup tag *)
  p_web2 : Repo;       (* the document staged *)
  p_web3 : Repo;       (* the document committed *)
  p_store1 : list Commit;
  p_store2 : list Commit;
  p_store3 : list Commit;
  p_changelog : File;  (* the changelog as found *)
  p_source : File      (* [toml.md] as found *)
}.

Definition prepared (version spec_repo website_repo : string) (w w' : World)
    (p : Preparation) : Prop :=
  let backup_tag := "backup/" +:+ pretty (w_timestamp w) in
  let heading := release_heading version (w_today w) in
  let release_message := "Release v" +:+ version in
  let changelog := spec_repo // "CHANGELOG.md" in
  let source_md := spec_repo // "toml.md" in
  let destination_md :=
    website_repo // "specs" // "en" // ("v" +:+ version +:+ ".md") in
  let fs1 := <[changelog := mkFile (rewritten "## unreleased" [heading]
                                      (f_data (p_changelog p)))
                              (f_mode (p_changelog p))]> (w_fs w) in
  let fs2 := <[changelog := mkFile (released_changelog version (w_today w)
                                      (f_data (p_changelog p)))
                              (f_mode (p_changelog p))]> (w_fs w) in
  let fs3 := <[destination_md := mkFile (published_document version
                                           (f_data (p_source p)))
                                   (copied_mode (w_umask w) fs2 destination_md)]> fs2 in
  spec_repo <> website_repo
  /\ w_repos w !! spec_repo = Some (p_spec0 p)
  /\ w_repos w !! website_repo = Some (p_web0 p)
  /\ w_fs w !! changelog = Some (p_changelog p)
  /\ fs2 !! source_md = Some (p_source p)
  /\ source_md <> destination_md
  /\ git_tag "backup" backup_tag (p_spec0 p) = Some (p_spec1 p)
  /\ git_tag "backup" backup_tag (p_web0 p) = Some (p_web1 p)
  /\ git_add fs1 spec_repo [changelog] (p_spec1 p) = Some (p_spec2 p)
  /\ git_commit_cmd (w_store w) release_message (p_spec2 p)
     = Some (p_store1 p, p_spec3 p)
  /\ git_tag release_message version (p_spec3 p) = Some (p_spec4 p)
  /\ git_add fs2 spec_repo [changelog] (p_spec4 p) = Some (p_spec5 p)
  /\ git_commit_cmd (p_store1 p) "Bump for development" (p_spec5 p)
     = Some (p_store2 p, p_spec6 p)
  /\ git_add fs3 website_repo [destination_md] (p_web1 p) = Some (p_web2 p)
  /\ git_commit_cmd (p_store2 p) release_message (p_web2 p)
     = Some (p_store3 p, p_web3 p)
  /\ core w' = (fs3, p_store3 p,
                <[website_repo := p_web3 p]> (<[spec_repo := p_spec6 p]> (w_repos w))).

(** Whether [s] ends in the character [c]. *)
Fixpoint ends_in (c : ascii) (s : string) : bool :=
  match s with
  | "" => false
  | String a "" => Ascii.eqb a c
  | String _ rest => ends_in c rest
  end.

(* ===================================================================== *)
(** * Part IX.  A sample release *)
(* ===================================================================== *)

Module Sample.
Definition changelog : string :=
  unlines ["# Changelog"; ""; "## unreleased"; ""; "- Clarify dates."; "";
           "## 1.0.0 / 2021-01-11"; ""; "- First release."].

Definition toml_md : string :=
  unlines ["TOML"; "===="; ""; "Tom's Obvious, Minimal Language."].

Definition spec_tree : gmap string string :=
  {[ "/w/toml/CHANGELOG.md" := changelog; "/w/toml/toml.md" := toml_md ]}.

Definition fs : FileSystem :=
  {[ "/w/toml/CHANGELOG.md" := mkFile changelog 420;
     "/w/toml/toml.md" := mkFile toml_md 420 ]}.

Definition store : list Commit :=
  [ mkCommit [] "Initial commit" spec_tree; mkCommit [] "Initial commit" ∅ ].

Definition remote (url : string) (c : nat) : Remote :=
  mkRemote url {[ "main" := c ]} ∅.

Definition spec : Repo :=
  mkRepo (OnBranch "main") {[ "main" := 0 ]} ∅ ∅ spec_tree
    {[ "upstream" := remote "git@github.com:toml-lang/toml.git" 0;
       "origin" := remote "git@github.com:me/toml.git" 0 ]}.

Definition website : Repo :=
  mkRepo (OnBranch "main") {[ "main" := 1 ]} ∅ ∅ ∅
    {[ "upstream" := remote "git@github.com:toml-lang/toml.io.git" 1;
       "origin" := remote "git@github.com:me/toml.io.git" 1 ]}.

(** Both working copies clean and level with upstream. *)
Definition ready : World :=
  mkWorld fs store {[ "/w/toml" := spec; "/w/toml.io" := website ]}
    "/w/toml" 18 ["release.py"; "1.2.3"] 1700000000 "2024-01-02" [""] [] 0 [].

(** The same, with a stray file in the website's working tree. *)
Definition dirty_website : World :=
  mkWorld (<["/w/toml.io/notes.txt" := mkFile "todo" 420]> fs) store
    {[ "/w/toml" := spec; "/w/toml.io" := website ]}
    "/w/toml" 18 ["release.py"; "1.2.3"] 1700000000 "2024-01-02" [""] [] 0 [].

(** The same again, where upstream of the spec repository has a tag
    that the working copy has not fetched yet. *)
Definition tagged_spec : Repo :=
  mkRepo (OnBranch "main") {[ "main" := 0 ]} ∅ ∅ spec_tree
    {[ "upstream" := mkRemote "git@github.com:toml-lang/toml.git" {[ "main" := 0 ]}
                       {[ "0.9.0" := mkTag "Preview" 0 ]};
       "origin" := remote "git@github.com:me/toml.git" 0 ]}.

Definition dirty_after_fetch : World :=
  mkWorld (<["/w/toml.io/notes.txt" := mkFile "todo" 420]> fs) store
    {[ "/w/toml" := tagged_spec; "/w/toml.io" := website ]}
    "/w/toml" 18 ["release.py"; "1.2.3"] 1700000000 "2024-01-02" [""] [] 0 [].

(** The spec repository one commit ahead of upstream: commit 2, on top
    of commit 0, is on the local branch only. *)
Definition ahead_tree : gmap string string :=
  <["/w/toml/toml.md" := toml_md +:+ "More." +:+ NL]> spec_tree.

Definition ahead_spec : Repo :=
  mkRepo (OnBranch "main") {[ "main" := 2 ]} ∅ ∅ ahead_tree
    {[ "upstream" := remote "git@github.com:toml-lang/toml.git" 0;
       "origin" := remote "git@github.com:me/toml.git" 0 ]}.

Definition ahead : World :=
  mkWorld (<["/w/toml/toml.md" := mkFile (toml_md +:+ "More." +:+ NL) 420]> fs)
    (store ++ [mkCommit [0] "Local work" ahead_tree])
    {[ "/w/toml" := ahead_spec; "/w/toml.io" := website ]}
    "/w/toml" 18 ["release.py"; "1.2.3"] 1700000000 "2024-01-02" [""] [] 0 [].
(** The spec repository with its upstream pointing at a fork. *)
Definition forked_spec : Repo :=
  mkRepo (OnBranch "main") {[ "main" := 0 ]} ∅ ∅ spec_tree
    {[ "upstream" := remote "git@github.com:me/toml.git" 0;
       "origin" := remote "git@github.com:me/toml.git" 0 ]}.

Definition forked : World :=
  mkWorld fs store {[ "/w/toml" := forked_spec; "/w/toml.io" := website ]}
    "/w/toml" 18 ["release.py"; "1.2.3"] 1700000000 "2024-01-02" [""] [] 0 [].

(** The spec repository on a topic branch. *)
Definition topic_spec : Repo :=
  mkRepo (OnBranch "topic") {[ "main" := 0; "topic" := 0 ]} ∅ ∅ spec_tree
    {[ "upstream" := remote "git@github.com:toml-lang/toml.git" 0;
       "origin" := remote "git@github.com:me/toml.git" 0 ]}.

Definition on_topic : World :=
  mkWorld fs store {[ "/w/toml" := topic_spec; "/w/toml.io" := website ]}
    "/w/toml" 18 ["release.py"; "1.2.3"] 1700000000 "2024-01-02" [""] [] 0 [].

(** Upstream of the spec repository one commit further than the local
    branch. *)
Definition behind_spec : Repo :=
  mkRepo (OnBranch "main") {[ "main" := 0 ]} ∅ ∅ spec_tree
    {[ "upstream" := remote "git@github.com:toml-lang/toml.git" 2;
       "origin" := remote "git@github.com:me/toml.git" 0 ]}.

Definition behind : World :=
  mkWorld fs (store ++ [mkCommit [0] "Upstream work" ahead_tree])
    {[ "/w/toml" := behind_spec; "/w/toml.io" := website ]}
    "/w/toml" 18 ["release.py"; "1.2.3"] 1700000000 "2024-01-02" [""] [] 0 [].

(** Nobody at the keyboard: standard input is at its end. *)
Definition unattended : World := set_stdin [] ready.

(** A later run from where an earlier one stopped. *)
Definition again (w : World) : World :=
  mkWorld (w_fs w) (w_store w) (w_repos w) (w_cwd w) (w_umask w) (w_argv w)
    (w_timestamp w + 60) (w_today w) [""] [] 0 [].
(** A changelog without the marker: the last release has not been
    followed by a development section. *)
Definition released_changelog_text : string :=
  unlines ["# Changelog"; ""; "## 1.0.0 / 2021-01-11"; ""; "- First release."].

Definition released_tree : gmap string string :=
  {[ "/w/toml/CHANGELOG.md" := released_changelog_text; "/w/toml/toml.md" := toml_md ]}.

Definition released_spec : Repo :=
  mkRepo (OnBranch "main") {[ "main" := 0 ]} ∅ ∅ released_tree
    {[ "upstream" := remote "git@github.com:toml-lang/toml.git" 0;
       "origin" := remote "git@github.com:me/toml.git" 0 ]}.

Definition no_marker : World :=
  mkWorld {[ "/w/toml/CHANGELOG.md" := mkFile released_changelog_text 420;
             "/w/toml/toml.md" := mkFile toml_md 420 ]}
    [ mkCommit [] "Initial commit" released_tree; mkCommit [] "Initial commit" ∅ ]
    {[ "/w/toml" := released_spec; "/w/toml.io" := website ]}
    "/w/toml" 18 ["release.py"; "1.2.3"] 1700000000 "2024-01-02" [""] [] 0 [].
End Sample.

(* ===================================================================== *)
(** * Part X.  Properties *)
(* ===================================================================== *)

#[local] Arguments String.append !s1 s2 : simpl nomatch.

(** ** Strings *)

Lemma sapp_nil_r (s : string) : s +:+ "" = s.
Proof. induction s as [|c s IH]; simpl; [done | by rewrite IH]. Qed.

Lemma sapp_assoc (a b c : string) : (a +:+ b) +:+ c = a +:+ (b +:+ c).
Proof. induction a as [|x a IH]; simpl; [done | by rewrite IH]. Qed.

Lemma sapp_nl_cancel (a b : string) : a +:+ NL = b +:+ NL -> a = b.
Proof.
  revert b; induction a as [|x a IH]; intros [|y b] H; simpl in *.
  - done.
  - injection H as _ H. destruct b; discriminate.
  - injection H as _ H. destruct a; discriminate.
  - injection H as -> H. f_equal. by apply IH.
Qed.

Lemma eqb_nl_cancel (a b : string) :
  (a +:+ NL =? b +:+ NL)%string = (a =? b)%string.
Proof.
  destruct (String.eqb_spec a b) as [->|Hne].
  - apply String.eqb_refl.
  - apply String.eqb_neq. intros H. by apply Hne, sapp_nl_cancel.
Qed.

Lemma str_has_app c a b : str_has c (a +:+ b) = str_has c a || str_has c b.
Proof. induction a as [|x a IH]; simpl; [done|]. rewrite IH. by rewrite orb_assoc. Qed.

Lemma eqb_lf_free_nl (t line : string) :
  str_has LF t = false -> (t =? line +:+ NL)%string = false.
Proof.
  intros Ht. apply String.eqb_neq. intros ->.
  rewrite str_has_app in Ht. simpl in Ht. by rewrite orb_true_r in Ht.
Qed.

Lemma write_text_id (s : string) : write_text s = s.
Proof.
  induction s as [|c s IH]; simpl; [done|].
  destruct (Ascii.eqb_spec c LF) as [->|]; by rewrite IH.
Qed.

Lemma read_text_no_cr (s : string) : str_has CR s = false -> read_text s = s.
Proof.
  induction s as [|c s IH]; simpl; [done|].
  intros H. apply orb_false_iff in H as [Hc Hs]. rewrite Hc. by rewrite IH.
Qed.

Lemma concat_str_app (l1 l2 : list string) :
  concat_str (l1 ++ l2) = concat_str l1 +:+ concat_str l2.
Proof. induction l1 as [|x l1 IH]; simpl; [done|]. by rewrite IH, sapp_assoc. Qed.

Lemma unlines_app (l1 l2 : list string) : unlines (l1 ++ l2) = unlines l1 +:+ unlines l2.
Proof. unfold unlines. by rewrite map_app, concat_str_app. Qed.

Lemma unlines_cons l ls : unlines (l :: ls) = l +:+ NL +:+ unlines ls.
Proof. unfold unlines; simpl. by rewrite sapp_assoc. Qed.

Lemma readlines_lf_free (t : string) :
  str_has LF t = false -> readlines t = last_piece t.
Proof.
  induction t as [|c t IH]; simpl; [done|].
  intros H. apply orb_false_iff in H as [Hc Ht]. rewrite Hc, (IH Ht).
  unfold last_piece. by destruct t.
Qed.

Lemma readlines_line (l rest : string) :
  str_has LF l = false ->
  readlines (l +:+ NL +:+ rest) = (l +:+ NL) :: readlines rest.
Proof.
  change (NL +:+ rest) with (String LF rest).
  induction l as [|c l IH]; simpl; [done|].
  intros H. apply orb_false_iff in H as [Hc Hl]. by rewrite Hc, (IH Hl).
Qed.

Lemma readlines_unlines (ls : list string) (tail : string) :
  Forall (fun l => str_has LF l = false) ls -> str_has LF tail = false ->
  readlines (unlines ls +:+ tail) = map (fun l => l +:+ NL) ls ++ last_piece tail.
Proof.
  intros Hls Ht. induction Hls as [|l ls Hl _ IH].
  - by apply readlines_lf_free.
  - rewrite unlines_cons, !sapp_assoc, readlines_line by done.
    rewrite IH. done.
Qed.

Lemma lines_of_lf_free (t : string) :
  str_has LF t = false -> lines_of t = last_piece t.
Proof.
  induction t as [|c t IH]; simpl; [done|].
  intros H. apply orb_false_iff in H as [Hc Ht]. rewrite Hc, (IH Ht).
  unfold last_piece. by destruct t.
Qed.

Lemma lines_of_line (l rest : string) :
  str_has LF l = false -> lines_of (l +:+ NL +:+ rest) = l :: lines_of rest.
Proof.
  change (NL +:+ rest) with (String LF rest).
  induction l as [|c l IH]; simpl; [done|].
  intros H. apply orb_false_iff in H as [Hc Hl]. by rewrite Hc, (IH Hl).
Qed.

Lemma lines_of_unlines (ls : list string) (tail : string) :
  Forall (fun l => str_has LF l = false) ls -> str_has LF tail = false ->
  lines_of (unlines ls +:+ tail) = ls ++ last_piece tail.
Proof.
  intros Hls Ht. induction Hls as [|l ls Hl _ IH].
  - by apply lines_of_lf_free.
  - rewrite unlines_cons, !sapp_assoc, lines_of_line by done. by rewrite IH.
Qed.

Lemma lines_of_are_lf_free (s : string) :
  Forall (fun l => str_has LF l = false) (lines_of s).
Proof.
  induction s as [|c s IH]; simpl; [constructor|].
  destruct (Ascii.eqb_spec c LF) as [->|Hc].
  - by constructor.
  - destruct (lines_of s) as [|l ls]; constructor; simpl.
    + apply Ascii.eqb_neq in Hc. by rewrite Hc.
    + constructor.
    + apply Ascii.eqb_neq in Hc. rewrite Hc. by inversion IH.
    + by inversion IH.
Qed.

(** ** The loop of [change_line] *)

Lemma line_writes_line (line l : string) (to : list string) :
  concat_str (line_writes line to (l +:+ NL))
  = unlines (if (l =? line)%string then to else [l]).
Proof.
  unfold line_writes. rewrite eqb_nl_cancel.
  destruct (l =? line)%string; simpl; [done|].
  unfold unlines; simpl. done.
Qed.

Lemma tmp_writes_unlines (line : string) (to ls : list string) (tail : string) :
  Forall (fun l => str_has LF l = false) ls -> str_has LF tail = false ->
  concat_str (tmp_writes line to (unlines ls +:+ tail))
  = unlines (replace_lines line to ls) +:+ tail.
Proof.
  intros Hls Ht. unfold tmp_writes. rewrite readlines_unlines by done.
  clear Hls. induction ls as [|l ls IH]; simpl.
  - unfold last_piece. destruct (String.eqb_spec tail "") as [->|Hne]; [done|].
    simpl. unfold line_writes. rewrite eqb_lf_free_nl by done. simpl.
    by rewrite sapp_nil_r.
  - rewrite concat_str_app, line_writes_line, IH.
    unfold replace_lines; simpl. fold (replace_lines line to ls).
    by rewrite unlines_app, sapp_assoc.
Qed.

(** ** [change_line] on the file system *)

Lemma run_ops_app (ops1 ops2 : list fs_op) (fs : FileSystem) :
  run_ops (ops1 ++ ops2) fs
  = if (run_ops ops1 fs).2 then run_ops ops2 (run_ops ops1 fs).1
    else run_ops ops1 fs.
Proof.
  revert fs; induction ops1 as [|op ops1 IH]; intros fs; simpl; [done|].
  destruct (exec_op op fs); [apply IH | done].
Qed.

Lemma run_appends (tmp : string) (chunks : list string) (fs : FileSystem)
    (acc : string) (m : N) :
  fs !! tmp = Some (mkFile acc m) ->
  run_ops (map (OpAppend tmp) chunks) fs
  = (<[tmp := mkFile (acc +:+ concat_str chunks) m]> fs, true).
Proof.
  revert fs acc; induction chunks as [|c chunks IH]; intros fs acc Hfs; simpl.
  - rewrite sapp_nil_r. by rewrite insert_id.
  - rewrite Hfs; simpl. rewrite write_text_id.
    rewrite (IH _ (acc +:+ c)) by apply lookup_insert_eq.
    by rewrite insert_insert_eq, sapp_assoc.
Qed.

Lemma mkstemp_fresh (fs : FileSystem) (path : string) :
  fs !! mkstemp_name fs path = None.
Proof.
  apply not_elem_of_dom. intros H.
  apply (is_fresh ({[path]} ∪ dom fs)). apply elem_of_union. by right.
Qed.

Lemma mkstemp_ne (fs : FileSystem) (path : string) : mkstemp_name fs path <> path.
Proof.
  intros E. apply (is_fresh ({[path]} ∪ dom fs)). apply elem_of_union. left.
  apply elem_of_singleton. exact E.
Qed.

(** What the file system looks like once the rewriting pass is over and
    before the original is touched. *)
Lemma rewriting_pass (fs : FileSystem) (path line : string) (to : list string)
    (given : File) :
  fs !! path = Some given ->
  run_ops ([OpCreate (mkstemp_name fs path); OpOpenRead path]
           ++ map (OpAppend (mkstemp_name fs path))
                (tmp_writes line to (read_text (f_data given)))) fs
  = (<[mkstemp_name fs path := mkFile (rewritten line to (f_data given)) 384]> fs,
     true).
Proof.
  intros Hp. set (tmp := mkstemp_name fs path).
  assert (Htmp : fs !! tmp = None) by apply mkstemp_fresh.
  assert (Hne : tmp <> path) by apply mkstemp_ne.
  rewrite run_ops_app. simpl. rewrite Htmp. simpl.
  rewrite lookup_insert_ne, Hp by done. simpl.
  rewrite (run_appends tmp _ _ "" 384) by apply lookup_insert_eq.
  rewrite insert_insert_eq. unfold rewritten. by rewrite write_text_id.
Qed.

(** The operations of an edit, run to their end. *)
Lemma change_line_ops_run (fs : FileSystem) (path line : string) (to : list string)
    (given : File) :
  fs !! path = Some given ->
  run_ops (change_line_ops (mkstemp_name fs path) path line to given) fs
  = (<[path := mkFile (rewritten line to (f_data given)) (f_mode given)]> fs, true).
Proof.
  intros Hp. unfold change_line_ops.
  rewrite (app_assoc [_; _]), run_ops_app.
  rewrite (rewriting_pass fs path line to given Hp). cbn [fst snd].
  pose proof (mkstemp_fresh fs path) as Htmp.
  pose proof (mkstemp_ne fs path) as Hne.
  set (tmp := mkstemp_name fs path) in *.
  simpl.
  rewrite lookup_insert_ne, Hp, lookup_insert_eq by done. simpl.
  rewrite insert_insert_eq, lookup_insert_ne, Hp by done. simpl.
  rewrite lookup_delete_ne, lookup_insert_eq by done.
  f_equal.
  rewrite delete_delete, delete_insert_id by done.
  by rewrite insert_delete_eq.
Qed.

Lemma change_line_ok (fs : FileSystem) (path line : string) (to : list string)
    (given : File) :
  fs !! path = Some given -> decodes (f_data given) = true ->
  change_line path line to fs
  = (<[path := mkFile (rewritten line to (f_data given)) (f_mode given)]> fs, true).
Proof.
  intros Hp Hd. unfold change_line. rewrite Hp, Hd. by apply change_line_ops_run.
Qed.

Lemma change_line_missing (fs : FileSystem) (path line : string) (to : list string) :
  fs !! path = None ->
  change_line path line to fs
  = (<[mkstemp_name fs path := mkFile "" 384]> fs, false).
Proof.
  intros Hp. unfold change_line. rewrite Hp. simpl.
  rewrite mkstemp_fresh. simpl.
  rewrite lookup_insert_ne, Hp by apply mkstemp_ne. done.
Qed.

Lemma change_line_undecodable (fs : FileSystem) (path line : string)
    (to : list string) (given : File) :
  fs !! path = Some given -> decodes (f_data given) = false ->
  change_line path line to fs
  = (<[mkstemp_name fs path := mkFile "" 384]> fs, false).
Proof.
  intros Hp Hd. unfold change_line. rewrite Hp, Hd. simpl.
  rewrite mkstemp_fresh. simpl.
  rewrite lookup_insert_ne, Hp by apply mkstemp_ne. done.
Qed.

Lemma exec_op_frame (path : string) (op : fs_op) (fs fs' : FileSystem) :
  touches path op = false -> exec_op op fs = Some fs' -> fs' !! path = fs !! path.
Proof.
  destruct op; cbn; intros Ht; repeat case_match; intros [= <-]; try done.
  all: try (apply orb_false_iff in Ht as [Ht1 Ht]).
  all: apply String.eqb_neq in Ht.
  all: rewrite ?lookup_insert_ne, ?lookup_delete_ne by done; try done.
  apply String.eqb_neq in Ht1. by rewrite lookup_delete_ne.
Qed.

Lemma run_ops_frame (path : string) (ops : list fs_op) (fs : FileSystem) :
  forallb (fun op => negb (touches path op)) ops = true ->
  (run_ops ops fs).1 !! path = fs !! path.
Proof.
  revert fs; induction ops as [|op ops IH]; intros fs H; [done|].
  cbn in H. apply andb_true_iff in H as [Hop Hops]. cbn.
  destruct (exec_op op fs) as [fs'|] eqn:E; [|done].
  rewrite IH by done. eapply exec_op_frame; [|done]. by destruct (touches path op).
Qed.

Lemma forallb_take {A} (p : A -> bool) (n : nat) (l : list A) :
  forallb p l = true -> forallb p (take n l) = true.
Proof.
  revert n; induction l as [|x l IH]; intros [|n] H; try done.
  cbn in *. apply andb_true_iff in H as [-> H]. by apply IH.
Qed.

Lemma take_take_le {A} (n m : nat) (l : list A) : n <= m -> take n l = take n (take m l).
Proof. intros H. rewrite take_take. f_equal. lia. Qed.

Lemma change_line_steps_rename (tmp path line : string) (to : list string)
    (given : File) :
  change_line_steps None tmp path line to given
  = change_line_ops tmp path line to given.
Proof. done. Qed.

Lemma run_writes (dst : string) (blocks : list string) (fs : FileSystem)
    (acc : string) (m : N) (j : nat) :
  fs !! dst = Some (mkFile acc m) ->
  run_ops (take j (map (OpWrite dst) blocks)) fs
  = (<[dst := mkFile (acc +:+ concat_str (take j blocks)) m]> fs, true).
Proof.
  revert fs acc j; induction blocks as [|b blocks IH]; intros fs acc j Hfs.
  - simpl. rewrite !take_nil. simpl. rewrite sapp_nil_r. by rewrite insert_id.
  - destruct j as [|j]; simpl.
    + rewrite sapp_nil_r. by rewrite insert_id.
    + rewrite Hfs; simpl.
      rewrite (IH _ (acc +:+ b)) by apply lookup_insert_eq.
      by rewrite insert_insert_eq, sapp_assoc.
Qed.

Lemma concat_str_take (blocks : list string) (j : nat) :
  exists rest, concat_str (take j blocks) +:+ rest = concat_str blocks.
Proof.
  exists (concat_str (drop j blocks)).
  by rewrite <- concat_str_app, take_drop.
Qed.

(** The file system when the original has just been removed. *)
Lemma original_removed (fs : FileSystem) (path line : string) (to : list string)
    (given : File) :
  fs !! path = Some given ->
  run_ops ([OpCreate (mkstemp_name fs path); OpOpenRead path]
           ++ map (OpAppend (mkstemp_name fs path))
                (tmp_writes line to (read_text (f_data given)))
           ++ [OpCopymode path (mkstemp_name fs path); OpUnlink path]) fs
  = (delete path (<[mkstemp_name fs path
                    := mkFile (rewritten line to (f_data given)) (f_mode given)]> fs),
     true).
Proof.
  intros Hp. rewrite app_assoc, run_ops_app.
  rewrite (rewriting_pass fs path line to given Hp). cbn [fst snd].
  pose proof (mkstemp_ne fs path) as Hne.
  set (tmp := mkstemp_name fs path) in *. simpl.
  rewrite lookup_insert_ne, Hp, lookup_insert_eq by done. simpl.
  rewrite insert_insert_eq, lookup_insert_ne, Hp by done. done.
Qed.

(** The copy of the temporary file to [path], cut short after [k] of its
    operations, the last one excluded. *)
Lemma copy_cut_short (st : FileSystem) (tmp path new : string) (m umask : N)
    (blocks : list string) (k : nat) :
  tmp <> path -> st !! tmp = Some (mkFile new m) -> st !! path = None ->
  concat_str blocks = new ->
  k < length (move_ops (Some (umask, blocks)) tmp path) ->
  let st' := (run_ops (take k (move_ops (Some (umask, blocks)) tmp path)) st).1 in
  st' !! tmp = Some (mkFile new m)
  /\ (st' !! path = None
      \/ exists g rest, st' !! path = Some g /\ f_data g +:+ rest = new).
Proof.
  intros Hne Htmp Hpath Hb Hk st'. subst st'. unfold move_ops in *.
  rewrite length_app, length_app, length_map in Hk. cbn [length] in Hk.
  destruct k as [|[|k]].
  { cbn. by eauto. }
  { cbn. rewrite Htmp. cbn. by eauto. }
  cbn [take app]. cbn [run_ops exec_op]. rewrite Htmp, Hpath.
  set (st1 := <[path := mkFile "" (created_mode umask)]> st).
  assert (H1 : st1 !! path = Some (mkFile "" (created_mode umask)))
    by apply lookup_insert_eq.
  destruct (decide (k <= length blocks)) as [Hle|Hgt].
  - rewrite take_app_le by (by rewrite length_map).
    rewrite (run_writes path blocks st1 "" _ k H1). cbn [fst].
    rewrite lookup_insert_ne, lookup_insert_eq by done.
    split; [by subst st1; rewrite lookup_insert_ne|]. right.
    destruct (concat_str_take blocks k) as [rest Hr].
    eexists _, rest. split; [done|]. cbn [f_data].
    change ("" +:+ concat_str (take k blocks)) with (concat_str (take k blocks)).
    by rewrite Hr.
  - assert (k = length blocks + 1) as -> by lia.
    rewrite take_app_ge by (rewrite length_map; lia).
    rewrite length_map. replace (length blocks + 1 - length blocks) with 1 by lia.
    cbn [take]. rewrite run_ops_app.
    rewrite <- (firstn_all (map (OpWrite path) blocks)), length_map.
    rewrite (run_writes path blocks st1 "" _ (length blocks) H1). cbn [fst snd].
    rewrite firstn_all. cbn [run_ops exec_op].
    rewrite lookup_insert_ne by done.
    assert (Ht1 : st1 !! tmp = Some (mkFile new m)).
    { by subst st1; rewrite lookup_insert_ne. }
    rewrite Ht1, lookup_insert_eq. cbn [fst].
    rewrite lookup_insert_eq, lookup_insert_ne, lookup_insert_ne, Ht1 by done.
    split; [done|]. right. eexists _, "". split; [done|]. cbn.
    by rewrite sapp_nil_r.
Qed.

Lemma copy_complete (st : FileSystem) (tmp path new : string) (m umask : N)
    (blocks : list string) :
  tmp <> path -> st !! tmp = Some (mkFile new m) -> st !! path = None ->
  concat_str blocks = new ->
  run_ops (move_ops (Some (umask, blocks)) tmp path) st
  = (<[path := mkFile new m]> (delete tmp st), true).
Proof.
  intros Hne Htmp Hpath Hb. unfold move_ops.
  cbn [app run_ops exec_op]. rewrite Htmp, Hpath.
  set (st1 := <[path := mkFile "" (created_mode umask)]> st).
  assert (H1 : st1 !! path = Some (mkFile "" (created_mode umask)))
    by apply lookup_insert_eq.
  assert (Ht1 : st1 !! tmp = Some (mkFile new m)).
  { by subst st1; rewrite lookup_insert_ne. }
  rewrite run_ops_app.
  rewrite <- (firstn_all (map (OpWrite path) blocks)), length_map.
  rewrite (run_writes path blocks st1 "" _ (length blocks) H1). cbn [fst snd].
  rewrite firstn_all. cbn [run_ops exec_op].
  rewrite lookup_insert_ne by done. rewrite Ht1, lookup_insert_eq. cbn [f_data f_mode].
  rewrite lookup_insert_ne, lookup_insert_ne, Ht1 by done.
  f_equal. subst st1. rewrite !insert_insert_eq. cbn. rewrite Hb.
  by rewrite delete_insert_ne.
Qed.

(** C4, as amended.  The edit is not atomic, but the original is safe
    while the new text is written.  The new text is built in a temporary
    file, which is not [path].  A file that does not decode makes the
    edit fail with the original as it was.  For one that decodes, a run
    cut short after any [n] operations up to the end of the rewriting
    pass (the copy of the mode bits included) leaves at [path] the file
    that was there, content and mode, and the complete run leaves the
    new text there under the old mode, however the file is moved.  After
    the pass the original is removed before the temporary file takes its
    place: a run cut short from there on finds no file at [path], or,
    where the move is a copy in blocks, a file with an initial part of
    the new text; the temporary file then has the whole of it, under the
    old mode. *)
Theorem change_line_crash (fs : FileSystem) (path line : string)
    (to : list string) (given : File) (copy : option (N * list string)) (n : nat) :
  fs !! path = Some given ->
  (forall umask blocks, copy = Some (umask, blocks) ->
     concat_str blocks = rewritten line to (f_data given)) ->
  let tmp := mkstemp_name fs path in
  let writes := tmp_writes line to (read_text (f_data given)) in
  let new := rewritten line to (f_data given) in
  let steps := change_line_steps copy tmp path line to given in
  let crashed := (run_ops (take n steps) fs).1 in
  tmp <> path
  /\ (decodes (f_data given) = false ->
      (change_line path line to fs).2 = false
      /\ (change_line path line to fs).1 !! path = Some given)
  /\ (decodes (f_data given) = true ->
      change_line path line to fs = run_ops steps fs
      /\ run_ops steps fs = (<[path := mkFile new (f_mode given)]> fs, true)
      /\ run_ops (take (2 + length writes) steps) fs
         = (<[tmp := mkFile new 384]> fs, true)
      /\ (n <= 3 + length writes -> crashed !! path = Some given)
      /\ (3 + length writes < n < length steps ->
          crashed !! tmp = Some (mkFile new (f_mode given))
          /\ (crashed !! path = None
              \/ exists g rest, copy <> None /\ crashed !! path = Some g
                                /\ f_data g +:+ rest = new))).
Proof.
  intros Hgiven Hblocks tmp writes new steps crashed.
  pose proof (mkstemp_ne fs path) as Hne. fold tmp in Hne.
  split; [exact Hne|]. split.
  { intros Hd. rewrite (change_line_undecodable _ _ _ _ given Hgiven Hd). cbn.
    split; [done|]. by rewrite lookup_insert_ne. }
  intros Hd.
  set (st := delete path (<[tmp := mkFile new (f_mode given)]> fs)).
  assert (Hst : run_ops ([OpCreate tmp; OpOpenRead path] ++ map (OpAppend tmp) writes
                         ++ [OpCopymode path tmp; OpUnlink path]) fs = (st, true)).
  { by apply original_removed. }
  assert (Hsteps : steps = ([OpCreate tmp; OpOpenRead path] ++ map (OpAppend tmp) writes
                            ++ [OpCopymode path tmp; OpUnlink path])
                           ++ move_ops copy tmp path).
  { subst steps. unfold change_line_steps. by rewrite <- !app_assoc. }
  assert (Hlen : length ([OpCreate tmp; OpOpenRead path] ++ map (OpAppend tmp) writes
                         ++ [OpCopymode path tmp; OpUnlink path])
                 = 4 + length writes).
  { rewrite !length_app, length_map. cbn. lia. }
  assert (Htmp : st !! tmp = Some (mkFile new (f_mode given))).
  { subst st. by rewrite lookup_delete_ne, lookup_insert_eq. }
  assert (Hpath : st !! path = None) by apply lookup_delete_eq.
  assert (Hfinal : <[path := mkFile new (f_mode given)]> (delete tmp st)
                   = <[path := mkFile new (f_mode given)]> fs).
  { subst st. rewrite delete_delete, delete_insert_id by apply mkstemp_fresh.
    by rewrite insert_delete_eq. }
  assert (Hrun : run_ops steps fs = (<[path := mkFile new (f_mode given)]> fs, true)).
  { rewrite Hsteps, run_ops_app, Hst. cbn [fst snd].
    destruct copy as [[umask blocks]|].
    - rewrite (copy_complete st tmp path new (f_mode given) umask blocks);
        [by rewrite Hfinal | done | done | done | by apply (Hblocks umask)].
    - cbn. rewrite Htmp. by rewrite Hfinal. }
  split; [by rewrite (change_line_ok _ _ _ _ given Hgiven Hd)|].
  split; [exact Hrun|]. split; [|split].
  - rewrite Hsteps, <- !app_assoc.
    replace (2 + length writes) with (2 + (length (map (OpAppend tmp) writes) + 0))
      by (rewrite length_map; lia).
    rewrite (take_app_add' [_; _]) by done.
    rewrite take_app_add, take_0, app_nil_r.
    by apply rewriting_pass.
  - intros Hn. subst crashed. rewrite <- Hgiven. apply run_ops_frame.
    rewrite Hsteps, <- !app_assoc.
    rewrite (take_take_le n (3 + length writes)) by done.
    apply forallb_take.
    replace (3 + length writes) with (2 + (length (map (OpAppend tmp) writes) + 1))
      by (rewrite length_map; lia).
    rewrite (take_app_add' [_; _]) by done. rewrite take_app_add. cbn [take].
    assert (Hq : (tmp =? path)%string = false) by (by apply String.eqb_neq).
    rewrite !forallb_app. cbn. rewrite Hq. cbn. rewrite andb_true_r.
    clear -Hq. induction writes as [|c l IH]; [done|]. cbn. by rewrite Hq.
  - intros [Hlo Hhi]. subst crashed. rewrite Hsteps in Hhi |- *.
    rewrite length_app, Hlen in Hhi.
    rewrite take_app_ge by lia. rewrite Hlen, run_ops_app, Hst. cbn [fst snd].
    destruct copy as [[umask blocks]|].
    + destruct (copy_cut_short st tmp path new (f_mode given) umask blocks
                  (n - (4 + length writes))) as [H1 H2];
        [done | done | done | by apply (Hblocks umask) | lia |].
      split; [exact H1|]. destruct H2 as [H2|(g & rest & H2 & H3)]; [by left|].
      right. by exists g, rest.
    + cbn [move_ops length] in Hhi.
      replace (n - (4 + length writes)) with 0 by lia. cbn. by eauto.
Qed.

(** X7.  A crash between the removal of the original and the move of
    the new file finds no file at [path]. *)
Lemma change_line_window (fs : FileSystem) (path line : string)
    (to : list string) (given : File) :
  fs !! path = Some given ->
  (run_ops (take (4 + length (tmp_writes line to (read_text (f_data given))))
              (change_line_ops (mkstemp_name fs path) path line to given)) fs).1
    !! path = None.
Proof.
  intros Hgiven. pose proof (mkstemp_ne fs path) as Hne.
  unfold change_line_ops.
  replace (4 + length (tmp_writes line to (read_text (f_data given))))
    with (2 + (length (map (OpAppend (mkstemp_name fs path))
                         (tmp_writes line to (read_text (f_data given)))) + 2))
    by (rewrite length_map; lia).
  rewrite (take_app_add' [_; _]) by done. rewrite take_app_add.
  rewrite app_assoc, run_ops_app.
  rewrite (rewriting_pass fs path line to given Hgiven). cbn [fst snd take].
  cbn.
  rewrite lookup_insert_ne, Hgiven, lookup_insert_eq by done. cbn.
  rewrite !lookup_insert_ne, Hgiven by done. cbn.
  apply lookup_delete_eq.
Qed.

(** ** What the edit does to the lines *)

Lemma lines_decompose (s : string) :
  exists ls tail, s = unlines ls +:+ tail
    /\ Forall (fun l => str_has LF l = false) ls /\ str_has LF tail = false.
Proof.
  induction s as [|c s (ls & tail & -> & Hls & Ht)].
  - by exists [], "".
  - destruct (Ascii.eqb_spec c LF) as [->|Hc].
    + exists ("" :: ls), tail. split; [done|]. split; [by constructor | done].
    + apply Ascii.eqb_neq in Hc. destruct ls as [|l ls].
      * exists [], (String c tail). cbn. by rewrite Hc.
      * exists (String c l :: ls), tail. split; [by rewrite !unlines_cons|].
        inversion Hls; subst. split; [|done]. constructor; [|done].
        cbn. by rewrite Hc.
Qed.

(** Text read from a file has no carriage return left. *)
Lemma read_text_lacks_cr (s : string) : str_has CR (read_text s) = false.
Proof.
  assert (H : forall n s, String.length s <= n -> str_has CR (read_text s) = false).
  { intros n. induction n as [|n IH]; intros [|c t] Hn; try done; [cbn in Hn; lia|].
    cbn in Hn. cbn [read_text].
    destruct (Ascii.eqb_spec c CR) as [->|Hc].
    - destruct t as [|c' t']; [done|]. cbn in Hn.
      destruct (Ascii.eqb c' LF); cbn [str_has]; rewrite IH; try done; cbn; lia.
    - cbn [str_has]. apply Ascii.eqb_neq in Hc. rewrite Hc.
      rewrite IH; [done | lia]. }
  by apply (H (String.length s)).
Qed.

Lemma rewritten_text (line : string) (to ls : list string) (data tail : string) :
  read_text data = unlines ls +:+ tail ->
  Forall (fun l => str_has LF l = false) ls -> str_has LF tail = false ->
  rewritten line to data = unlines (replace_lines line to ls) +:+ tail.
Proof.
  intros E Hls Ht. unfold rewritten. by rewrite write_text_id, E, tmp_writes_unlines.
Qed.

Lemma rewritten_lines (line : string) (to ls : list string) (tail : string) :
  Forall (fun l => str_has LF l = false) ls -> str_has LF tail = false ->
  str_has CR (unlines ls +:+ tail) = false ->
  rewritten line to (unlines ls +:+ tail)
  = unlines (replace_lines line to ls) +:+ tail.
Proof.
  intros Hls Ht Hcr. apply rewritten_text; [by apply read_text_no_cr | done | done].
Qed.

Lemma replace_lines_absent (line : string) (to ls : list string) :
  line ∉ ls -> replace_lines line to ls = ls.
Proof.
  induction ls as [|l ls IH]; [done|]. intros H.
  apply not_elem_of_cons in H as [Hne H]. unfold replace_lines in *. cbn.
  rewrite IH by done. apply not_eq_sym, String.eqb_neq in Hne. by rewrite Hne.
Qed.

(** ** Texts and their encoding *)

Lemma utf8_run_app (st : utf8_state) (a b : string) :
  utf8_run st (a +:+ b) = utf8_run st a ≫= fun st' => utf8_run st' b.
Proof.
  revert st; induction a as [|c a IH]; intros st; simpl; [done|].
  destruct (utf8_step st c); [apply IH | done].
Qed.

(** A line terminator is a character of its own. *)
Lemma utf8_step_terminator (st : utf8_state) (c : ascii) :
  c = LF \/ c = CR ->
  utf8_step st c = match st with AtStart => Some AtStart | _ => None end.
Proof. intros [-> | ->]; by destruct st. Qed.

Lemma decodes_run (s : string) : decodes s = true <-> utf8_run AtStart s = Some AtStart.
Proof.
  unfold decodes. destruct (utf8_run AtStart s) as [[]|]; split; try done.
Qed.

Lemma decodes_app (a b : string) :
  decodes a = true -> decodes b = true -> decodes (a +:+ b) = true.
Proof.
  rewrite !decodes_run, utf8_run_app. intros -> Hb. exact Hb.
Qed.

Lemma decodes_nl (a b : string) :
  decodes (a +:+ NL +:+ b) = true <-> decodes a = true /\ decodes b = true.
Proof.
  rewrite !decodes_run, utf8_run_app.
  change (NL +:+ b) with (String LF b). cbn [utf8_run].
  destruct (utf8_run AtStart a) as [st|]; cbn; [|by split; [|intros []]].
  rewrite (utf8_step_terminator st LF) by (by left).
  destruct st; split; try done; by intros [].
Qed.

Lemma decodes_unlines (ls : list string) (tail : string) :
  decodes (unlines ls +:+ tail) = true
  <-> Forall (fun l => decodes l = true) ls /\ decodes tail = true.
Proof.
  induction ls as [|l ls IH].
  - split; [by split | by intros []].
  - rewrite unlines_cons, !sapp_assoc, decodes_nl, IH, Forall_cons. tauto.
Qed.

(** Universal newlines keep a text a text, and make one of nothing
    else. *)
Lemma utf8_run_read_text (st : utf8_state) (s : string) :
  utf8_run st (read_text s) = utf8_run st s.
Proof.
  assert (H : forall n s st, String.length s <= n ->
                utf8_run st (read_text s) = utf8_run st s).
  { clear. intros n. induction n as [|n IH]; intros [|c t] st Hn; try done;
      [cbn in Hn; lia|].
    cbn in Hn. cbn [read_text].
    destruct (Ascii.eqb_spec c CR) as [->|Hc].
    - destruct t as [|c' t'].
      + cbn. by destruct st.
      + cbn in Hn. destruct (Ascii.eqb_spec c' LF) as [->|Hc'].
        * cbn [utf8_run]. rewrite !(utf8_step_terminator st) by eauto.
          destruct st; try done. cbn. apply IH. lia.
        * cbn [utf8_run]. rewrite !(utf8_step_terminator st) by eauto.
          destruct st; try done.
          change (utf8_run AtStart (read_text (String c' t'))
                  = utf8_run AtStart (String c' t')).
          apply IH. cbn. lia.
    - cbn [utf8_run]. destruct (utf8_step st c); [|done]. apply IH. lia. }
  by apply (H (String.length s)).
Qed.

Lemma decodes_read_text (s : string) : decodes (read_text s) = decodes s.
Proof. unfold decodes. by rewrite utf8_run_read_text. Qed.

Lemma replace_lines_all (P : string -> Prop) (line : string) (to ls : list string) :
  Forall P to -> Forall P ls -> Forall P (replace_lines line to ls).
Proof.
  intros Hto Hls. unfold replace_lines. induction Hls as [|l ls Hl _ IH]; [done|].
  cbn. apply Forall_app. split; [|done]. destruct (l =? line)%string; [done|].
  by constructor.
Qed.

(** The edit of a text by lines that are texts gives a text. *)
Lemma rewritten_decodes (line : string) (to : list string) (data : string) :
  decodes data = true -> Forall (fun l => decodes l = true) to ->
  decodes (rewritten line to data) = true.
Proof.
  intros Hd Hto. rewrite <- decodes_read_text in Hd.
  destruct (lines_decompose (read_text data)) as (ls & tail & E & Hls & Ht).
  rewrite (rewritten_text line to ls data tail E Hls Ht).
  rewrite E in Hd. apply decodes_unlines in Hd as [Hl Htail].
  apply decodes_unlines. split; [|done]. by apply replace_lines_all.
Qed.

(** C9, as amended.  When the file decodes, has no carriage return and
    [line] is the content of none of its lines, [change_line] succeeds
    and leaves the file system as it found it, whatever the replacement:
    the file has the same bytes and the same mode, and no temporary file
    stays. *)
Theorem change_line_zero_match (fs : FileSystem) (path line : string)
    (to : list string) (f : File) :
  fs !! path = Some f ->
  decodes (f_data f) = true ->
  str_has CR (f_data f) = false ->
  line ∉ lines_of (f_data f) ->
  change_line path line to fs = (fs, true).
Proof.
  intros Hf Hd Hcr Hline. rewrite (change_line_ok _ _ _ _ f Hf Hd).
  destruct (lines_decompose (f_data f)) as (ls & tail & E & Hls & Ht).
  rewrite E in Hcr, Hline. rewrite lines_of_unlines in Hline by done.
  apply not_elem_of_app in Hline as [Hline _].
  rewrite E at 1. rewrite rewritten_lines, replace_lines_absent, <- E by done.
  f_equal. apply insert_id. by destruct f.
Qed.

(** X6.  The contract of the Text Editor, for every file that decodes.
    Read as text, a file is a list of complete lines followed by what
    comes after the last line terminator.  [change_line] replaces each
    complete line equal to [line] by the lines of [to], in order (none,
    when [to] is empty), leaves every other line where it was, ends
    every complete line in a line feed, copies the unterminated rest as
    it is, and keeps the mode. *)
Theorem change_line_replaces_lines (fs : FileSystem) (path line : string)
    (to ls : list string) (tail : string) (f : File) :
  fs !! path = Some f ->
  decodes (f_data f) = true ->
  read_text (f_data f) = unlines ls +:+ tail ->
  Forall (fun l => str_has LF l = false) ls -> str_has LF tail = false ->
  change_line path line to fs
  = (<[path := mkFile (unlines (replace_lines line to ls) +:+ tail) (f_mode f)]> fs,
     true).
Proof.
  intros Hf Hd E Hls Ht. rewrite (change_line_ok _ _ _ _ f Hf Hd).
  by rewrite (rewritten_text line to ls (f_data f) tail).
Qed.

(** ** The two edits of the changelog *)

Lemma replace_twice (marker heading : string) (block ls : list string) :
  heading ∉ ls ->
  replace_lines heading block (replace_lines marker [heading] ls)
  = replace_lines marker block ls.
Proof.
  intros H. induction ls as [|l ls IH]; [done|].
  apply not_elem_of_cons in H as [Hne H]. unfold replace_lines in *.
  cbn [flat_map]. rewrite flat_map_app, IH by done. f_equal.
  destruct (String.eqb_spec l marker) as [->|Hm]; cbn.
  - by rewrite String.eqb_refl, app_nil_r.
  - apply not_eq_sym, String.eqb_neq in Hne. by rewrite Hne.
Qed.

Lemma replace_lines_lack (c : ascii) (line : string) (to ls : list string) :
  Forall (fun l => str_has c l = false) to ->
  Forall (fun l => str_has c l = false) ls ->
  Forall (fun l => str_has c l = false) (replace_lines line to ls).
Proof.
  intros Hto Hls. unfold replace_lines. induction Hls as [|l ls Hl _ IH]; [done|].
  cbn. apply Forall_app. split; [|done]. destruct (l =? line)%string; [done|].
  by constructor.
Qed.

Lemma unlines_lacks (c : ascii) (ls : list string) :
  str_has c (unlines ls) = false -> Forall (fun l => str_has c l = false) ls.
Proof.
  induction ls as [|l ls IH]; [done|]. rewrite unlines_cons, !str_has_app.
  intros H. apply orb_false_iff in H as [Hl H]. apply orb_false_iff in H as [Hc H].
  constructor; [done | by apply IH].
Qed.

Lemma unlines_has (c : ascii) (ls : list string) :
  Ascii.eqb LF c = false -> Forall (fun l => str_has c l = false) ls ->
  str_has c (unlines ls) = false.
Proof.
  intros Hc H. induction H as [|l ls Hl _ IH]; [done|].
  rewrite unlines_cons, !str_has_app, Hl, IH.
  change (str_has c NL) with (Ascii.eqb LF c || false). by rewrite Hc.
Qed.

(** The lines of a text whose complete lines are [ls] and whose
    unterminated rest is [tail]. *)
Lemma text_lines_rewritten (ls : list string) (tail : string) :
  Forall (fun l => str_has LF l = false) ls -> str_has LF tail = false ->
  str_has CR (unlines ls +:+ tail) = false ->
  text_lines (unlines ls +:+ tail) = ls ++ last_piece tail.
Proof.
  intros Hls Ht Hcr. unfold text_lines.
  by rewrite read_text_no_cr, lines_of_unlines.
Qed.

Lemma str_has_unlines_tail (c : ascii) (ls : list string) (tail : string) :
  Ascii.eqb LF c = false ->
  Forall (fun l => str_has c l = false) ls -> str_has c tail = false ->
  str_has c (unlines ls +:+ tail) = false.
Proof. intros Hc Hls Ht. by rewrite str_has_app, unlines_has, Ht. Qed.

(** C5, as amended.  Take a changelog that decodes, that does not yet
    have the release heading as a line, and whose last line, if it lacks
    its terminator, is not the marker [## unreleased]; the heading is a
    text free of line breaks.  After the release edit and the
    development edit the file has the same mode and its lines are those
    of the original with every [## unreleased] line replaced by that
    line, a blank line, [Nothing.], a blank line and the release
    heading, in this order; all other lines are as they were, and
    nothing else in the file system has changed.  (A line read from the
    file keeps its line feed: one that is the bare marker is a last line
    without terminator.) *)
Theorem changelog_round_trip (fs : FileSystem) (changelog version date : string)
    (f : File) :
  let heading := release_heading version date in
  let fs1 := (change_line changelog "## unreleased" [heading] fs).1 in
  let fs2 := (change_line changelog heading (development_section heading) fs1).1 in
  let lines := replace_lines "## unreleased" (development_section heading)
                 (text_lines (f_data f)) in
  fs !! changelog = Some f ->
  decodes (f_data f) = true ->
  "## unreleased" ∉ readlines (read_text (f_data f)) ->
  heading ∉ text_lines (f_data f) ->
  decodes heading = true ->
  str_has LF heading = false -> str_has CR heading = false ->
  exists g, fs2 = <[changelog := g]> fs /\ f_mode g = f_mode f
    /\ text_lines (f_data g) = lines.
Proof.
  intros heading fs1 fs2 lines Hf Hd Hlast Hnew Hhd Hlf Hhcr.
  destruct (lines_decompose (read_text (f_data f))) as (ls & tail & E & Hls & Ht).
  pose proof (read_text_lacks_cr (f_data f)) as Hcr. rewrite E in Hcr.
  rewrite str_has_app in Hcr. apply orb_false_iff in Hcr as [Hcrl Hcrt].
  apply unlines_lacks in Hcrl.
  subst lines. unfold text_lines in *. rewrite E in *.
  rewrite readlines_unlines in Hlast by done.
  rewrite lines_of_unlines in * by done.
  apply not_elem_of_app in Hlast as [_ Hlast].
  apply not_elem_of_app in Hnew as [Hnew Hnewt].
  assert (Htail : replace_lines "## unreleased" (development_section heading)
                    (last_piece tail) = last_piece tail).
  { by apply replace_lines_absent. }
  assert (Hsec : forall c, str_has c heading = false ->
                 str_has c "## unreleased" = false -> str_has c "" = false ->
                 str_has c "Nothing." = false ->
                 Forall (fun l => str_has c l = false) (development_section heading)).
  { intros c ? ? ? ?. by repeat constructor. }
  assert (E1 : rewritten "## unreleased" [heading] (f_data f)
               = unlines (replace_lines "## unreleased" [heading] ls) +:+ tail).
  { by apply rewritten_text. }
  assert (E2 : rewritten heading (development_section heading)
                 (rewritten "## unreleased" [heading] (f_data f))
               = unlines (replace_lines "## unreleased"
                            (development_section heading) ls) +:+ tail).
  { rewrite E1, rewritten_lines; [by rewrite replace_twice | | done |].
    - apply replace_lines_lack; [by constructor | done].
    - apply str_has_unlines_tail; [done | | done].
      apply replace_lines_lack; [by constructor | done]. }
  subst fs1 fs2. rewrite (change_line_ok _ _ _ _ f Hf Hd). cbn [fst].
  rewrite (change_line_ok _ _ _ _ _ (lookup_insert_eq _ _ _)); cbn [fst f_data f_mode].
  2:{ apply rewritten_decodes; [done | by constructor]. }
  eexists. split; [apply insert_insert_eq|]. cbn [f_data f_mode]. split; [done|].
  rewrite E2. etrans; [apply text_lines_rewritten|].
  4:{ unfold replace_lines at 2. rewrite flat_map_app.
    fold (replace_lines "## unreleased" (development_section heading) ls).
    fold (replace_lines "## unreleased" (development_section heading)
            (last_piece tail)).
    by rewrite Htail. }
  - apply replace_lines_lack; [by apply Hsec | done].
  - done.
  - apply str_has_unlines_tail; [done | | done].
    apply replace_lines_lack; [by apply Hsec | done].
Qed.

(** ** The matcher and the matches *)

Lemma slength_app (a b : string) :
  String.length (a +:+ b) = String.length a + String.length b.
Proof. induction a as [|x a IH]; simpl; [done | by rewrite IH]. Qed.

(** What a match consumes is a prefix of what was left. *)
Lemma matches_rest r st st' :
  matches r st st' ->
  exists w, rest st = w +:+ rest st' /\ pos st' = pos st + String.length w.
Proof.
  induction 1 as [st|p st c rest' Hr Hp|r1 r2 st st1 st2 _ IH1 _ IH2
                 |r1 r2 st st' _ IH|r1 r2 st st' _ IH|r st
                 |r st st1 st2 _ IH1 Hlt _ IH2|n r st st1 _ IH|st H|st H].
  - exists ""; simpl; split; [done | lia].
  - exists (String c ""); simpl. rewrite Hr. split; [done | lia].
  - destruct IH1 as (w1 & E1 & P1), IH2 as (w2 & E2 & P2).
    exists (w1 +:+ w2). rewrite sapp_assoc, <- E2, <- E1, slength_app. split; [done | lia].
  - done.
  - done.
  - exists ""; simpl; split; [done | lia].
  - destruct IH1 as (w1 & E1 & P1), IH2 as (w2 & E2 & P2).
    exists (w1 +:+ w2). rewrite sapp_assoc, <- E2, <- E1, slength_app. split; [done | lia].
  - done.
  - exists ""; simpl; split; [done | lia].
  - exists ""; simpl; split; [done | lia].
Qed.

Lemma matches_length r st st' :
  matches r st st' ->
  pos st <= pos st' /\
  String.length (rest st) = (pos st' - pos st) + String.length (rest st').
Proof.
  intros H. destruct (matches_rest _ _ _ H) as (w & E & P).
  rewrite E, slength_app. lia.
Qed.

(** The matcher finds only matches... *)
Lemma star_loop_sound (r : regex) (k : mstate -> option mstate) :
  (forall st k' m, rmatch r st k' = Some m ->
     exists st', matches r st st' /\ k' st' = Some m) ->
  forall fuel st m, star_loop (rmatch r) k fuel st = Some m ->
    exists st', matches (Star r) st st' /\ k st' = Some m.
Proof.
  intros IHr. induction fuel as [|fuel IH]; intros st m H; simpl in H.
  - exists st. split; [constructor | done].
  - destruct (rmatch r st _) as [m'|] eqn:E.
    + injection H as ->. apply IHr in E as (st1 & Hm & Hk).
      destruct (pos st <? pos st1)%nat eqn:Hlt; [|discriminate].
      apply Nat.ltb_lt in Hlt. apply IH in Hk as (st2 & Hm2 & Hk2).
      exists st2. split; [by eapply M_StarS | done].
    + exists st. split; [constructor | done].
Qed.

Lemma rmatch_sound (r : regex) :
  forall st k m, rmatch r st k = Some m ->
    exists st', matches r st st' /\ k st' = Some m.
Proof.
  induction r as [|p|r1 IH1 r2 IH2|r1 IH1 r2 IH2|r IH|n r IH| |];
    intros st k m H; simpl in H.
  - exists st. split; [constructor | done].
  - destruct (rest st) as [|c rest'] eqn:Hr; [discriminate|].
    destruct (p c) eqn:Hp; [|discriminate].
    exists (advance st rest'). split; [by econstructor | done].
  - apply IH1 in H as (st1 & H1 & H). apply IH2 in H as (st2 & H2 & H).
    exists st2. split; [by econstructor | done].
  - destruct (rmatch r1 st k) as [m'|] eqn:E.
    + injection H as ->. apply IH1 in E as (st' & H1 & H). exists st'.
      split; [by apply M_AltL | done].
    + apply IH2 in H as (st' & H2 & H). exists st'.
      split; [by apply M_AltR | done].
  - by eapply star_loop_sound.
  - apply IH in H as (st1 & H1 & H). exists (set_group n st st1).
    split; [by constructor | done].
  - destruct (pos st =? 0)%nat eqn:E; [|discriminate].
    apply Nat.eqb_eq in E. exists st. split; [by constructor | done].
  - destruct (at_eol (rest st)) eqn:E; [|discriminate].
    exists st. split; [by constructor | done].
Qed.

(** ... and finds one whenever there is one. *)
Lemma star_loop_complete (r : regex) (k : mstate -> option mstate) :
  (forall st st' k' m, matches r st st' -> k' st' = Some m ->
     exists m', rmatch r st k' = Some m') ->
  forall st st', matches (Star r) st st' ->
  forall fuel m, String.length (rest st) <= fuel -> k st' = Some m ->
    exists m', star_loop (rmatch r) k fuel st = Some m'.
Proof.
  intros IHr st st' H. remember (Star r) as sr eqn:Esr.
  induction H as [ | | | | |r0 st|r0 st st1 st2 H1 _ Hlt H2 IH2| | | ];
    try discriminate; injection Esr as ->; intros fuel m Hfuel Hk.
  - destruct fuel as [|fuel]; simpl; [by eauto|].
    destruct (rmatch r st _); by eauto.
  - pose proof (matches_length _ _ _ H1) as [_ Hlen].
    destruct fuel as [|fuel]; [lia|]. simpl.
    destruct (IH2 eq_refl fuel m) as (m2 & Hm2); [lia | done |].
    destruct (IHr st st1
                (fun st1 => if (pos st <? pos st1)%nat
                            then star_loop (rmatch r) k fuel st1 else None) m2 H1)
      as (m' & Hm').
    { apply Nat.ltb_lt in Hlt. by rewrite Hlt. }
    rewrite Hm'. by eauto.
Qed.

Lemma rmatch_complete (r : regex) :
  forall st st' k m, matches r st st' -> k st' = Some m ->
    exists m', rmatch r st k = Some m'.
Proof.
  induction r as [|p|r1 IH1 r2 IH2|r1 IH1 r2 IH2|r IH|n r IH| |];
    intros st st' k m H Hk; simpl.
  - inversion H; subst. by eauto.
  - inversion H as [|? ? c rest' Hr Hp| | | | | | | |]; subst.
    rewrite Hr, Hp. by eauto.
  - inversion H as [| |? ? ? st1 ? H1 H2| | | | | | |]; subst.
    destruct (IH2 _ _ _ _ H2 Hk) as (m2 & E2).
    by eapply IH1.
  - inversion H; subst.
    + destruct (IH1 _ _ _ _ H4 Hk) as (m1 & ->). by eauto.
    + destruct (rmatch r1 st k); [by eauto|]. by eapply IH2.
  - eapply star_loop_complete; eauto.
  - inversion H; subst. by eapply IH.
  - inversion H; subst. rewrite H0. simpl. by eauto.
  - inversion H; subst. rewrite H0. by eauto.
Qed.

(** ** Words the pattern consumes *)

Lemma runs_cls p c : p c = true -> runs (Cls p) (String c "").
Proof.
  intros Hp st tail Hr. exists (advance st tail).
  split; [by econstructor|]. simpl. split; [done | lia].
Qed.

Lemma runs_chr c : runs (Chr c) (String c "").
Proof. apply runs_cls. apply Ascii.eqb_refl. Qed.

Lemma runs_eps : runs Eps "".
Proof. intros st tail Hr. exists st. split; [constructor|]. simpl in *. split; [done | lia]. Qed.

Lemma runs_seq r1 r2 w1 w2 : runs r1 w1 -> runs r2 w2 -> runs (Seq r1 r2) (w1 +:+ w2).
Proof.
  intros H1 H2 st tail Hr. rewrite sapp_assoc in Hr.
  destruct (H1 _ _ Hr) as (st1 & M1 & R1 & P1).
  destruct (H2 _ _ R1) as (st2 & M2 & R2 & P2).
  exists st2. split; [by econstructor|]. rewrite slength_app. split; [done | lia].
Qed.

Lemma runs_alt_l r1 r2 w : runs r1 w -> runs (Alt r1 r2) w.
Proof.
  intros H st tail Hr. destruct (H _ _ Hr) as (st' & M & R).
  exists st'. split; [by apply M_AltL | done].
Qed.

Lemma runs_alt_r r1 r2 w : runs r2 w -> runs (Alt r1 r2) w.
Proof.
  intros H st tail Hr. destruct (H _ _ Hr) as (st' & M & R).
  exists st'. split; [by apply M_AltR | done].
Qed.

Lemma runs_opt_none r : runs (Opt r) "".
Proof. apply runs_alt_r, runs_eps. Qed.

Lemma runs_star_nil r : runs (Star r) "".
Proof. intros st tail Hr. exists st. split; [constructor|]. simpl in *. split; [done | lia]. Qed.

Lemma runs_star_cons r w1 w2 :
  runs r w1 -> w1 <> "" -> runs (Star r) w2 -> runs (Star r) (w1 +:+ w2).
Proof.
  intros H1 Hne H2 st tail Hr. rewrite sapp_assoc in Hr.
  destruct (H1 _ _ Hr) as (st1 & M1 & R1 & P1).
  destruct (H2 _ _ R1) as (st2 & M2 & R2 & P2).
  exists st2. split.
  - eapply M_StarS; [exact M1 | | exact M2].
    destruct w1; [done | simpl in P1; lia].
  - rewrite slength_app. split; [done | lia].
Qed.

Lemma runs_group n r w : runs r w -> runs (Group n r) w.
Proof.
  intros H st tail Hr. destruct (H _ _ Hr) as (st' & M & R & P).
  exists (set_group n st st'). split; [by constructor | done].
Qed.

Lemma str_all_cons p c s : str_all p (String c s) = p c && str_all p s.
Proof. done. Qed.

Lemma runs_star_cls p w : str_all p w = true -> runs (Star (Cls p)) w.
Proof.
  induction w as [|c w IH]; intros H.
  - apply runs_star_nil.
  - rewrite str_all_cons in H. apply andb_true_iff in H as [Hc Hw].
    change (String c w) with (String c "" +:+ w).
    apply runs_star_cons; [by apply runs_cls | done | by apply IH].
Qed.

Lemma is_pos_digit_iff c :
  is_pos_digit c = is_digit c && negb (Ascii.eqb c "0").
Proof.
  unfold is_pos_digit, is_digit, in_range.
  destruct (Ascii.eqb_spec c "0") as [->|Hne]; [done|].
  assert (nat_of_ascii c <> 48).
  { intros E. apply Hne. rewrite <- (ascii_nat_embedding c), E. done. }
  change (nat_of_ascii "0") with 48. change (nat_of_ascii "1") with 49.
  simpl negb. rewrite andb_true_r.
  destruct (Nat.leb_spec 48 (nat_of_ascii c)), (Nat.leb_spec 49 (nat_of_ascii c));
    simpl; try done; lia.
Qed.

Lemma runs_numeric s : numeric_ok s = true -> runs re_numeric s.
Proof.
  destruct s as [|c s]; [done|]. simpl.
  destruct (Ascii.eqb_spec c "0") as [->|Hne].
  - intros H. apply String.eqb_eq in H as ->. apply runs_alt_l, runs_chr.
  - intros H. apply andb_true_iff in H as [Hc Hs].
    apply runs_alt_r. change (String c s) with (String c "" +:+ s).
    apply runs_seq; [|by apply runs_star_cls].
    apply runs_cls. rewrite is_pos_digit_iff, Hc.
    apply Ascii.eqb_neq in Hne. by rewrite Hne.
Qed.

Lemma is_idchar_split c : is_idchar c = is_digit c || is_letter_or_hyphen c.
Proof. unfold is_idchar, is_digit, is_letter_or_hyphen. by rewrite !orb_assoc. Qed.

Lemma first_non_digit s :
  str_all is_idchar s = true -> str_all is_digit s = false ->
  exists ds c rest, s = ds +:+ String c rest /\ str_all is_digit ds = true
    /\ is_letter_or_hyphen c = true /\ str_all is_idchar rest = true.
Proof.
  induction s as [|a s IH]; [done|].
  rewrite !str_all_cons. intros Hid Hd. apply andb_true_iff in Hid as [Ha Hs].
  destruct (is_digit a) eqn:Da; simpl in Hd.
  - destruct (IH Hs Hd) as (ds & c & rest & -> & Hds & Hc & Hrest).
    exists (String a ds), c, rest. rewrite str_all_cons, Da. done.
  - exists "", a, s. rewrite is_idchar_split, Da in Ha. done.
Qed.

Lemma runs_prerelease_id s : prerelease_id_ok s = true -> runs re_prerelease_id s.
Proof.
  unfold prerelease_id_ok. intros H.
  apply andb_true_iff in H as [H Hnum]. apply andb_true_iff in H as [_ Hid].
  destruct (str_all is_digit s) eqn:Hd.
  - destruct s as [|c s]; [done|]. simpl in Hnum.
    destruct (Ascii.eqb_spec c "0") as [->|Hne].
    + apply String.eqb_eq in Hnum as ->. apply runs_alt_l, runs_chr.
    + apply andb_true_iff in Hnum as [Hc Hs].
      apply runs_alt_r, runs_alt_l. change (String c s) with (String c "" +:+ s).
      apply runs_seq; [|by apply runs_star_cls].
      apply runs_cls. rewrite is_pos_digit_iff, Hc.
      apply Ascii.eqb_neq in Hne. by rewrite Hne.
  - destruct (first_non_digit s Hid Hd) as (ds & c & rest & -> & Hds & Hc & Hrest).
    apply runs_alt_r, runs_alt_r. simpl.
    apply runs_seq; [by apply runs_star_cls|].
    change (String c rest) with (String c "" +:+ rest).
    apply runs_seq; [by apply runs_cls | by apply runs_star_cls].
Qed.

Lemma runs_build_id s : build_id_ok s = true -> runs re_build_id s.
Proof.
  unfold build_id_ok. intros H. apply andb_true_iff in H as [Hne Hid].
  destruct s as [|c s]; [done|]. rewrite str_all_cons in Hid.
  apply andb_true_iff in Hid as [Hc Hs].
  change (String c s) with (String c "" +:+ s).
  apply runs_seq; [by apply runs_cls | by apply runs_star_cls].
Qed.

Lemma dotted_cons i ids : dotted (i :: ids) = i +:+ dotted_tail ids.
Proof.
  revert i; induction ids as [|j ids IH]; intros i.
  - simpl. by rewrite sapp_nil_r.
  - change (dotted (i :: j :: ids)) with (i +:+ "." +:+ dotted (j :: ids)).
    by rewrite IH.
Qed.

Lemma runs_dotted (ok : string -> bool) (r : regex) (ids : list string) :
  (forall s, ok s = true -> runs r s) ->
  ids_ok ok (Some ids) = true ->
  runs (Seq r (Star (Seq (Chr ".") r))) (dotted ids).
Proof.
  intros Hr H. simpl in H. apply andb_true_iff in H as [Hne Hall].
  destruct ids as [|i ids]; [done|]. simpl in Hall.
  apply andb_true_iff in Hall as [Hi Hids]. rewrite dotted_cons.
  apply runs_seq; [by apply Hr|]. clear Hne Hi i.
  induction ids as [|j ids IH].
  - apply runs_star_nil.
  - simpl in Hids. apply andb_true_iff in Hids as [Hj Hids].
    change (dotted_tail (j :: ids)) with (("." +:+ j) +:+ dotted_tail ids).
    apply runs_star_cons; [|done|by apply IH].
    apply (runs_seq _ _ "."); [apply runs_chr | by apply Hr].
Qed.

Lemma runs_label (ok : string -> bool) (c : ascii) (n : string) (r : regex)
    (ids : option (list string)) :
  (forall s, ok s = true -> runs r s) ->
  ids_ok ok ids = true ->
  runs (Opt (Seq (Chr c) (Group n (Seq r (Star (Seq (Chr ".") r))))))
    (label (String c "") ids).
Proof.
  intros Hr H. destruct ids as [ids|]; simpl.
  - apply runs_alt_l. apply (runs_seq _ _ (String c "")); [apply runs_chr|].
    by eapply runs_group, runs_dotted.
  - apply runs_opt_none.
Qed.

Lemma matches_seqs_snoc (rs : list regex) (r : regex) (st st2 : mstate) :
  rs <> [] ->
  matches (Seqs (rs ++ [r])) st st2
  <-> exists st1, matches (Seqs rs) st st1 /\ matches r st1 st2.
Proof.
  intros Hne. revert st. induction rs as [|a rs IH]; [done|]. intros st.
  destruct rs as [|b rs].
  - simpl. split.
    + intros H. inversion H; subst. by eauto.
    + intros (st1 & H1 & H2). by econstructor.
  - change (Seqs ((a :: b :: rs) ++ [r])) with (Seq a (Seqs ((b :: rs) ++ [r]))).
    change (Seqs (a :: b :: rs)) with (Seq a (Seqs (b :: rs))).
    split.
    + intros H. inversion H as [| |? ? ? st1 ? H1 H2| | | | | | |]; subst.
      apply IH in H2 as (st3 & H3 & H4); [|done].
      exists st3. split; [by econstructor | done].
    + intros (st1 & H1 & H2).
      inversion H1 as [| |? ? ? st3 ? H3 H4| | | | | | |]; subst.
      econstructor; [exact H3|]. apply IH; [done|]. by eauto.
Qed.

Lemma semver_regex_split (st st' : mstate) :
  matches SEMVER_REGEX st st'
  <-> exists st1 st2, matches (Seqs semver_items) st st1
        /\ matches semver_build st1 st2 /\ matches Eol st2 st'.
Proof.
  change SEMVER_REGEX with (Seqs ((semver_items ++ [semver_build]) ++ [Eol])).
  rewrite matches_seqs_snoc by done. split.
  - intros (st2 & H & He). apply matches_seqs_snoc in H as (st1 & H1 & H2); [|done].
    by eauto.
  - intros (st1 & st2 & H1 & H2 & He). exists st2. split; [|done].
    apply matches_seqs_snoc; [done | by eauto].
Qed.

(** Every valid semantic version, alone or followed by one line feed,
    has a match of the whole pattern. *)
Lemma semver_has_match (v : SemVer) (tail : string) :
  semver_ok v = true -> at_eol tail = true ->
  exists st', matches SEMVER_REGEX (mkM 0 (render v +:+ tail) []) st'.
Proof.
  unfold semver_ok. intros H Htail.
  repeat (apply andb_true_iff in H as [H ?]).
  assert (Hruns : runs (Seqs (tl semver_items ++ [semver_build])) (render v)).
  { unfold render. simpl Seqs.
    apply runs_seq; [by apply runs_group, runs_numeric|].
    apply (runs_seq _ _ "."); [apply runs_chr|].
    apply runs_seq; [by apply runs_group, runs_numeric|].
    apply (runs_seq _ _ "."); [apply runs_chr|].
    apply runs_seq; [by apply runs_group, runs_numeric|].
    apply runs_seq.
    - apply (runs_label prerelease_id_ok); [apply runs_prerelease_id | done].
    - apply (runs_label build_id_ok); [apply runs_build_id | done]. }
  destruct (Hruns (mkM 0 (render v +:+ tail) []) tail eq_refl) as (st' & M & R & P).
  exists st'.
  change SEMVER_REGEX
    with (Seq Bol (Seqs ((tl semver_items ++ [semver_build]) ++ [Eol]))).
  apply M_Seq with (st1 := mkM 0 (render v +:+ tail) []); [by constructor|].
  apply matches_seqs_snoc; [done|]. exists st'. split; [done|].
  constructor. by rewrite R.
Qed.

(** ** Groups *)

Lemma matches_group_other (n : string) (r : regex) (st st' : mstate) :
  matches r st st' -> mentions n r = false ->
  group (caps st') n = group (caps st) n.
Proof.
  induction 1; simpl; intros Hn; try done.
  - apply orb_false_iff in Hn as [? ?]. rewrite IHmatches2, IHmatches1; done.
  - apply orb_false_iff in Hn as [? ?]. auto.
  - apply orb_false_iff in Hn as [? ?]. auto.
  - rewrite IHmatches2, IHmatches1; done.
  - apply orb_false_iff in Hn as [Hm ?]. rewrite Hm. auto.
Qed.

Lemma semver_no_build_group (s : string) (st' : mstate) :
  matches SEMVER_REGEX (mkM 0 s []) st' -> str_has "+" s = false ->
  group (caps st') "buildmetadata" = None.
Proof.
  intros H Hplus. apply semver_regex_split in H as (st1 & st2 & H1 & H2 & H3).
  pose proof (matches_group_other "buildmetadata" _ _ _ H1 eq_refl) as Hc.
  destruct (matches_rest _ _ _ H1) as (w & Hw & _). simpl in Hw, Hc.
  rewrite Hw, str_has_app in Hplus. apply orb_false_iff in Hplus as [_ Hplus].
  inversion H3; subst. rewrite <- Hc.
  inversion H2 as [| | |? ? ? ? HL|? ? ? ? HR| | | | |]; subst.
  - inversion HL as [| |? ? ? st3 ? Hp _| | | | | | |]; subst.
    inversion Hp as [|? ? c rest' Hr Hpc| | | | | | | |]; subst.
    rewrite Hr in Hplus. simpl in Hplus.
    rewrite Ascii.eqb_sym in Hpc. by rewrite Hpc in Hplus.
  - by inversion HR; subst.
Qed.

(** ** The characters of a semantic version *)

Lemma str_all_lacks (p : ascii -> bool) (c : ascii) (s : string) :
  str_all p s = true -> p c = false -> str_has c s = false.
Proof.
  intros Hs Hc. induction s as [|a s IH]; [done|].
  rewrite str_all_cons in Hs. apply andb_true_iff in Hs as [Ha Hs]. simpl.
  rewrite (IH Hs), orb_false_r. apply Ascii.eqb_neq. intros ->. congruence.
Qed.

Lemma numeric_ok_digits s : numeric_ok s = true -> str_all is_digit s = true.
Proof.
  destruct s as [|c s]; [done|]. simpl.
  destruct (Ascii.eqb_spec c "0") as [->|]; [|done].
  intros H. by apply String.eqb_eq in H as ->.
Qed.

Lemma numeric_lacks c s : numeric_ok s = true -> is_digit c = false -> str_has c s = false.
Proof. intros H. apply str_all_lacks. by apply numeric_ok_digits. Qed.

Lemma dotted_lacks (ok : string -> bool) (c : ascii) (ids : list string) :
  (forall s, ok s = true -> str_has c s = false) -> Ascii.eqb "." c = false ->
  forallb ok ids = true -> str_has c (dotted ids) = false.
Proof.
  intros Hok Hdot Hall. destruct ids as [|i ids]; [done|].
  simpl in Hall. apply andb_true_iff in Hall as [Hi Hids].
  rewrite dotted_cons, str_has_app, (Hok _ Hi), orb_false_l. clear Hi.
  induction ids as [|j ids IH]; [done|].
  cbn [forallb] in Hids. apply andb_true_iff in Hids as [Hj Hids].
  change (dotted_tail (j :: ids)) with (String "." (j +:+ dotted_tail ids)).
  cbn [str_has]. rewrite Hdot, str_has_app, (Hok _ Hj), !orb_false_l. by apply IH.
Qed.

Lemma label_lacks (ok : string -> bool) (c p : ascii) (ids : option (list string)) :
  (forall s, ok s = true -> str_has c s = false) -> Ascii.eqb "." c = false ->
  Ascii.eqb p c = false ->
  ids_ok ok ids = true -> str_has c (label (String p "") ids) = false.
Proof.
  intros Hok Hdot Hp H. destruct ids as [ids|]; [|done]. cbn [ids_ok] in H.
  apply andb_true_iff in H as [_ H].
  change (label (String p "") (Some ids)) with (String p (dotted ids)).
  cbn [str_has]. rewrite Hp, orb_false_l. by eapply dotted_lacks.
Qed.

Lemma prerelease_id_lacks c s :
  prerelease_id_ok s = true -> is_idchar c = false -> str_has c s = false.
Proof.
  unfold prerelease_id_ok. intros H.
  apply andb_true_iff in H as [H _]. apply andb_true_iff in H as [_ H].
  by apply str_all_lacks.
Qed.

Lemma build_id_lacks c s :
  build_id_ok s = true -> is_idchar c = false -> str_has c s = false.
Proof.
  unfold build_id_ok. intros H. apply andb_true_iff in H as [_ H].
  by apply str_all_lacks.
Qed.

(** A semantic version is made of letters, digits, hyphens, dots and
    plus signs only. *)
Lemma semver_lacks (c : ascii) (v : SemVer) :
  semver_ok v = true ->
  is_idchar c = false -> Ascii.eqb "." c = false -> Ascii.eqb "+" c = false ->
  str_has c (render v) = false.
Proof.
  unfold semver_ok. intros H Hid Hdot Hplus.
  repeat (apply andb_true_iff in H as [H ?]).
  assert (Hd : is_digit c = false).
  { rewrite is_idchar_split in Hid. by apply orb_false_iff in Hid as [? _]. }
  assert (Hh : Ascii.eqb "-" c = false).
  { unfold is_idchar in Hid. rewrite Ascii.eqb_sym.
    repeat (apply orb_false_iff in Hid as [Hid ?]). done. }
  assert (Hpre : str_has c (label "-" (sv_prerelease v)) = false).
  { apply (label_lacks prerelease_id_ok); try done.
    intros s Hs. by apply prerelease_id_lacks. }
  assert (Hbuild : str_has c (label "+" (sv_build v)) = false).
  { apply (label_lacks build_id_ok); try done.
    intros s Hs. by apply build_id_lacks. }
  unfold render.
  rewrite !str_has_app, (numeric_lacks c (sv_major v)),
    (numeric_lacks c (sv_minor v)), (numeric_lacks c (sv_patch v)), Hpre, Hbuild
    by done.
  cbn [str_has]. by rewrite Hdot.
Qed.

Lemma version_lacks_plus (v : SemVer) :
  semver_ok v = true -> sv_build v = None -> str_has "+" (render v) = false.
Proof.
  unfold semver_ok. intros H Hb.
  repeat (apply andb_true_iff in H as [H ?]).
  assert (Hpre : str_has "+" (label "-" (sv_prerelease v)) = false).
  { apply (label_lacks prerelease_id_ok); try done.
    intros s Hs. by apply prerelease_id_lacks. }
  unfold render. rewrite Hb. cbn [label].
  rewrite !str_has_app, (numeric_lacks "+" (sv_major v)),
    (numeric_lacks "+" (sv_minor v)), (numeric_lacks "+" (sv_patch v)), Hpre
    by done.
  done.
Qed.

(** ** [get_version] on valid versions *)

Lemma at_eol_lacks_plus tail : at_eol tail = true -> str_has "+" tail = false.
Proof.
  destruct tail as [|c [|c' t]]; simpl; try done.
  intros H. apply Ascii.eqb_eq in H as ->. done.
Qed.

Lemma get_version_accepts (prog s tail : string) :
  is_version s -> at_eol tail = true ->
  get_version [prog; s +:+ tail] = Ok (s +:+ tail).
Proof.
  intros (v & Hv & Hb & ->) Htail. unfold get_version. simpl negb. cbv iota.
  simpl nth.
  destruct (semver_has_match v tail Hv Htail) as (st' & Hm).
  destruct (rmatch_complete _ _ _ Some st' Hm eq_refl) as (m & Em).
  unfold re_match. rewrite Em.
  apply rmatch_sound in Em as (st2 & Hm2 & [= ->]).
  rewrite (semver_no_build_group _ _ Hm2); [done|].
  rewrite str_has_app, version_lacks_plus, at_eol_lacks_plus; done.
Qed.

Lemma semver_lacks_lf (s : string) : is_semver s -> str_has LF s = false.
Proof. intros (v & Hv & ->). by apply semver_lacks. Qed.

(** C3.  [get_version] accepts the argument ["1.0.0\n"], which is not
    a semantic version. *)
Example newline_terminated_version_is_accepted :
  get_version ["release.py"; "1.0.0" +:+ NL] = Ok ("1.0.0" +:+ NL)
  /\ ~ is_semver ("1.0.0" +:+ NL).
Proof.
  split; [by vm_compute|]. intros H. by apply semver_lacks_lf in H.
Qed.

(** C10.  A version (a valid semantic version without build metadata)
    followed by a single line feed is accepted and returned with the
    line feed, although with the line feed it is no semantic version. *)
Theorem get_version_accepts_trailing_newline (prog v : string) :
  is_version v ->
  get_version [prog; v +:+ NL] = Ok (v +:+ NL) /\ ~ is_semver (v +:+ NL).
Proof.
  intros Hv. split; [by apply get_version_accepts|].
  intros H. apply semver_lacks_lf in H. rewrite str_has_app in H.
  apply orb_false_iff in H as [_ H]. done.
Qed.

Lemma get_version_accepts_trailing_newline_witness :
  is_version "1.0.0"
  /\ get_version ["release.py"; "1.0.0" +:+ NL] = Ok ("1.0.0" +:+ NL)
  /\ ~ is_semver ("1.0.0" +:+ NL).
Proof.
  assert (H : is_version "1.0.0").
  { exists (mkSemVer "1" "0" "0" None None). by vm_compute. }
  split; [exact H|]. exact (get_version_accepts_trailing_newline "release.py" "1.0.0" H).
Defined.

(** X3.  Every version (a valid semantic version without build
    metadata) is accepted and returned unchanged. *)
Theorem get_version_accepts_versions (prog v : string) :
  is_version v -> get_version [prog; v] = Ok v.
Proof.
  intros Hv. rewrite <- (sapp_nil_r v). by apply get_version_accepts.
Qed.

Lemma get_version_accepts_versions_witness :
  is_version "1.2.3-rc.1" /\ get_version ["release.py"; "1.2.3-rc.1"] = Ok "1.2.3-rc.1".
Proof.
  assert (H : is_version "1.2.3-rc.1").
  { exists (mkSemVer "1" "2" "3" (Some ["rc"; "1"]) None). by vm_compute. }
  split; [exact H|]. exact (get_version_accepts_versions "release.py" "1.2.3-rc.1" H).
Defined.

Lemma str_all_app p a b : str_all p (a +:+ b) = str_all p a && str_all p b.
Proof.
  induction a as [|x a IH]; [done|].
  change (String x a +:+ b) with (String x (a +:+ b)).
  by rewrite !str_all_cons, IH, andb_assoc.
Qed.

Lemma str_all_weaken (p q : ascii -> bool) s :
  (forall c, p c = true -> q c = true) -> str_all p s = true -> str_all q s = true.
Proof.
  intros Hpq. induction s as [|c s IH]; [done|]. rewrite !str_all_cons.
  intros H. apply andb_true_iff in H as [Hc Hs]. by rewrite (Hpq _ Hc), IH.
Qed.

(** What a match consumes is made of the characters of the pattern. *)
Lemma matches_word r st st' :
  matches r st st' ->
  exists w, rest st = w +:+ rest st' /\ pos st' = pos st + String.length w
            /\ str_all (alphabet r) w = true.
Proof.
  induction 1 as [st|p st c rest' Hr Hp|r1 r2 st st1 st2 _ IH1 _ IH2
                 |r1 r2 st st' _ IH|r1 r2 st st' _ IH|r st
                 |r st st1 st2 _ IH1 Hlt _ IH2|n r st st1 _ IH|st H|st H];
    cbn [alphabet].
  - exists ""; cbn; split_and!; [done | lia | done].
  - exists (String c ""); cbn. rewrite Hr, Hp. split_and!; [done | lia | done].
  - destruct IH1 as (w1 & E1 & P1 & A1), IH2 as (w2 & E2 & P2 & A2).
    exists (w1 +:+ w2). rewrite sapp_assoc, <- E2, <- E1, slength_app, str_all_app.
    split; [done|]. split; [lia|]. apply andb_true_iff. split.
    + eapply str_all_weaken; [|exact A1]. intros ? ->. done.
    + eapply str_all_weaken; [|exact A2]. intros ? ->. apply orb_true_r.
  - destruct IH as (w & E & P & A). exists w. repeat split; try done.
    eapply str_all_weaken; [|exact A]. intros ? ->. done.
  - destruct IH as (w & E & P & A). exists w. repeat split; try done.
    eapply str_all_weaken; [|exact A]. intros ? ->. apply orb_true_r.
  - exists ""; cbn; split_and!; [done | lia | done].
  - destruct IH1 as (w1 & E1 & P1 & A1), IH2 as (w2 & E2 & P2 & A2).
    exists (w1 +:+ w2). rewrite sapp_assoc, <- E2, <- E1, slength_app, str_all_app.
    split; [done|]. split; [lia|]. cbn [alphabet] in A2. by rewrite A1, A2.
  - done.
  - exists ""; cbn; split_and!; [done | lia | done].
  - exists ""; cbn; split_and!; [done | lia | done].
Qed.

Lemma matches_consuming r st st' :
  matches r st st' -> consuming r = true -> pos st < pos st'.
Proof.
  induction 1 as [st|p st c rest' Hr Hp|r1 r2 st st1 st2 H1 IH1 H2 IH2
                 |r1 r2 st st' _ IH|r1 r2 st st' _ IH|r st
                 |r st st1 st2 _ IH1 Hlt _ IH2|n r st st1 _ IH|st H|st H];
    cbn [consuming]; intros Hc; try done.
  - cbn. lia.
  - apply matches_length in H1 as [L1 _]. apply matches_length in H2 as [L2 _].
    apply orb_true_iff in Hc as [Hc|Hc]; [specialize (IH1 Hc) | specialize (IH2 Hc)]; lia.
  - apply andb_true_iff in Hc as [Hc _]. by apply IH.
  - apply andb_true_iff in Hc as [_ Hc]. by apply IH.
  - cbn. by apply IH.
Qed.

Lemma substring_prefix (w r : string) :
  String.substring 0 (String.length w) (w +:+ r) = w.
Proof.
  induction w as [|c w IH]; cbn.
  - by destruct r.
  - by rewrite IH.
Qed.

(** What a group has captured is what its pattern consumed. *)
Lemma consumed_word (st st' : mstate) (w : string) :
  rest st = w +:+ rest st' -> pos st' = pos st + String.length w ->
  consumed st st' = w.
Proof.
  intros E P. unfold consumed. rewrite E, P.
  replace (pos st + String.length w - pos st) with (String.length w) by lia.
  apply substring_prefix.
Qed.

(** The build-metadata group of a match of the whole pattern: set, and
    not empty, exactly when the subject has a plus sign. *)
Lemma semver_build_group (s : string) (m : mstate) :
  matches SEMVER_REGEX (mkM 0 s []) m ->
  truthy (group (caps m) "buildmetadata") = str_has "+" s.
Proof.
  intros H. apply semver_regex_split in H as (st1 & st2 & H1 & H2 & H3).
  pose proof (matches_group_other "buildmetadata" _ _ _ H1 eq_refl) as Hc.
  destruct (matches_word _ _ _ H1) as (w & Hw & _ & Aw). cbn in Hc.
  change (rest (mkM 0 s [])) with s in Hw. revert Hw.
  assert (Hwp : str_has "+" w = false) by (by eapply str_all_lacks).
  inversion H3 as [| | | | | | | | |? Heol]; subst.
  inversion H2 as [| | |? ? ? ? HL|? ? ? ? HR| | | | |]; subst.
  - inversion HL as [| |? ? ? sta ? Hp Hg| | | | | | |]; subst.
    inversion Hp as [|? ? c rest' Hr Hpc| | | | | | | |]; subst.
    apply Ascii.eqb_eq in Hpc as <-.
    inversion Hg as [| | | | | | |? ? ? stb Hb| |]; subst.
    pose proof (matches_consuming _ _ _ Hb eq_refl) as Hlt.
    destruct (matches_word _ _ _ Hb) as (wb & Eb & Pb & _).
    intros Hw.
    cbn [caps set_group group String.eqb Ascii.eqb Bool.eqb truthy].
    rewrite (consumed_word _ _ wb Eb Pb).
    rewrite Hw, Hr, str_has_app. cbn [str_has Ascii.eqb Bool.eqb].
    rewrite orb_true_r. destruct wb; [cbn [String.length] in Pb; lia | done].
  - inversion HR; subst. intros Hw. rewrite Hc. cbn.
    rewrite Hw, str_has_app, Hwp. cbn. symmetry. by apply at_eol_lacks_plus.
Qed.

(** X2.  Build metadata is refused: an argument with a plus sign in
    it is rejected. *)
Theorem get_version_rejects_build_metadata (prog s : string) :
  str_has "+" s = true ->
  exists msg, get_version [prog; s] = Raise (AssertionError msg).
Proof.
  intros Hs. unfold get_version. cbn [length Nat.eqb negb nth].
  destruct (re_match SEMVER_REGEX s) as [m|] eqn:E; [|by eauto].
  apply rmatch_sound in E as (st' & Hm & [= ->]).
  rewrite (semver_build_group _ _ Hm), Hs. by eauto.
Qed.

(** ** What the matches of the pattern spell *)



















Lemma get_version_rejects_build_metadata_witness :
  str_has "+" "1.0.0+build.5" = true
  /\ exists msg, get_version ["release.py"; "1.0.0+build.5"] = Raise (AssertionError msg).
Proof.
  assert (H : str_has "+" "1.0.0+build.5" = true) by (by vm_compute).
  split; [exact H|].
  exact (get_version_rejects_build_metadata "release.py" "1.0.0+build.5" H).
Defined.

(** Leading zeros, missing or extra components, empty identifiers
    and stray characters are refused, each as not a valid semver. *)
Example malformed_versions_are_rejected :
  Forall (fun s => get_version ["release.py"; s]
                   = Raise (AssertionError "Given version is not a valid semver."))
    ["01.2.3"; "1.02.3"; "1.2.03"; "1.2"; "1.2.3.4"; "v1.2.3"; "1.2.3-"; "1.2.3-01";
     "1.2.3-rc..1"; "1.2.3+"; "1.2.3 "; " 1.2.3"; "1.2.3" +:+ NL +:+ NL; ""].
Proof. repeat constructor. Qed.

(** X4.  Any number of arguments other than one is a usage error. *)
Theorem get_version_wrong_arity (argv : list string) :
  length argv <> 2 ->
  get_version argv
  = Raise (AssertionError "Got wrong number of arguments, expected 1.").
Proof.
  intros H. unfold get_version. apply Nat.eqb_neq in H. by rewrite H.
Qed.

Lemma get_version_wrong_arity_witness :
  length ["release.py"; "1.0.0"; "extra"] <> 2
  /\ get_version ["release.py"; "1.0.0"; "extra"]
     = Raise (AssertionError "Got wrong number of arguments, expected 1.").
Proof.
  assert (H : length ["release.py"; "1.0.0"; "extra"] <> 2) by (cbn; lia).
  split; [exact H|]. exact (get_version_wrong_arity _ H).
Defined.

(** ** Commands *)

Lemma log_set_out (msg : string) (e : bool) (w : World) :
  log msg e w = (Ok tt, set_out (w_out w ++ [(e, w_indent w, msg)]) w).
Proof. done. Qed.

Lemma set_out_twice (o1 o2 : list (bool * nat * string)) (w : World) :
  set_out o2 (set_out o1 w) = set_out o2 w.
Proof. done. Qed.

Lemma w_out_set_out (o : list (bool * nat * string)) (w : World) :
  w_out (set_out o w) = o.
Proof. done. Qed.

Lemma w_indent_set_out (o : list (bool * nat * string)) (w : World) :
  w_indent (set_out o w) = w_indent w.
Proof. done. Qed.

Lemma run_git (a : list string) (d : string) (w : World) :
  run ("git" :: a) d w
  = let w1 := record (EvRun ("git" :: a) d (git a d w).1.1.1) (git a d w).2 in
    if ((git a d w).1.1.1 =? 0)%Z
    then (Ok (rstrip_nl (git a d w).1.1.2), w1)
    else (Raise (AssertionError
                   ("Exited with non-zero exit code: " +:+ pretty (git a d w).1.1.1)),
          set_out (w_out w1 ++
             [(false, w_indent w1, join_words ("$" :: "git" :: a));
              (false, w_indent w1, banner "stdout");
              (false, w_indent w1, or_nothing (git a d w).1.1.2);
              (false, w_indent w1, banner "stderr");
              (false, w_indent w1, or_nothing (git a d w).1.2)]) w1).
Proof.
  unfold run, bind, subprocess_run. cbn [String.eqb Ascii.eqb Bool.eqb].
  destruct (git a d w) as [[[rc out] err] w1]. cbn [fst snd].
  destruct (rc =? 0)%Z; [done|].
  generalize (record (EvRun ("git" :: a) d rc) w1). intros w2.
  rewrite !log_set_out. unfold raise.
  rewrite !set_out_twice, !w_out_set_out, !w_indent_set_out.
  by rewrite <- !app_assoc.
Qed.

(** A git command changes nothing but the object store and the
    repository it runs in. *)
Lemma git_world (a : list string) (d : string) (w : World) :
  (git a d w).2 = w \/ exists store r, (git a d w).2 = set_git store d r w.
Proof.
  unfold git, git_ok.
  repeat (case_match; try (by left); try (by right; eauto)).
Qed.

Lemma git_trace (a : list string) (d : string) (w : World) :
  w_trace (git a d w).2 = w_trace w.
Proof. destruct (git_world a d w) as [->|(? & ? & ->)]; done. Qed.

Lemma git_fs (a : list string) (d : string) (w : World) :
  w_fs (git a d w).2 = w_fs w.
Proof. destruct (git_world a d w) as [->|(? & ? & ->)]; done. Qed.

(** ** The events of a computation *)

Lemma emits_weaken {A} (m : M A) (P Q : result A -> list event -> Prop) :
  emits m P -> (forall r evs, P r evs -> Q r evs) -> emits m Q.
Proof. intros H HPQ w. destruct (H w) as (evs & E & HP). by eauto. Qed.

Lemma emits_silent {A} (m : M A) (a : A) :
  (forall w, (m w).1 = Ok a /\ w_trace (m w).2 = w_trace w) ->
  emits m (fun r evs => r = Ok a /\ evs = []).
Proof. intros H w. exists []. destruct (H w) as [-> ->]. by rewrite app_nil_r. Qed.

Lemma emits_run (a : list string) (d : string) :
  emits (run ("git" :: a) d) (fun r evs =>
    exists rc, evs = [EvRun ("git" :: a) d rc] /\ (is_ok r = true <-> rc = 0%Z)).
Proof.
  intros w. rewrite run_git. cbv zeta.
  exists [EvRun ("git" :: a) d (git a d w).1.1.1].
  destruct (Z.eqb_spec (git a d w).1.1.1 0) as [E|E]; cbn; rewrite git_trace;
    (split; [done|]); eexists; (split; [done|]); split; try done.
Qed.

Lemma emits_bind {A B} (m : M A) (f : A -> M B)
    (P : result A -> list event -> Prop) (Q : A -> result B -> list event -> Prop) :
  emits m P -> (forall a, emits (f a) (Q a)) ->
  emits (bind m f) (fun r evs =>
    (exists e, P (Raise e) evs /\ r = Raise e)
    \/ (exists a evs1 evs2, P (Ok a) evs1 /\ Q a r evs2 /\ evs = evs1 ++ evs2)).
Proof.
  intros Hm Hf w. unfold bind. destruct (Hm w) as (evs1 & E1 & HP).
  destruct (m w) as [[a|e] w1]; cbn in *.
  - destruct (Hf a w1) as (evs2 & E2 & HQ). exists (evs1 ++ evs2).
    rewrite E2, E1, app_assoc. split; [done|]. right. by eauto 10.
  - exists evs1. split; [done|]. left. by eauto.
Qed.

Lemma task_result {A} (msg : string) (body : M A) (w : World) :
  (task msg body w).1 = task_outcome (body (task_enter msg w)).1
  /\ w_trace (task msg body w).2 = w_trace (body (task_enter msg w)).2
  /\ w_fs (task msg body w).2 = w_fs (body (task_enter msg w)).2
  /\ w_store (task msg body w).2 = w_store (body (task_enter msg w)).2
  /\ w_repos (task msg body w).2 = w_repos (body (task_enter msg w)).2.
Proof.
  unfold task. change (set_indent _ (log _ false w).2) with (task_enter msg w).
  destruct (body _) as [[a|[]] w3]; done.
Qed.

Lemma emits_task {A} (msg : string) (body : M A)
    (P : result A -> list event -> Prop) :
  emits body P ->
  emits (task msg body) (fun r evs => exists r0, P r0 evs /\ r = task_outcome r0).
Proof.
  intros Hb w. destruct (task_result msg body w) as (Hr & Ht & _).
  destruct (Hb (task_enter msg w)) as (evs & E & HP). exists evs.
  rewrite Ht, E, Hr. by eauto.
Qed.

Lemma is_ok_task_outcome {A} (r : result A) : is_ok (task_outcome r) = is_ok r.
Proof. by destruct r as [|[]]. Qed.

(** ** Runs of a fixed list of steps *)

Lemma performs_silent {A} (m : M A) (a : A) :
  (forall w, (m w).1 = Ok a /\ w_trace (m w).2 = w_trace w) -> performs m [].
Proof.
  intros H. eapply emits_weaken; [by apply (emits_silent m a)|].
  by intros r evs [-> ->].
Qed.

Lemma performs_run (a : list string) (d : string) :
  performs (run ("git" :: a) d) [EvRun ("git" :: a) d 0].
Proof.
  eapply emits_weaken; [apply emits_run|].
  intros r evs (rc & -> & Hrc). unfold attempts. destruct (is_ok r).
  - destruct Hrc as [-> _]; done.
  - exists [], (EvRun ("git" :: a) d 0), [], [EvRun ("git" :: a) d rc].
    split; [done|]. split; [|done]. exists rc. split; [|done].
    intros ->. by destruct Hrc as [_ Hrc]; specialize (Hrc eq_refl).
Qed.

Lemma performs_bind {A B} (m : M A) (f : A -> M B) (s1 s2 : list event) :
  performs m s1 -> (forall a, performs (f a) s2) -> performs (bind m f) (s1 ++ s2).
Proof.
  intros Hm Hf. eapply emits_weaken.
  { apply (emits_bind m f _ (fun _ r evs => attempts s2 (is_ok r) evs) Hm Hf). }
  intros r evs [(e & H & ->)|(a & evs1 & evs2 & H1 & H2 & ->)]; cbn in *.
  - destruct H as (pre & step & post & tail & -> & Hf' & ->).
    exists pre, step, (post ++ s2), tail. by rewrite <- app_assoc.
  - subst evs1. unfold attempts in *. destruct (is_ok r); [by subst|].
    destruct H2 as (pre & step & post & tail & -> & Hf' & ->).
    exists (s1 ++ pre), step, post, tail. by rewrite <- !app_assoc.
Qed.

Lemma performs_task {A} (msg : string) (body : M A) (steps : list event) :
  performs body steps -> performs (task msg body) steps.
Proof.
  intros H. eapply emits_weaken; [by apply emits_task|].
  intros r evs (r0 & H0 & ->). by rewrite is_ok_task_outcome.
Qed.

Lemma push_release_performs (version spec_repo website_repo : string) :
  performs (push_release version spec_repo website_repo)
    (pushes version spec_repo website_repo).
Proof.
  unfold push_release.
  apply (performs_bind _ _ []); [by apply (performs_silent _ tt)|]. intros _.
  apply (performs_bind _ _ [_; _]).
  { apply performs_task, (performs_bind _ _ [_]); [apply performs_run|].
    intros _. apply performs_run. }
  intros _. apply (performs_bind _ _ [_; _] []).
  { apply performs_task, (performs_bind _ _ [_]); [apply performs_run|].
    intros _. apply performs_run. }
  intros _. by apply (performs_silent _ tt).
Qed.

(** C8.  [push_release] runs, in this order, [git push origin HEAD
    <version>] and [git push upstream HEAD <version>] in the spec
    repository, then [git push origin HEAD] and [git push upstream HEAD]
    in the website repository, and nothing else: when it returns, the
    history has grown by exactly these four commands, each with status
    0; when it fails, by those before the push that failed and that
    push with its non-zero status.  The tag is named in the two pushes
    of the spec repository only. *)
Theorem push_release_pushes (version spec_repo website_repo : string) (w : World) :
  exists evs,
    w_trace (push_release version spec_repo website_repo w).2 = w_trace w ++ evs
    /\ attempts (pushes version spec_repo website_repo)
         (is_ok (push_release version spec_repo website_repo w).1) evs.
Proof. apply push_release_performs. Qed.

(** ** Inspections *)

Lemma only_fetched_refl r : only_fetched r r.
Proof. do 4 (split; [done|]). split; [done|]. by eauto. Qed.

Lemma only_fetched_trans r1 r2 r3 :
  only_fetched r1 r2 -> only_fetched r2 r3 -> only_fetched r1 r3.
Proof.
  intros (H1 & B1 & I1 & M1 & T1 & N1 & K1 & O1)
         (H2 & B2 & I2 & M2 & T2 & N2 & K2 & O2).
  do 4 (split; [congruence|]). split; [by eauto|]. split; [|split].
  - intros name t Ht. destruct (N2 name t Ht) as [Ht'|(rem & Hr & Ht')].
    + by apply N1.
    + right. exists rem. by rewrite <- M1.
  - intros remote b c Hc.
    destruct (K2 remote b c Hc) as [Hc'|(-> & rem & Hr & Hc')].
    + by apply K1.
    + right. split; [done|]. exists rem. by rewrite <- M1.
  - intros remote b Hne. by rewrite O2, O1.
Qed.

(** The remote-tracking branches after a fetch from [name]. *)
Lemma tracking_follows (name : string) (heads : gmap string nat)
    (trk : gmap (string * string) nat) :
  (forall remote b c,
     map_fold (fun b c t => <[(name, b) := c]> t) trk heads !! (remote, b) = Some c ->
     trk !! (remote, b) = Some c \/ remote = name /\ heads !! b = Some c)
  /\ (forall remote b, remote <> name ->
        map_fold (fun b c t => <[(name, b) := c]> t) trk heads !! (remote, b)
        = trk !! (remote, b)).
Proof.
  apply (map_fold_weak_ind
           (fun t m =>
              (forall remote b c, t !! (remote, b) = Some c ->
                 trk !! (remote, b) = Some c \/ remote = name /\ m !! b = Some c)
              /\ (forall remote b, remote <> name ->
                    t !! (remote, b) = trk !! (remote, b)))).
  - split; [by left | done].
  - intros b c m t Hm [IH1 IH2]. split.
    + intros remote b' c' H.
      destruct (decide ((name, b) = (remote, b'))) as [[= <- <-]|Hne].
      * rewrite lookup_insert_eq in H. injection H as <-. right.
        by rewrite lookup_insert_eq.
      * rewrite lookup_insert_ne in H by done.
        destruct (IH1 _ _ _ H) as [?|[-> Hb]]; [by left|]. right. split; [done|].
        rewrite lookup_insert_ne; [done|]. by intros <-.
    + intros remote b' Hne. rewrite lookup_insert_ne; [by apply IH2|].
      by intros [= <- _].
Qed.

Lemma fetch_only_fetched (store : list Commit) (r r' : Repo) :
  git_remote_update store "upstream" r = Some r' -> only_fetched r r'.
Proof.
  unfold git_remote_update.
  destruct (g_remotes r !! "upstream") as [rem|] eqn:E; [|done]. intros [= <-].
  destruct (tracking_follows "upstream" (r_heads rem) (g_tracking r)) as [K O].
  do 4 (split; [done|]). cbn [g_tags g_tracking]. split; [|split; [|split]].
  - intros name t Ht. by apply lookup_union_Some_l.
  - intros name t Ht. apply lookup_union_Some_raw in Ht as [Ht|[_ Ht]]; [by left|].
    apply map_lookup_filter_Some in Ht as [Ht _]. right. by exists rem.
  - intros remote b c Hc. destruct (K _ _ _ Hc) as [?|[-> ?]]; [by left|].
    right. split; [done|]. by exists rem.
  - exact O.
Qed.

Lemma option_same_refl (o : option Repo) : option_Forall2 only_fetched o o.
Proof. destruct o; constructor. apply only_fetched_refl. Qed.

Lemma untouched_refl w : untouched w w.
Proof.
  repeat split; try done.
  - intros d. apply option_same_refl.
  - exists []. by rewrite app_nil_r.
Qed.

Lemma untouched_trans w1 w2 w3 : untouched w1 w2 -> untouched w2 w3 -> untouched w1 w3.
Proof.
  intros (F1 & S1 & R1 & e1 & T1 & Q1) (F2 & S2 & R2 & e2 & T2 & Q2).
  split; [congruence|]. split; [congruence|]. split.
  - intros d. specialize (R1 d). specialize (R2 d).
    destruct R1; inversion R2; constructor. by eapply only_fetched_trans.
  - exists (e1 ++ e2). rewrite T2, T1, app_assoc, forallb_app, Q1, Q2. done.
Qed.

Lemma quietly_bind {A B} (m : M A) (f : A -> M B) :
  quietly m -> (forall a, quietly (f a)) -> quietly (bind m f).
Proof.
  intros Hm Hf w. unfold bind. destruct (Hm w) as [U1 E1].
  destruct (m w) as [[a|e] w1]; cbn in *.
  - destruct (Hf a w1) as [U2 E2]. split; [by eapply untouched_trans | done].
  - split; [done|]. intros e' [= <-]. by apply E1.
Qed.

Lemma untouched_display (w w' : World) :
  w_fs w' = w_fs w -> w_store w' = w_store w -> w_repos w' = w_repos w ->
  w_trace w' = w_trace w -> untouched w w'.
Proof.
  intros F S R T. repeat split; try done.
  - intros d. rewrite R. apply option_same_refl.
  - exists []. by rewrite app_nil_r.
Qed.

Lemma quietly_assert (b : bool) (msg : string) : quietly (assert b msg).
Proof.
  intros w. unfold assert.
  destruct b; cbn; (split; [apply untouched_refl|]); [done | by intros e [= <-]].
Qed.

Lemma quietly_ret {A} (a : A) : quietly (ret a).
Proof. intros w. split; [apply untouched_refl | done]. Qed.

Lemma quietly_task {A} (msg : string) (body : M A) :
  quietly body -> quietly (task msg body).
Proof.
  intros Hb w. destruct (Hb (task_enter msg w)) as [U E]. unfold task.
  change (set_indent _ (log _ false w).2) with (task_enter msg w).
  destruct (body (task_enter msg w)) as [[a|e] w3]; cbn in *.
  - split; [|done].
    apply (untouched_trans _ (task_enter msg w)); [by apply untouched_display|].
    apply (untouched_trans _ w3); [exact U|]. by apply untouched_display.
  - assert (Hw : untouched w w3).
    { apply (untouched_trans _ (task_enter msg w)); [by apply untouched_display|].
      exact U. }
    destruct e; cbn; (split; [eapply untouched_trans; [exact Hw|];
                               by apply untouched_display|]);
      intros e' [= <-]; try done; by apply E.
Qed.

(** The commands of an inspection change nothing in the world but what
    the fetch brings to the repository they run in. *)
Lemma git_query (sub : string) (rest : list string) (d : string) (w : World) :
  is_query_sub sub = true -> (sub = "remote" -> rest = ["update"; "upstream"]) ->
  (git (sub :: rest) d w).2 = w
  \/ exists r r', w_repos w !! d = Some r /\ only_fetched r r'
                  /\ (git (sub :: rest) d w).2 = set_git (w_store w) d r' w.
Proof.
  unfold is_query_sub. intros H Hr.
  repeat (apply orb_true_iff in H as [H|H]); apply String.eqb_eq in H as ->;
    try rewrite (Hr eq_refl); clear Hr;
    unfold git, git_ok; cbn [String.eqb Ascii.eqb Bool.eqb];
    repeat (case_match; try (by left)).
  right. eexists _, _. split; [done|]. split; [|done]. by eapply fetch_only_fetched.
Qed.

Lemma quietly_run (sub : string) (rest : list string) (d : string) :
  is_query_sub sub = true -> (sub = "remote" -> rest = ["update"; "upstream"]) ->
  quietly (run ("git" :: sub :: rest) d).
Proof.
  intros Hq Hup w. rewrite run_git. cbv zeta.
  assert (U : untouched w (record (EvRun ("git" :: sub :: rest) d
                 (git (sub :: rest) d w).1.1.1) (git (sub :: rest) d w).2)).
  { destruct (git_query sub rest d w Hq Hup) as [->|(r & r' & Hr & Hs & ->)].
    - repeat split; try done.
      + intros d'. unfold record; cbn [w_repos]. apply option_same_refl.
      + eexists [_]. split; [done|]. cbn [forallb is_query String.eqb Ascii.eqb Bool.eqb].
        by rewrite Hq.
    - repeat split; try done.
      + intros d'. unfold record, set_git; cbn [w_repos].
        destruct (decide (d = d')) as [<-|Hne].
        * rewrite lookup_insert_eq, Hr. by constructor.
        * rewrite lookup_insert_ne by done. apply option_same_refl.
      + eexists [_]. split; [done|]. cbn [forallb is_query String.eqb Ascii.eqb Bool.eqb].
        by rewrite Hq. }
  destruct (_ =? 0)%Z; cbn [fst snd].
  - split; [done|]. done.
  - split; [|by intros e [= <-]].
    eapply untouched_trans; [exact U|]. by apply untouched_display.
Qed.

Lemma quietly_check_repo_state (repo name : string) :
  quietly (check_repo_state repo name).
Proof.
  unfold check_repo_state.
  apply quietly_bind; [by apply quietly_run|]. intros upstream.
  apply quietly_bind; [apply quietly_assert|]. intros _.
  apply quietly_bind; [by apply quietly_run|]. intros current_branch.
  apply quietly_bind; [apply quietly_assert|]. intros _.
  apply quietly_bind; [by apply quietly_run|]. intros state.
  apply quietly_bind; [apply quietly_assert|]. intros _.
  apply quietly_task.
  apply quietly_bind; [by apply quietly_run|]. intros _.
  apply quietly_bind; [by apply quietly_run|]. intros deviation.
  apply quietly_assert.
Qed.

Lemma quietly_get_repositories : quietly get_repositories.
Proof.
  intros w. unfold get_repositories. cbv zeta.
  generalize (path_parent (w_cwd w) // "toml.io") as website_repo.
  generalize (w_cwd w) as spec_repo. intros spec_repo website_repo.
  revert w. apply quietly_bind; [|intros _; apply quietly_ret].
  apply quietly_task, quietly_bind.
  - apply quietly_task, quietly_check_repo_state.
  - intros _. apply quietly_task, quietly_check_repo_state.
Qed.

Lemma get_version_raises (argv : list string) (e : exn) :
  get_version argv = Raise e -> exists msg, e = AssertionError msg.
Proof.
  unfold get_version. repeat case_match; intros [= <-]; by eauto.
Qed.

(** X5.  A usage error ends the run with status 1 before anything is
    run, written or printed by the script: the world is as it was. *)
Theorem usage_error_touches_nothing (w : World) (e : exn) :
  get_version (w_argv w) = Raise e -> run_main w = (1%Z, w).
Proof.
  intros H. destruct (get_version_raises _ _ H) as [msg ->].
  unfold run_main, main, bind. by rewrite H.
Qed.

(** X10.  The depth of the log is the same after a [task] as before it,
    however its body ends, when the body leaves it as it found it. *)
Theorem task_restores_indent {A} (msg : string) (body : M A) (w : World) :
  (forall w', w_indent (body w').2 = w_indent w') ->
  w_indent (task msg body w).2 = w_indent w.
Proof.
  intros H. unfold task.
  set (w2 := set_indent _ _). specialize (H w2).
  destruct (body w2) as [[a|e] w3]; cbn in *; [by rewrite H|].
  destruct e; cbn; by rewrite H.
Qed.

(** ** The steps of the Release Preparer *)

Lemma performs_change_line (path line : string) (to : list string) :
  performs (do_change_line path line to) [EvChangeLine path line to].
Proof.
  intros w. exists [EvChangeLine path line to]. unfold do_change_line.
  destruct (change_line path line to (w_fs w)) as [fs' [|]];
    [|destruct (w_fs w !! path)]; cbn; (split; [done|]).
  - done.
  - by exists [], (EvChangeLine path line to), [], [EvChangeLine path line to].
  - by exists [], (EvChangeLine path line to), [], [EvChangeLine path line to].
Qed.

Lemma performs_copyfile (src dst : string) :
  performs (copyfile src dst) [EvCopyfile src dst].
Proof.
  intros w. unfold copyfile.
  destruct (w_fs w !! src); [destruct (src =? dst)%string|]; cbn.
  - exists []. rewrite app_nil_r. split; [done|].
    by exists [], (EvCopyfile src dst), [], [].
  - by exists [EvCopyfile src dst].
  - exists []. rewrite app_nil_r. split; [done|].
    by exists [], (EvCopyfile src dst), [], [].
Qed.

Lemma performs_git_commit (message : string) (files : list string) (repo : string) :
  performs (git_commit message files repo)
    [EvRun ("git" :: "add" :: files) repo 0;
     EvRun ["git"; "commit"; "-m"; message] repo 0].
Proof.
  unfold git_commit.
  apply (performs_bind _ _ [_]); [apply performs_run|]. intros _.
  apply (performs_bind _ _ [_] []); [apply performs_run|]. intros _.
  by apply (performs_silent _ tt).
Qed.

Lemma prepare_release_steps (version spec_repo website_repo : string) (w : World) :
  exists evs,
    w_trace (prepare_release version spec_repo website_repo w).2 = w_trace w ++ evs
    /\ attempts (prepare_steps version spec_repo website_repo
                   (w_timestamp w) (w_today w))
         (is_ok (prepare_release version spec_repo website_repo w).1) evs.
Proof.
  unfold prepare_release, prepare_steps. cbv zeta.
  generalize (w_timestamp w) as timestamp. generalize (w_today w) as date.
  intros date timestamp. revert w.
  apply (performs_bind _ _ [_]); [apply performs_run|]. intros _.
  apply (performs_bind _ _ [_]); [apply performs_run|]. intros _.
  apply (performs_bind _ _ [_; _; _]).
  { apply performs_task, (performs_bind _ _ [_]); [apply performs_change_line|].
    intros _. apply performs_git_commit. }
  intros _. apply (performs_bind _ _ [_]); [apply performs_task, performs_run|].
  intros _. apply (performs_bind _ _ [_; _; _]).
  { apply performs_task, (performs_bind _ _ [_]); [apply performs_change_line|].
    intros _. apply performs_git_commit. }
  intros _. apply (performs_bind _ _ [_]); [apply performs_task, performs_copyfile|].
  intros _. apply (performs_bind _ _ [_; _]).
  { apply performs_task, (performs_bind _ _ [_]); [apply performs_change_line|].
    intros _. apply performs_change_line. }
  intros _. apply performs_task, performs_git_commit.
Qed.

(** ** The world after a step that succeeded *)

Lemma run_ok (a : list string) (d out : string) (w w' : World) :
  run ("git" :: a) d w = (Ok out, w') ->
  (git a d w).1.1.1 = 0%Z /\ core w' = core (git a d w).2
  /\ w_timestamp w' = w_timestamp (git a d w).2.
Proof.
  rewrite run_git. cbv zeta.
  destruct (Z.eqb_spec (git a d w).1.1.1 0) as [E|E]; [|done].
  intros [= _ <-]. done.
Qed.

Lemma run_tag_ok (msg name d out : string) (w w' : World) :
  run ["git"; "tag"; "-m"; msg; name] d w = (Ok out, w') ->
  exists r r', w_repos w !! d = Some r /\ git_tag msg name r = Some r'
    /\ core w' = (w_fs w, w_store w, <[d := r']> (w_repos w)).
Proof.
  intros H. apply run_ok in H as (Hrc & Hc & _). revert Hrc Hc.
  unfold git, git_ok, failed, succeeded. cbn [String.eqb Ascii.eqb Bool.eqb fst snd].
  destruct (w_repos w !! d) as [r|]; cbn [fst snd]; [|intros H; discriminate H].
  destruct (git_tag msg name r) as [r'|] eqn:Eg; cbn [fst snd];
    [|intros H; discriminate H]. intros _ ->. by eauto.
Qed.

Lemma run_add_ok (files : list string) (d out : string) (w w' : World) :
  run ("git" :: "add" :: files) d w = (Ok out, w') ->
  exists r r', w_repos w !! d = Some r /\ git_add (w_fs w) d files r = Some r'
    /\ core w' = (w_fs w, w_store w, <[d := r']> (w_repos w)).
Proof.
  intros H. apply run_ok in H as (Hrc & Hc & _). revert Hrc Hc.
  unfold git, git_ok, failed, succeeded. cbn [String.eqb Ascii.eqb Bool.eqb fst snd].
  destruct (w_repos w !! d) as [r|]; cbn [fst snd]; [|intros H; discriminate H].
  destruct (git_add (w_fs w) d files r) as [r'|] eqn:Eg; cbn [fst snd];
    [|intros H; discriminate H].
  intros _ ->. by eauto.
Qed.

Lemma run_commit_ok (msg d out : string) (w w' : World) :
  run ["git"; "commit"; "-m"; msg] d w = (Ok out, w') ->
  exists r store' r', w_repos w !! d = Some r
    /\ git_commit_cmd (w_store w) msg r = Some (store', r')
    /\ core w' = (w_fs w, store', <[d := r']> (w_repos w)).
Proof.
  intros H. apply run_ok in H as (Hrc & Hc & _). revert Hrc Hc.
  unfold git, git_ok, failed, succeeded. cbn [String.eqb Ascii.eqb Bool.eqb fst snd].
  destruct (w_repos w !! d) as [r|]; cbn [fst snd]; [|intros H; discriminate H].
  destruct (git_commit_cmd (w_store w) msg r) as [[store' r']|] eqn:Eg; cbn [fst snd];
    [|intros H; discriminate H].
  intros _ ->. by eauto 10.
Qed.

Lemma git_commit_ok (msg file d : string) (w w' : World) :
  git_commit msg [file] d w = (Ok tt, w') ->
  exists r r1 store' r2, w_repos w !! d = Some r
    /\ git_add (w_fs w) d [file] r = Some r1
    /\ git_commit_cmd (w_store w) msg r1 = Some (store', r2)
    /\ core w' = (w_fs w, store', <[d := r2]> (w_repos w)).
Proof.
  unfold git_commit, bind. intros H.
  destruct (run ("git" :: "add" :: [file]) d w) as [[o1|] w1] eqn:E1; [|done].
  destruct (run ["git"; "commit"; "-m"; msg] d w1) as [[o2|] w2] eqn:E2; [|done].
  injection H as <-.
  apply run_add_ok in E1 as (r & r1 & Hr & Ha & [= F1 S1 R1]).
  apply run_commit_ok in E2 as (r1' & store' & r2 & Hr1 & Hc & [= F2 S2 R2]).
  rewrite R1, lookup_insert_eq in Hr1. injection Hr1 as <-.
  exists r, r1, store', r2. rewrite S1 in Hc. repeat split; try done.
  unfold core. by rewrite F2, F1, S2, R2, R1, insert_insert_eq.
Qed.

Lemma do_change_line_ok (p l : string) (to : list string) (w w' : World) :
  do_change_line p l to w = (Ok tt, w') ->
  exists f, w_fs w !! p = Some f
    /\ core w' = (<[p := mkFile (rewritten l to (f_data f)) (f_mode f)]> (w_fs w),
                  w_store w, w_repos w).
Proof.
  unfold do_change_line. destruct (w_fs w !! p) as [f|] eqn:Hf.
  - destruct (decodes (f_data f)) eqn:Hd.
    + rewrite (change_line_ok _ _ _ _ f Hf Hd). intros [= <-]. by exists f.
    + by rewrite (change_line_undecodable _ _ _ _ f Hf Hd).
  - by rewrite (change_line_missing _ _ _ _ Hf).
Qed.

Lemma copyfile_ok (src dst : string) (w w' : World) :
  copyfile src dst w = (Ok tt, w') ->
  exists fs', core w' = (fs', w_store w, w_repos w)
    /\ forall p, p <> dst -> fs' !! p = w_fs w !! p.
Proof.
  unfold copyfile. destruct (w_fs w !! src) as [f|]; [|done].
  destruct (src =? dst)%string; [done|]. intros [= <-].
  exists (<[dst := mkFile (f_data f)
                     match w_fs w !! dst with
                     | Some d => f_mode d
                     | None => created_mode (w_umask w)
                     end]> (w_fs w)).
  split; [done|]. intros p Hp. by rewrite lookup_insert_ne.
Qed.

Lemma task_ok {A} (msg : string) (body : M A) (a : A) (w w' : World) :
  task msg body w = (Ok a, w') ->
  exists w2, body (task_enter msg w) = (Ok a, w2) /\ core w' = core w2.
Proof.
  unfold task. change (set_indent _ (log _ false w).2) with (task_enter msg w).
  destruct (body (task_enter msg w)) as [[a'|[]] w3]; try done.
  intros [= <- <-]. by exists w3.
Qed.

(** ** What the git operations do to a repository *)

Lemma git_tag_spec (msg name : string) (r r' : Repo) :
  git_tag msg name r = Some r' ->
  exists c, head_commit r = Some c /\ g_tags r !! name = None
    /\ g_tags r' = <[name := mkTag msg c]> (g_tags r)
    /\ head_commit r' = head_commit r.
Proof.
  unfold git_tag. destruct (g_tags r !! name); [done|].
  destruct (head_commit r) as [c|] eqn:Hc; [|done]. intros [= <-].
  exists c. repeat split; try done.
Qed.

Lemma git_add_spec (fs : FileSystem) (d file : string) (r r1 : Repo) (f : File) :
  git_add fs d [file] r = Some r1 -> fs !! abs_path d file = Some f ->
  g_tags r1 = g_tags r /\ head_commit r1 = head_commit r
  /\ g_index r1 !! abs_path d file = Some (f_data f).
Proof.
  unfold git_add. case_match; [|done]. intros [= <-] Hf. cbn.
  rewrite Hf, lookup_insert_eq. done.
Qed.

Lemma git_add_tags (fs : FileSystem) (d : string) (files : list string) (r r1 : Repo) :
  git_add fs d files r = Some r1 ->
  g_tags r1 = g_tags r /\ head_commit r1 = head_commit r.
Proof. unfold git_add. case_match; [|done]. by intros [= <-]. Qed.

Lemma head_commit_set_head (r : Repo) (c : nat) : head_commit (set_head r c) = Some c.
Proof.
  unfold set_head, head_commit. destruct (g_head r) eqn:E; cbn; rewrite ?E; [|done].
  apply lookup_insert_eq.
Qed.

Lemma git_commit_spec (store store' : list Commit) (msg : string) (r1 r2 : Repo) :
  git_commit_cmd store msg r1 = Some (store', r2) ->
  store' = store ++ [mkCommit (match head_commit r1 with
                                | Some c => [c]
                                | None => []
                                end) msg (g_index r1)]
  /\ head_commit r2 = Some (length store) /\ g_tags r2 = g_tags r1.
Proof.
  unfold git_commit_cmd. case_match; [done|]. intros [= <- <-].
  split; [done|]. split; [apply head_commit_set_head|].
  unfold set_head. by destruct (g_head r1).
Qed.

Lemma abs_path_absolute (d p : string) : String.prefix "/" p = true -> abs_path d p = p.
Proof. unfold abs_path. by intros ->. Qed.

Lemma path_join_absolute (d name : string) :
  String.prefix "/" d = true -> String.prefix "/" (d // name) = true.
Proof.
  intros H. unfold path_join. destruct (d =? "/")%string.
  { change ("/" +:+ name) with (String "/" name). cbn [String.prefix].
    destruct (Ascii.ascii_dec "/" "/") as [|n]; [by destruct name | by destruct n]. }
  destruct d as [|c d]; [done|].
  change (String c d +:+ "/" +:+ name) with (String c (d +:+ "/" +:+ name)).
  cbn [String.prefix] in *. destruct (Ascii.ascii_dec "/" c); [|done].
  by destruct (d +:+ "/" +:+ name).
Qed.

(** One more step of a computation known to succeed: [H] says that a
    sequence starting with [m w] returns; name what [m w] returns. *)
Ltac next H x w' E :=
  match type of H with
  | (match ?m ?w with _ => _ end) = _ =>
      destruct (m w) as [[x|?] w'] eqn:E; [|discriminate H]
  end.

Theorem release_tag_points_at_release_commit
    (version spec_repo website_repo : string) (w w' : World) :
  String.prefix "/" spec_repo = true ->
  prepare_release version spec_repo website_repo w = (Ok tt, w') ->
  let changelog := spec_repo // "CHANGELOG.md" in
  let heading := "## " +:+ version +:+ " / " +:+ w_today w in
  exists (r : Repo) (c : nat) (release bump : Commit) (f : File),
    w_repos w' !! spec_repo = Some r
    /\ g_tags r !! version = Some (mkTag ("Release v" +:+ version) c)
    /\ w_store w' !! c = Some release
    /\ c_message release = "Release v" +:+ version
    /\ w_fs w !! changelog = Some f
    /\ c_tree release !! changelog
       = Some (rewritten "## unreleased" [heading] (f_data f))
    /\ w_store w' !! S c = Some bump
    /\ c_message bump = "Bump for development"
    /\ c_parents bump = [c]
    /\ c_tree bump !! changelog
       = Some (rewritten heading ["## unreleased"; ""; "Nothing."; ""; heading]
                 (rewritten "## unreleased" [heading] (f_data f)))
    /\ head_commit r = Some (S c).
Proof.
  intros Habs H changelog heading.
  assert (Hcl : abs_path spec_repo changelog = changelog).
  { apply abs_path_absolute. by apply path_join_absolute. }
  unfold prepare_release in H. cbv zeta in H. fold changelog heading in H.
  unfold bind in H.
  (* backup tags *)
  next H o1 w1 E1. apply run_tag_ok in E1 as (r0 & ra & Hr0 & Ta & [= F1 S1 R1]).
  next H o2 w2 E2. apply run_tag_ok in E2 as (rw0 & rwa & Hrw0 & Twa & [= F2 S2 R2]).
  assert (Hne : spec_repo <> website_repo).
  { intros <-. rewrite R1, lookup_insert_eq in Hrw0. injection Hrw0 as <-.
    apply git_tag_spec in Ta as (c0 & _ & _ & Tg & _).
    apply git_tag_spec in Twa as (c1 & _ & Tn & _).
    by rewrite Tg, lookup_insert_eq in Tn. }
  (* release edit and commit *)
  next H u3 w3 E3. destruct u3.
  apply task_ok in E3 as (w3' & E3 & [= F3 S3 R3]). unfold bind in E3.
  next E3 u3a w3a E3a. destruct u3a.
  apply do_change_line_ok in E3a as (f & Hf & [= F3a S3a R3a]).
  apply git_commit_ok in E3
    as (rb0 & rb & store1 & rc & Hrb0 & Ab & Cb & [= F3' S3' R3']).
  (* release tag *)
  next H o4 w4 E4. apply task_ok in E4 as (w4' & E4 & [= F4 S4 R4]).
  apply run_tag_ok in E4 as (rc' & rd & Hrc' & Td & [= F4' S4' R4']).
  (* development edit and commit *)
  next H u5 w5 E5. destruct u5.
  apply task_ok in E5 as (w5' & E5 & [= F5 S5 R5]). unfold bind in E5.
  next E5 u5a w5a E5a. destruct u5a.
  apply do_change_line_ok in E5a as (f1 & Hf1 & [= F5a S5a R5a]).
  apply git_commit_ok in E5
    as (re0 & re & store2 & rf & Hre0 & Ae & Ce & [= F5' S5' R5']).
  (* website *)
  next H u6 w6 E6. destruct u6. apply task_ok in E6 as (w6' & E6 & [= F6 S6 R6]).
  apply copyfile_ok in E6 as (fs6 & [= F6' S6' R6'] & _).
  next H u7 w7 E7. destruct u7.
  apply task_ok in E7 as (w7' & E7 & [= F7 S7 R7]). unfold bind in E7.
  next E7 u7a w7a E7a. destruct u7a.
  apply do_change_line_ok in E7a as (f7 & _ & [= F7a S7a R7a]).
  apply do_change_line_ok in E7 as (f7' & _ & [= F7' S7' R7']).
  apply task_ok in H as (w8' & E8 & [= F8 S8 R8]).
  apply git_commit_ok in E8
    as (rg0 & rg & store3 & rh & Hrg0 & Ag & Cg & [= F8' S8' R8']).
  unfold task_enter in *; cbn [w_fs w_store w_repos set_indent set_out] in *.
  (* the spec repository, step by step *)
  rewrite F2, F1 in Hf.
  rewrite R3a, R2, R1, lookup_insert_ne, lookup_insert_eq in Hrb0 by done.
  injection Hrb0 as <-.
  rewrite S3a, S2, S1 in Cb.
  assert (Hf3a : w_fs w3a !! abs_path spec_repo changelog
                 = Some (mkFile (rewritten "## unreleased" [heading] (f_data f))
                           (f_mode f))).
  { by rewrite Hcl, F3a, lookup_insert_eq. }
  destruct (git_add_spec _ _ _ _ _ _ Ab Hf3a) as (Tb & Hb & Ib).
  rewrite Hcl in Ib. cbn [f_data] in Ib.
  apply git_commit_spec in Cb as (-> & Hc & Tc).
  rewrite R3, R3', lookup_insert_eq in Hrc'. injection Hrc' as <-.
  apply git_tag_spec in Td as (c & Hc' & _ & Td & Hd).
  rewrite Hc in Hc'. injection Hc' as <-.
  rewrite F4, F4', F3, F3', F3a, lookup_insert_eq in Hf1. injection Hf1 as <-.
  rewrite R5a, R4, R4', lookup_insert_eq in Hre0. injection Hre0 as <-.
  rewrite S5a, S4, S4', S3, S3' in Ce.
  assert (Hf5a : w_fs w5a !! abs_path spec_repo changelog
                 = Some (mkFile
                     (rewritten heading ["## unreleased"; ""; "Nothing."; ""; heading]
                        (rewritten "## unreleased" [heading] (f_data f)))
                     (f_mode f))).
  { by rewrite Hcl, F5a, lookup_insert_eq. }
  destruct (git_add_spec _ _ _ _ _ _ Ae Hf5a) as (Te & He & Ie).
  rewrite Hcl in Ie. cbn [f_data] in Ie.
  apply git_commit_spec in Ce as (-> & Hf' & Tf).
  apply git_commit_spec in Cg as (-> & _ & _).
  rewrite S7, S7', S7a, S6, S6', S5, S5' in S8'.
  (* the answer *)
  exists rf, (length (w_store w)),
    (mkCommit match head_commit rb with Some c => [c] | None => [] end
       ("Release v" +:+ version) (g_index rb)),
    (mkCommit match head_commit re with Some c => [c] | None => [] end
       "Bump for development" (g_index re)), f.
  split.
  { rewrite R8, R8', lookup_insert_ne by done.
    rewrite R7, R7', R7a, R6, R6', R5, R5'. apply lookup_insert_eq. }
  split. { by rewrite Tf, Te, Td, lookup_insert_eq. }
  split.
  { rewrite S8, S8', <- !app_assoc. rewrite lookup_app_r by done.
    by rewrite Nat.sub_diag. }
  split; [done|]. split; [done|]. split; [done|]. split.
  { rewrite S8, S8', <- !app_assoc. rewrite lookup_app_r by lia.
    by replace (S (length (w_store w)) - length (w_store w)) with 1 by lia. }
  split; [done|]. split. { cbn. by rewrite He, Hd, Hc. }
  split; [done|]. rewrite Hf', length_app. cbn. f_equal. lia.
Qed.

(** C6.  When [prepare_release] succeeds (the spec repository given by
    an absolute path), its steps are those of [prepare_steps] in their
    order, where the tag [<version>] is created after the commit
    [Release v<version>] and before the commit [Bump for development];
    the tag carries the message [Release v<version>] and points at the
    commit of that message, whose changelog is the one with the dated
    heading in place of the marker; the development commit is its child
    and the head of the branch. *)
Theorem release_tag_between_commits
    (version spec_repo website_repo : string) (w w' : World) :
  String.prefix "/" spec_repo = true ->
  prepare_release version spec_repo website_repo w = (Ok tt, w') ->
  tag_on_release_commit version spec_repo website_repo w w'.
Proof.
  intros Habs H. split.
  - destruct (prepare_release_steps version spec_repo website_repo w)
      as (evs & E & A).
    rewrite H in E, A. cbn in E, A. by rewrite E, A.
  - exact (release_tag_points_at_release_commit _ _ website_repo _ _ Habs H).
Qed.

(** The preparation of the sample release. *)
Lemma release_tag_between_commits_witness :
  let w := Sample.ready in
  let w' := (prepare_release "1.2.3" "/w/toml" "/w/toml.io" w).2 in
  String.prefix "/" "/w/toml" = true
  /\ prepare_release "1.2.3" "/w/toml" "/w/toml.io" w = (Ok tt, w')
  /\ tag_on_release_commit "1.2.3" "/w/toml" "/w/toml.io" w w'.
Proof.
  intros w w'.
  assert (H1 : (prepare_release "1.2.3" "/w/toml" "/w/toml.io" w).1 = Ok tt).
  { by vm_compute. }
  assert (H : prepare_release "1.2.3" "/w/toml" "/w/toml.io" w = (Ok tt, w')).
  { subst w'. rewrite <- H1. apply surjective_pairing. }
  split; [reflexivity|]. split; [exact H|].
  exact (release_tag_between_commits "1.2.3" "/w/toml" "/w/toml.io" w w' eq_refl H).
Defined.

(** A stray file in the website's working tree stops the run at
    the third inspection of that repository, and the report lists it. *)
Example dirty_website_report :
  last (w_out (run_main Sample.dirty_website).2)
  = Some (true, 2, "ERROR: Dirty working directory" +:+ NL
                   +:+ "?? notes.txt").
Proof. by vm_compute. Qed.

(** The release edit of the sample changelog where the temporary file
    has to be copied, in two blocks and under the umask 0o022: cut short
    after five operations, and run to its end. *)
Lemma change_line_crash_witness :
  let path := "/w/toml/CHANGELOG.md" in
  let given := mkFile Sample.changelog 420 in
  let new := rewritten "## unreleased" ["## 1.2.3 / 2024-01-02"] Sample.changelog in
  let blocks := [String.substring 0 64 new; String.substring 64 (String.length new) new] in
  let steps := change_line_steps (Some (18%N, blocks)) (mkstemp_name Sample.fs path)
                 path "## unreleased" ["## 1.2.3 / 2024-01-02"] given in
  Sample.fs !! path = Some given
  /\ concat_str blocks = new
  /\ decodes Sample.changelog = true
  /\ (run_ops (take 5 steps) Sample.fs).1 !! path = Some given
  /\ run_ops steps Sample.fs = (<[path := mkFile new 420]> Sample.fs, true).
Proof.
  intros path given new blocks steps.
  assert (H : Sample.fs !! path = Some given) by (by vm_compute).
  assert (Hb : concat_str blocks = new) by (by vm_compute).
  assert (Hd : decodes Sample.changelog = true) by (by vm_compute).
  destruct (change_line_crash Sample.fs path "## unreleased"
              ["## 1.2.3 / 2024-01-02"] given (Some (18%N, blocks)) 5 H)
    as (_ & _ & Hrun).
  { intros umask blocks' [= _ <-]. exact Hb. }
  destruct (Hrun Hd) as (_ & Hdone & _ & Hcrash & _).
  split; [exact H|]. split; [exact Hb|]. split; [exact Hd|].
  split; [|exact Hdone]. apply Hcrash. vm_compute. lia.
Defined.

(** The same edit cut short after the original has been removed.  Where
    the temporary file is renamed, the thirteenth of the fourteen
    operations leaves no file at the path of the changelog.  Where it
    is copied, the sixteenth of nineteen leaves there the first block of
    the new text.  In both cases the caller finds neither the old
    changelog nor the new one. *)
Lemma edit_cut_short_loses_file :
  let path := "/w/toml/CHANGELOG.md" in
  let given := mkFile Sample.changelog 420 in
  let tmp := mkstemp_name Sample.fs path in
  let new := rewritten "## unreleased" ["## 1.2.3 / 2024-01-02"] Sample.changelog in
  let ops := change_line_ops tmp path "## unreleased" ["## 1.2.3 / 2024-01-02"] given in
  let blocks := [String.substring 0 64 new; String.substring 64 (String.length new) new] in
  let steps := change_line_steps (Some (18%N, blocks)) tmp path "## unreleased"
                 ["## 1.2.3 / 2024-01-02"] given in
  length ops = 14 /\ length steps = 19
  /\ ((run_ops (take 13 ops) Sample.fs).2 = true
      /\ (run_ops (take 13 ops) Sample.fs).1 !! path = None
      /\ (run_ops (take 13 ops) Sample.fs).1 !! tmp = Some (mkFile new 420))
  /\ ((run_ops (take 16 steps) Sample.fs).2 = true
      /\ (run_ops (take 16 steps) Sample.fs).1 !! path
         = Some (mkFile (unlines ["# Changelog"; ""; "## 1.2.3 / 2024-01-02"; "";
                                  "- Clarify dates."; ""] +:+ "## 1.0.0 /") 420)).
Proof. repeat split; by vm_compute. Qed.

(** The unreleased marker is no line of the sample document. *)
Lemma change_line_zero_match_witness :
  let fs := Sample.fs in
  let path := "/w/toml/toml.md" in
  fs !! path = Some (mkFile Sample.toml_md 420)
  /\ decodes Sample.toml_md = true
  /\ str_has CR Sample.toml_md = false
  /\ ("## unreleased" ∉ lines_of Sample.toml_md)
  /\ change_line path "## unreleased" ["## 1.2.3 / 2024-01-02"] fs = (fs, true).
Proof.
  intros fs path.
  assert (H1 : fs !! path = Some (mkFile Sample.toml_md 420)) by (by vm_compute).
  assert (H0 : decodes Sample.toml_md = true) by (by vm_compute).
  assert (H2 : str_has CR Sample.toml_md = false) by (by vm_compute).
  assert (H3 : "## unreleased" ∉ lines_of Sample.toml_md).
  { apply (bool_decide_unpack _). by vm_compute. }
  split; [exact H1|]. split; [exact H0|]. split; [exact H2|]. split; [exact H3|].
  exact (change_line_zero_match fs path "## unreleased" ["## 1.2.3 / 2024-01-02"]
           (mkFile Sample.toml_md 420) H1 H0 H2 H3).
Defined.

(** Two files in which no line matches and which do not pass through.
    A document with CR LF line ends comes out with LF line ends: its
    bytes are not those of the original.  A document with a byte that
    begins no character (0xFF) is refused: the edit raises, and the
    temporary file it had created stays. *)
Lemma zero_match_is_no_passthrough :
  let md := "/w/toml/toml.md" in
  let data := "TOML" +:+ String CR NL +:+ "====" +:+ String CR NL in
  let fs := {[ md := mkFile data 420 ]} in
  let stray := "TOML" +:+ NL +:+ String "255" NL in
  let fs' := {[ md := mkFile stray 420 ]} in
  (("## unreleased" ∉ lines_of data)
   /\ (change_line md "## unreleased" ["## 1.2.3 / 2024-01-02"] fs).1 !! md
      = Some (mkFile ("TOML" +:+ NL +:+ "====" +:+ NL) 420)
   /\ "TOML" +:+ NL +:+ "====" +:+ NL <> data)
  /\ (("## unreleased" ∉ lines_of stray)
      /\ str_has CR stray = false
      /\ (change_line md "## unreleased" ["## 1.2.3 / 2024-01-02"] fs').2 = false
      /\ (do_change_line md "## unreleased" ["## 1.2.3 / 2024-01-02"]
            (set_fs fs' Sample.ready)).1 = Raise UnicodeDecodeError
      /\ size (change_line md "## unreleased" ["## 1.2.3 / 2024-01-02"] fs').1 = 2).
Proof.
  split; [split; [|split] | split; [|split; [|split; [|split]]]].
  - apply (bool_decide_unpack _). by vm_compute.
  - by vm_compute.
  - by vm_compute.
  - apply (bool_decide_unpack _). by vm_compute.
  - by vm_compute.
  - by vm_compute.
  - by vm_compute.
  - by vm_compute.
Qed.

(** The two edits of a changelog whose last line has no terminator. *)
Lemma changelog_round_trip_witness :
  let path := "/w/toml/CHANGELOG.md" in
  let data := unlines ["# Changelog"; ""; "## unreleased"; ""] +:+ "- Clarify dates." in
  let fs := {[ path := mkFile data 420 ]} in
  let heading := release_heading "1.2.3" "2024-01-02" in
  let fs1 := (change_line path "## unreleased" [heading] fs).1 in
  let fs2 := (change_line path heading (development_section heading) fs1).1 in
  exists g, fs2 = <[path := g]> fs /\ f_mode g = 420%N
    /\ text_lines (f_data g)
       = ["# Changelog"; ""; "## unreleased"; ""; "Nothing."; "";
          "## 1.2.3 / 2024-01-02"; ""; "- Clarify dates."].
Proof.
  intros path data fs heading fs1 fs2.
  destruct (changelog_round_trip fs path "1.2.3" "2024-01-02" (mkFile data 420))
    as (g & Hg & Hm & Hl).
  - by vm_compute.
  - by vm_compute.
  - apply (bool_decide_unpack _). by vm_compute.
  - apply (bool_decide_unpack _). by vm_compute.
  - by vm_compute.
  - by vm_compute.
  - by vm_compute.
  - exists g. split; [exact Hg|]. split; [exact Hm|]. rewrite Hl. by vm_compute.
Defined.

(** Four changelogs with the marker on which the two edits do not give
    what the round trip promises.  One that already has the release
    heading as a line: the development edit expands both occurrences, so
    a line other than the marker has changed.  One that ends in the
    marker without a line terminator: neither edit touches it.  One
    edited for a version with a line feed at its end, which
    [get_version] lets through: the heading is written as two lines and
    the development edit finds no line to expand, so the marker is gone.
    One with a byte that begins no character: the release edit
    raises. *)
Lemma changelog_round_trip_fails :
  let path := "/w/toml/CHANGELOG.md" in
  let round_trip (version data : string) :=
    let heading := release_heading version "2024-01-02" in
    let fs := {[ path := mkFile data 420 ]} in
    let fs1 := (change_line path "## unreleased" [heading] fs).1 in
    let fs2 := (change_line path heading (development_section heading) fs1).1 in
    text_lines <$> (f_data <$> fs2 !! path) in
  let promised (version data : string) :=
    replace_lines "## unreleased"
      (development_section (release_heading version "2024-01-02")) (text_lines data) in
  let dated := unlines ["## unreleased"; ""; "- New."; "";
                        "## 1.2.3 / 2024-01-02"; ""; "- Old."] in
  let open := unlines ["# Changelog"; ""] +:+ "## unreleased" in
  let plain := unlines ["## unreleased"; ""; "- New."] in
  let stray := unlines ["## unreleased"; ""; String "255" ""] in
  (promised "1.2.3" dated
   = ["## unreleased"; ""; "Nothing."; ""; "## 1.2.3 / 2024-01-02"; "";
      "- New."; ""; "## 1.2.3 / 2024-01-02"; ""; "- Old."]
   /\ round_trip "1.2.3" dated
      = Some ["## unreleased"; ""; "Nothing."; ""; "## 1.2.3 / 2024-01-02"; "";
              "- New."; "";
              "## unreleased"; ""; "Nothing."; ""; "## 1.2.3 / 2024-01-02"; "";
              "- Old."])
  /\ (promised "1.2.3" open
      = ["# Changelog"; ""; "## unreleased"; ""; "Nothing."; "";
         "## 1.2.3 / 2024-01-02"]
      /\ round_trip "1.2.3" open = Some ["# Changelog"; ""; "## unreleased"])
  /\ (get_version ["release.py"; "1.2.3" +:+ NL] = Ok ("1.2.3" +:+ NL)
      /\ promised ("1.2.3" +:+ NL) plain
         = ["## unreleased"; ""; "Nothing."; "";
            "## 1.2.3" +:+ NL +:+ " / 2024-01-02"; ""; "- New."]
      /\ round_trip ("1.2.3" +:+ NL) plain
         = Some ["## 1.2.3"; " / 2024-01-02"; ""; "- New."])
  /\ (do_change_line path "## unreleased" [release_heading "1.2.3" "2024-01-02"]
        (set_fs {[ path := mkFile stray 420 ]} Sample.ready)).1
     = Raise UnicodeDecodeError.
Proof.
  repeat split; by vm_compute.
Qed.

(** ** The sample release *)

(** The sample release runs to its end: the changelog has the
    dated heading below a fresh unreleased section, and the website has
    the document under its versioned name with the new title. *)
Example sample_release :
  (run_main Sample.ready).1 = 0%Z
  /\ f_data <$> w_fs (run_main Sample.ready).2 !! "/w/toml/CHANGELOG.md"
     = Some (unlines ["# Changelog"; ""; "## unreleased"; ""; "Nothing."; "";
                      "## 1.2.3 / 2024-01-02"; ""; "- Clarify dates."; "";
                      "## 1.0.0 / 2021-01-11"; ""; "- First release."])
  /\ f_data <$> w_fs (run_main Sample.ready).2 !! "/w/toml.io/specs/en/v1.2.3.md"
     = Some (unlines ["TOML v1.2.3"; "==========="; "";
                      "Tom's Obvious, Minimal Language."]).
Proof. vm_compute. done. Qed.

(** C1.  A local branch one commit ahead of upstream passes the fourth
    check: the range the script asks for, [main..upstream/main], lists
    what upstream has and the local branch lacks, which is nothing,
    while the symmetric difference [main...upstream/main] lists the
    local commit. *)
Example local_ahead_passes_check :
  let w' := (check_repo_state "/w/toml" "toml" Sample.ahead).2 in
  (check_repo_state "/w/toml" "toml" Sample.ahead).1 = Ok tt
  /\ (w_repos w' !! "/w/toml" ≫= fun r =>
        rev_list (w_store w') r "main..upstream/main") = Some []
  /\ (w_repos w' !! "/w/toml" ≫= fun r =>
        rev_list (w_store w') r "main...upstream/main") = Some ["<commit2"].
Proof. vm_compute. done. Qed.

(** C2.  A last line without a line feed is copied even when its
    content is the match value: the underline [====] that ends the file
    stays, where the contract asks for its replacement. *)
Example unterminated_last_line_is_kept :
  let data := "TOML" +:+ NL +:+ "====" in
  let fs := {[ "/w/toml.io/specs/en/v1.0.0.md" := mkFile data 420 ]} in
  lines_of data = ["TOML"; "===="]
  /\ replace_lines "====" ["==========="] (lines_of data) = ["TOML"; "==========="]
  /\ change_line "/w/toml.io/specs/en/v1.0.0.md" "====" ["==========="] fs = (fs, true).
Proof.
  intros data fs. split; [by vm_compute|]. split; [by vm_compute|].
  assert (Hf : fs !! "/w/toml.io/specs/en/v1.0.0.md" = Some (mkFile data 420))
    by apply lookup_singleton_eq.
  assert (E : rewritten "====" ["==========="] data = data) by (by vm_compute).
  rewrite (change_line_ok fs _ _ _ _ Hf) by (by vm_compute).
  cbn [f_data f_mode]. rewrite E.
  by rewrite insert_id.
Qed.

(** ** More samples *)

Lemma usage_error_touches_nothing_witness :
  let w := mkWorld Sample.fs Sample.store (w_repos Sample.ready) "/w/toml" 18
             ["release.py"; "1.2.3+build"] 1700000000 "2024-01-02" [""] [] 0 [] in
  get_version (w_argv w)
  = Raise (AssertionError "Shouldn't have build metadata in version.")
  /\ run_main w = (1%Z, w).
Proof.
  intros w.
  assert (H : get_version (w_argv w)
              = Raise (AssertionError "Shouldn't have build metadata in version."))
    by (by vm_compute).
  split; [exact H|]. exact (usage_error_touches_nothing w _ H).
Defined.

Lemma change_line_window_witness :
  let path := "/w/toml/CHANGELOG.md" in
  let given := mkFile Sample.changelog 420 in
  Sample.fs !! path = Some given
  /\ (run_ops (take (4 + length (tmp_writes "## unreleased" ["## 1.2.3 / 2024-01-02"]
                                  (read_text (f_data given))))
                 (change_line_ops (mkstemp_name Sample.fs path) path "## unreleased"
                    ["## 1.2.3 / 2024-01-02"] given)) Sample.fs).1 !! path = None.
Proof.
  intros path given.
  assert (H : Sample.fs !! path = Some given) by (by vm_compute).
  split; [exact H|].
  exact (change_line_window Sample.fs path "## unreleased" ["## 1.2.3 / 2024-01-02"]
           given H).
Defined.

Lemma change_line_replaces_lines_witness :
  let path := "/w/toml.io/specs/en/v1.0.0.md" in
  let data := "TOML" +:+ String CR NL +:+ "====" +:+ String CR "" +:+ "====" in
  let fs := {[ path := mkFile data 420 ]} in
  fs !! path = Some (mkFile data 420)
  /\ decodes data = true
  /\ read_text data = unlines ["TOML"; "===="] +:+ "===="
  /\ change_line path "====" ["==="; "=="] fs
     = (<[path := mkFile (unlines ["TOML"; "==="; "=="] +:+ "====") 420]> fs, true).
Proof.
  intros path data fs.
  assert (H1 : fs !! path = Some (mkFile data 420)) by apply lookup_singleton_eq.
  assert (H0 : decodes data = true) by (by vm_compute).
  assert (H2 : read_text data = unlines ["TOML"; "===="] +:+ "====") by (by vm_compute).
  split; [exact H1|]. split; [exact H0|]. split; [exact H2|].
  apply (change_line_replaces_lines fs path "====" ["==="; "=="] ["TOML"; "===="]
           "====" (mkFile data 420) H1 H0 H2); by repeat constructor.
Defined.

(** The title of the published document for version 9.9.9: the
    text line names the version and the underline has its eleven
    characters. *)
Example title_rewrite_9_9_9 :
  let md := "/w/toml.io/specs/en/v9.9.9.md" in
  let new_heading := "TOML v" +:+ "9.9.9" in
  let fs := {[ md := mkFile Sample.toml_md 420 ]} in
  let fs1 := (change_line md "TOML" [new_heading] fs).1 in
  let fs2 := (change_line md "====" [repeat_chr "=" (py_len new_heading)] fs1).1 in
  fs2 !! md = Some (mkFile (unlines ["TOML v9.9.9"; "==========="; "";
                                     "Tom's Obvious, Minimal Language."]) 420)
  /\ String.length "===========" = 11.
Proof. by vm_compute. Qed.

Lemma task_restores_indent_witness :
  (forall w', w_indent ((assert false "no" : M unit) w').2 = w_indent w')
  /\ w_indent (task "toml" (assert false "no") Sample.ready).2 = w_indent Sample.ready.
Proof.
  assert (H : forall w', w_indent ((assert false "no" : M unit) w').2 = w_indent w')
    by done.
  split; [exact H|]. exact (task_restores_indent "toml" _ Sample.ready H).
Defined.

(** The commands of the sample release, in order: five inspections
    of each repository, the backup tags, the release commit, the release
    tag, the development commit, the copy and its two edits, the
    website's commit, the prompt, and the four pushes. *)
Example sample_release_history :
  w_trace (run_main Sample.ready).2
  = [ EvRun ["git"; "config"; "--get"; "remote.upstream.url"] "/w/toml" 0;
      EvRun ["git"; "branch"; "--show-current"] "/w/toml" 0;
      EvRun ["git"; "status"; "--porcelain"] "/w/toml" 0;
      EvRun ["git"; "remote"; "update"; "upstream"] "/w/toml" 0;
      EvRun ["git"; "rev-list"; "main..upstream/main"; "--left-right"] "/w/toml" 0;
      EvRun ["git"; "config"; "--get"; "remote.upstream.url"] "/w/toml.io" 0;
      EvRun ["git"; "branch"; "--show-current"] "/w/toml.io" 0;
      EvRun ["git"; "status"; "--porcelain"] "/w/toml.io" 0;
      EvRun ["git"; "remote"; "update"; "upstream"] "/w/toml.io" 0;
      EvRun ["git"; "rev-list"; "main..upstream/main"; "--left-right"] "/w/toml.io" 0 ]
    ++ prepare_steps "1.2.3" "/w/toml" "/w/toml.io" 1700000000 "2024-01-02"
    ++ [EvInput]
    ++ pushes "1.2.3" "/w/toml" "/w/toml.io".
Proof. by vm_compute. Qed.

(** What the sample release publishes: both remotes of the spec
    repository get the development commit as [main] and the release tag
    on the release commit, both remotes of the website get its new
    commit, and the backup tags stay local. *)
Example sample_release_published :
  let w := (run_main Sample.ready).2 in
  commit_messages w
  = ["Initial commit"; "Initial commit"; "Release v1.2.3"; "Bump for development";
     "Release v1.2.3"]
  /\ remote_refs w "/w/toml" "origin" = Some ([("main", 3)], [("1.2.3", 2)])
  /\ remote_refs w "/w/toml" "upstream" = Some ([("main", 3)], [("1.2.3", 2)])
  /\ remote_refs w "/w/toml.io" "origin" = Some ([("main", 4)], [])
  /\ remote_refs w "/w/toml.io" "upstream" = Some ([("main", 4)], []).
Proof. by vm_compute. Qed.

(** A wrong upstream URL stops the run at the first inspection. *)
Example wrong_upstream_report :
  (run_main Sample.forked).1 = 1%Z
  /\ w_out (run_main Sample.forked).2
     = [(false, 0, "Checking repositories..."); (false, 1, "toml...");
        (true, 2, "ERROR: Got incorrect upstream repo: git@github.com:me/toml.git")]
  /\ w_trace (run_main Sample.forked).2
     = [EvRun ["git"; "config"; "--get"; "remote.upstream.url"] "/w/toml" 0].
Proof. by vm_compute. Qed.

(** A branch other than [main] and [master] stops the run at the
    second inspection; the report is the branch's name. *)
Example wrong_branch_report :
  (run_main Sample.on_topic).1 = 1%Z
  /\ w_out (run_main Sample.on_topic).2
     = [(false, 0, "Checking repositories..."); (false, 1, "toml...");
        (true, 2, "ERROR: topic")]
  /\ w_trace (run_main Sample.on_topic).2
     = [EvRun ["git"; "config"; "--get"; "remote.upstream.url"] "/w/toml" 0;
        EvRun ["git"; "branch"; "--show-current"] "/w/toml" 0].
Proof. by vm_compute. Qed.

(** A local branch behind upstream stops the run at the fourth
    inspection, with the commits it lacks in the report. *)
Example behind_upstream_report :
  (run_main Sample.behind).1 = 1%Z
  /\ last (w_out (run_main Sample.behind).2)
     = Some (true, 3, "ERROR: Local branch deviates from upstream" +:+ NL
                      +:+ ">commit2")
  /\ last (w_trace (run_main Sample.behind).2)
     = Some (EvRun ["git"; "rev-list"; "main..upstream/main"; "--left-right"]
               "/w/toml" 0).
Proof. by vm_compute. Qed.

(** Without an answer to the prompt nothing is pushed: the
    preparation is complete, the run ends with status 1, and the remotes
    are where they were. *)
Example no_confirmation_no_push :
  let w := (run_main Sample.unattended).2 in
  (run_main Sample.unattended).1 = 1%Z
  /\ w_trace w = take 24 (w_trace (run_main Sample.ready).2)
  /\ last (w_out w) = Some (false, 0, "Press enter when ready.")
  /\ commit_messages w = commit_messages (run_main Sample.ready).2
  /\ remote_refs w "/w/toml" "origin" = Some ([("main", 0)], [])
  /\ remote_refs w "/w/toml" "upstream" = Some ([("main", 0)], [])
  /\ remote_refs w "/w/toml.io" "origin" = Some ([("main", 1)], [])
  /\ remote_refs w "/w/toml.io" "upstream" = Some ([("main", 1)], []).
Proof. by vm_compute. Qed.

(** A second run after a preparation that was not published
    passes the inspections of both repositories, edits and commits the
    changelog once more, and stops at the release tag, which exists;
    the report shows the command and what it printed. *)
Example second_run_stops_at_release_tag :
  let w := run_main (Sample.again (run_main Sample.unattended).2) in
  w.1 = 1%Z
  /\ drop 10 (w_trace w.2)
     = [ EvRun ["git"; "tag"; "-m"; "backup"; "backup/1700000060"] "/w/toml" 0;
         EvRun ["git"; "tag"; "-m"; "backup"; "backup/1700000060"] "/w/toml.io" 0;
         EvChangeLine "/w/toml/CHANGELOG.md" "## unreleased" ["## 1.2.3 / 2024-01-02"];
         EvRun ["git"; "add"; "/w/toml/CHANGELOG.md"] "/w/toml" 0;
         EvRun ["git"; "commit"; "-m"; "Release v1.2.3"] "/w/toml" 0;
         EvRun ["git"; "tag"; "-m"; "Release v1.2.3"; "1.2.3"] "/w/toml" 128 ]
  /\ drop 8 (w_out w.2)
     = [ (false, 2, "$ git tag -m Release v1.2.3 1.2.3");
         (false, 2, banner "stdout"); (false, 2, "<nothing>");
         (false, 2, banner "stderr"); (false, 2, "fatal: tag already exists");
         (true, 2, "ERROR: Exited with non-zero exit code: 128") ]
  /\ commit_messages w.2
     = ["Initial commit"; "Initial commit"; "Release v1.2.3"; "Bump for development";
        "Release v1.2.3"; "Release v1.2.3"].
Proof. by vm_compute. Qed.

(** ** The run as a whole and its parts *)

Lemma steady_ret {A} (a : A) : steady (ret a).
Proof. done. Qed.

Lemma steady_bind {A B} (m : M A) (f : A -> M B) :
  steady m -> (forall a, steady (f a)) -> steady (bind m f).
Proof.
  intros Hm Hf w. unfold bind. specialize (Hm w).
  destruct (m w) as [[a|e] w1]; cbn in *; [|done]. by rewrite Hf.
Qed.

Lemma steady_seq {A B} (m : M A) (f : A -> M B) :
  steady m -> (forall a, steady (f a)) ->
  steady (fun w => match m w with
                   | (Ok a, w') => f a w'
                   | (Raise e, w') => (Raise e, w')
                   end).
Proof. exact (steady_bind m f). Qed.

Lemma steady_assert (b : bool) (msg : string) : steady (assert b msg).
Proof. by destruct b. Qed.

Lemma steady_task {A} (msg : string) (body : M A) : steady body -> steady (task msg body).
Proof.
  intros H w. unfold task.
  specialize (H (set_indent (S (w_indent (log (msg +:+ "...") false w).2))
                   (log (msg +:+ "...") false w).2)).
  destruct (body _) as [[a|[]] w3]; exact H.
Qed.

Lemma steady_run (a : list string) (d : string) : steady (run ("git" :: a) d).
Proof.
  intros w. rewrite run_git. cbv zeta.
  assert (H : setting (git a d w).2 = setting w).
  { destruct (git_world a d w) as [->|(? & ? & ->)]; done. }
  by destruct (_ =? 0)%Z.
Qed.

Lemma steady_change_line (p l : string) (to : list string) : steady (do_change_line p l to).
Proof.
  intros w. unfold do_change_line.
  destruct (change_line _ _ _ _) as [? []]; [done|]. by destruct (w_fs w !! p).
Qed.

Lemma steady_copyfile (src dst : string) : steady (copyfile src dst).
Proof. intros w. unfold copyfile. by repeat case_match. Qed.

Lemma steady_git_commit (msg : string) (files : list string) (repo : string) :
  steady (git_commit msg files repo).
Proof.
  unfold git_commit. apply steady_bind; [apply steady_run|]. intros _.
  apply steady_bind; [apply steady_run|]. intros _. apply steady_ret.
Qed.

Lemma steady_check_repo_state (repo name : string) : steady (check_repo_state repo name).
Proof.
  unfold check_repo_state.
  repeat first [ apply steady_run | apply steady_assert | apply steady_task
               | apply steady_bind; [|intros ?] ].
Qed.

Lemma steady_get_repositories : steady get_repositories.
Proof.
  intros w. unfold get_repositories. cbv zeta.
  generalize (path_parent (w_cwd w) // "toml.io") as website_repo.
  generalize (w_cwd w) as spec_repo. intros spec_repo website_repo. revert w.
  repeat first [ apply steady_ret | apply steady_check_repo_state | apply steady_task
               | apply steady_bind; [|intros ?] ].
Qed.

Lemma steady_prepare_release (version spec_repo website_repo : string) :
  steady (prepare_release version spec_repo website_repo).
Proof.
  intros w. unfold prepare_release. cbv zeta.
  generalize (w_timestamp w) as timestamp. generalize (w_today w) as date.
  intros date timestamp. revert w.
  repeat first [ apply steady_run | apply steady_change_line | apply steady_copyfile
               | apply steady_git_commit | apply steady_task
               | apply steady_bind; [|intros ?] ].
Qed.

(** [get_repositories] returns the website first, the spec repository,
    which is the working directory, second. *)
Lemma get_repositories_ok (w w' : World) (a b : string) :
  get_repositories w = (Ok (a, b), w') ->
  a = path_parent (w_cwd w) // "toml.io" /\ b = w_cwd w.
Proof.
  unfold get_repositories, bind, ret. cbv zeta.
  destruct (task _ _ w) as [[[]|e] w1]; [|done]. by intros [= <- <- _].
Qed.

Lemma input_history (prompt : string) (w : World) :
  match w_stdin w with
  | [] => (input prompt w).1 = Raise EOFError
          /\ w_trace (input prompt w).2 = w_trace w
  | l :: _ => (input prompt w).1 = Ok l
              /\ w_trace (input prompt w).2 = w_trace w ++ [EvInput]
  end.
Proof. unfold input, print. cbn. by destruct (w_stdin w). Qed.

Lemma main_trace (w : World) :
  exists insp evs,
    w_trace (main w).2 = w_trace w ++ insp ++ evs
    /\ forallb is_query insp = true
    /\ ((is_ok (main w).1 = false /\ evs = [])
        \/ exists version,
             get_version (w_argv w) = Ok version
             /\ release_history version (w_cwd w)
                  (path_parent (w_cwd w) // "toml.io")
                  (w_timestamp w) (w_today w) (w_stdin w)
                  (is_ok (main w).1) evs).
Proof.
  unfold main, bind. cbv beta.
  destruct (get_version (w_argv w)) as [version|e] eqn:Hv; cbn [fst snd].
  2:{ exists [], []. rewrite !app_nil_r. split; [done|]. split; [done|]. by left. }
  destruct (quietly_get_repositories w) as [(_ & _ & _ & insp & Ht & Hq) _].
  pose proof (steady_get_repositories w) as Hs.
  destruct (get_repositories w) as [[[a b]|e] w1] eqn:Hg; cbn [fst snd] in *.
  2:{ exists insp, []. rewrite app_nil_r. split; [done|]. split; [done|]. by left. }
  apply get_repositories_ok in Hg as [-> ->].
  exists insp.
  destruct (task_result "Preparing release"
              (prepare_release version (w_cwd w) (path_parent (w_cwd w) // "toml.io"))
              w1) as (Hr & Htr & _).
  destruct (prepare_release_steps version (w_cwd w)
              (path_parent (w_cwd w) // "toml.io") (task_enter "Preparing release" w1))
    as (prep & Hp & Ha).
  pose proof (steady_task "Preparing release" _
                (steady_prepare_release version (w_cwd w)
                   (path_parent (w_cwd w) // "toml.io")) w1) as Hs2.
  change (w_timestamp (task_enter "Preparing release" w1)) with (w_timestamp w1) in Ha.
  change (w_today (task_enter "Preparing release" w1)) with (w_today w1) in Ha.
  change (w_trace (task_enter "Preparing release" w1)) with (w_trace w1) in Hp.
  injection Hs as Hcwd Hargv Hts Htoday Hstdin. rewrite Hts, Htoday in Ha.
  destruct (task "Preparing release" _ w1) as [[[]|e] w2] eqn:Hprep; cbn [fst snd] in *.
  2:{ exists prep. rewrite Htr, Hp, Ht, <- app_assoc. split; [done|]. split; [done|].
      right. exists version. split; [done|]. left. split; [done|].
      destruct (prepare_release _ _ _ _).1; [done | exact Ha]. }
  assert (prep = prepare_steps version (w_cwd w) (path_parent (w_cwd w) // "toml.io")
                   (w_timestamp w) (w_today w)) as ->.
  { destruct (prepare_release _ _ _ _).1 as [|[]]; done. }
  injection Hs2 as _ _ _ _ Hstdin2.
  pose proof (input_history "Press enter when ready." w2) as Hi.
  rewrite Hstdin2, Hstdin in Hi.
  destruct (input "Press enter when ready." w2) as [[l|e] w3]; cbn [fst snd] in *.
  2:{ eexists.
      destruct (w_stdin w) as [|l0 ?]; destruct Hi as [Hi1 Hi2]; [|done].
      rewrite Hi2, Htr, Hp, Ht, <- app_assoc. split; [done|]. split; [done|].
      right. exists version. split; [done|]. right. left. done. }
  destruct (w_stdin w) as [|l0 stdin] eqn:Hin; destruct Hi as [Hi1 Hi2]; [done|].
  destruct (task_result "Publishing release"
              (push_release version (w_cwd w) (path_parent (w_cwd w) // "toml.io"))
              w3) as (Hr3 & Htr3 & _).
  destruct (push_release_performs version (w_cwd w)
              (path_parent (w_cwd w) // "toml.io") (task_enter "Publishing release" w3))
    as (pushed & Hpu & Hau).
  change (w_trace (task_enter "Publishing release" w3)) with (w_trace w3) in Hpu.
  eexists. split.
  { rewrite Htr3, Hpu, Hi2, Htr, Hp, Ht, <- !app_assoc. cbn [app]. done. }
  split; [done|]. right. exists version. split; [done|]. right. right.
  split; [done|]. exists pushed. split; [|done].
  rewrite Hr3, is_ok_task_outcome. exact Hau.
Qed.

Lemma attempts_actions (steps : list event) (ok : bool) (evs : list event) :
  attempts steps ok evs -> action <$> evs `prefix_of` action <$> steps.
Proof.
  unfold attempts. destruct ok.
  - by intros ->.
  - intros (pre & step & post & tail & -> & Hf & ->).
    rewrite !fmap_app. apply prefix_app. rewrite fmap_cons.
    destruct step; cbn in Hf.
    + destruct Hf as (rc' & _ & ->). by exists (action <$> post).
    + subst tail. by exists (action <$> post).
    + subst tail. apply prefix_nil.
    + subst tail. apply prefix_nil.
Qed.

Lemma is_push_action (e : event) : is_push (action e) = is_push e.
Proof. by destruct e. Qed.

Lemma prefix_forallb {A} (p : A -> bool) (l1 l2 : list A) :
  l1 `prefix_of` l2 -> forallb p l2 = true -> forallb p l1 = true.
Proof. intros [k ->]. rewrite forallb_app. by intros [? _]%andb_true_iff. Qed.

Lemma forallb_fmap {A B} (p : B -> bool) (f : A -> B) (l : list A) :
  forallb p (f <$> l) = forallb (fun x => p (f x)) l.
Proof. induction l as [|x l IH]; [done|]. cbn. by rewrite IH. Qed.

Lemma attempts_no_push (steps : list event) (ok : bool) (evs : list event) :
  attempts steps ok evs -> existsb is_push steps = false -> existsb is_push evs = false.
Proof.
  intros H%attempts_actions Hs.
  assert (Hn : forall l, existsb is_push l = false
                         <-> forallb (fun e => negb (is_push (action e))) l = true).
  { induction l as [|x l IH]; [done|]. cbn. rewrite is_push_action.
    rewrite orb_false_iff, andb_true_iff, negb_true_iff, IH. done. }
  apply Hn. rewrite <- (forallb_fmap (fun e => negb (is_push e)) action).
  assert (Hp : forall l, forallb (fun e => negb (is_push e)) (action <$> l)
                         = forallb (fun e => negb (is_push (action e))) l).
  { intros l. rewrite forallb_fmap. done. }
  eapply prefix_forallb; [exact H|]. rewrite forallb_fmap.
  apply Hn in Hs. clear -Hs. induction steps as [|x l IH]; [done|].
  cbn in *. apply andb_true_iff in Hs as [H1 H2]. rewrite is_push_action in *.
  by rewrite H1, IH.
Qed.

Lemma query_is_no_push (l : list event) :
  forallb is_query l = true -> existsb is_push l = false.
Proof.
  induction l as [|e l IH]; [done|]. cbn. intros [He Hl]%andb_true_iff.
  rewrite IH, orb_false_r by done. clear -He.
  destruct e as [[|prog [|sub rest]] ? ?| | |]; try done. cbn in *.
  apply andb_true_iff in He as [_ He]. unfold is_query_sub in He.
  apply andb_false_iff. right.
  repeat (apply orb_true_iff in He as [He|He]); apply String.eqb_eq in He as ->; done.
Qed.

Lemma prepare_steps_no_push (version spec_repo website_repo : string)
    (timestamp : Z) (date : string) :
  existsb is_push (prepare_steps version spec_repo website_repo timestamp date) = false.
Proof. done. Qed.

(** X22.  Nothing is pushed before the preparation is complete and the
    prompt has been answered: a run whose history has a push in it
    started with something on standard input, and before the first push
    its history has the inspections, every step of the preparation with
    status 0, and the prompt. *)
Theorem push_needs_confirmation (w : World) (evs : list event) :
  w_trace (run_main w).2 = w_trace w ++ evs ->
  existsb is_push evs = true ->
  w_stdin w <> []
  /\ exists version insp pushed,
       get_version (w_argv w) = Ok version
       /\ existsb is_push insp = false
       /\ evs = insp
                ++ prepare_steps version (w_cwd w) (path_parent (w_cwd w) // "toml.io")
                     (w_timestamp w) (w_today w)
                ++ EvInput :: pushed.
Proof.
  intros Ht Hpush.
  assert (Hrun : w_trace (run_main w).2 = w_trace (main w).2).
  { unfold run_main. by destruct (main w) as [[|[]] ?]. }
  destruct (main_trace w) as (insp & evs' & Hm & Hq & Hc).
  rewrite Hrun, Hm in Ht. apply app_inv_head in Ht. subst evs.
  apply query_is_no_push in Hq.
  rewrite existsb_app, Hq in Hpush. cbn in Hpush.
  destruct Hc as [[_ ->]|(version & Hv & [[_ Ha]|[(_ & _ & ->)|(Hin & pushed & Ha & ->)]])].
  - done.
  - apply attempts_no_push in Ha; [|apply prepare_steps_no_push]. congruence.
  - by rewrite prepare_steps_no_push in Hpush.
  - split; [done|]. by exists version, insp, pushed.
Qed.

Lemma exits_1_bind {A B} (m : M A) (f : A -> M B) :
  exits_1 m -> (forall a, exits_1 (f a)) -> exits_1 (bind m f).
Proof.
  intros Hm Hf w c. unfold bind. specialize (Hm w c).
  destruct (m w) as [[a|e] w1]; cbn in *; [apply Hf|].
  intros [= ->]. by apply Hm.
Qed.

Lemma exits_1_task {A} (msg : string) (body : M A) :
  exits_1 body -> exits_1 (task msg body).
Proof.
  intros H w c. destruct (task_result msg body w) as (-> & _).
  specialize (H (task_enter msg w) c).
  destruct (body _).1 as [|[]]; cbn; try done. by intros [= <-].
Qed.

Lemma exits_1_run (a : list string) (d : string) : exits_1 (run ("git" :: a) d).
Proof. intros w c. rewrite run_git. cbv zeta. by destruct (_ =? 0)%Z. Qed.

Lemma exits_1_assert (b : bool) (msg : string) : exits_1 (assert b msg).
Proof. by destruct b. Qed.

Lemma exits_1_change_line (p l : string) (to : list string) :
  exits_1 (do_change_line p l to).
Proof.
  intros w c. unfold do_change_line.
  destruct (change_line _ _ _ _) as [? []]; [done|]. by destruct (w_fs w !! p).
Qed.

Lemma exits_1_copyfile (src dst : string) : exits_1 (copyfile src dst).
Proof. intros w c. unfold copyfile. by repeat case_match. Qed.

Lemma exits_1_input (prompt : string) : exits_1 (input prompt).
Proof. intros w c. unfold input. cbn. by destruct (w_stdin w). Qed.

Lemma exits_1_main : exits_1 main.
Proof.
  intros w. unfold main. revert w.
  apply exits_1_bind.
  { intros w c. cbn. intros H. by apply get_version_raises in H as [? ?]. }
  intros version. apply exits_1_bind.
  { intros w. unfold get_repositories. cbv zeta.
    generalize (path_parent (w_cwd w) // "toml.io") as website_repo.
    generalize (w_cwd w) as spec_repo. intros spec_repo website_repo. revert w.
    apply exits_1_bind; [|done].
    apply exits_1_task, exits_1_bind; [|intros _];
      apply exits_1_task; unfold check_repo_state;
      repeat first [ apply exits_1_run | apply exits_1_assert | apply exits_1_task
                   | apply exits_1_bind; [|intros ?] ]. }
  intros [website_repo spec_repo].
  apply exits_1_bind.
  { apply exits_1_task. intros w. unfold prepare_release. cbv zeta.
    generalize (w_timestamp w) as timestamp. generalize (w_today w) as date.
    intros date timestamp. revert w. unfold git_commit.
    repeat first [ apply exits_1_run | apply exits_1_change_line | apply exits_1_copyfile
                 | apply exits_1_task | apply exits_1_bind; [|intros ?] | done ]. }
  intros _. apply exits_1_bind; [apply exits_1_input|]. intros _.
  apply exits_1_task. unfold push_release.
  repeat first [ apply exits_1_run | apply exits_1_task
               | apply exits_1_bind; [|intros ?] | done ].
Qed.

Lemma run_main_status (w : World) :
  (run_main w).1 = (if is_ok (main w).1 then 0 else 1)%Z
  /\ w_trace (run_main w).2 = w_trace (main w).2.
Proof.
  pose proof (exits_1_main w) as He. unfold run_main.
  destruct (main w) as [[|[]] w']; cbn in *; try done. split; [|done]. by apply He.
Qed.

(** X21.  The history of a whole run.  First come inspections and nothing
    else.  When the arguments are wrong or an inspection fails, that is
    all and the status is not 0; otherwise the release follows, in the
    spec repository that is the working directory and the website beside
    it, with the clock of the start of the run: the steps of the
    preparation up to one that failed; or all of them, when the prompt
    finds standard input at its end; or all of them, the prompt, and the
    pushes up to one that failed. *)
Theorem main_history (w : World) :
  exists insp evs,
    w_trace (run_main w).2 = w_trace w ++ insp ++ evs
    /\ forallb is_query insp = true
    /\ (((run_main w).1 <> 0%Z /\ evs = [])
        \/ exists version,
             get_version (w_argv w) = Ok version
             /\ release_history version (w_cwd w)
                  (path_parent (w_cwd w) // "toml.io")
                  (w_timestamp w) (w_today w) (w_stdin w)
                  ((run_main w).1 =? 0)%Z evs).
Proof.
  destruct (run_main_status w) as [Hs Ht].
  destruct (main_trace w) as (insp & evs & Hm & Hq & Hc).
  exists insp, evs. rewrite Ht, Hs. split; [done|]. split; [done|].
  destruct (is_ok (main w).1).
  - destruct Hc as [[? _]|Hc]; [done | by right].
  - destruct Hc as [[_ ->]|Hc]; [by left | by right].
Qed.

(** X23.  The process ends with status 0 when [main] returns and with
    status 1 whenever it does not, whatever failed; and status 0 means
    that every step has been taken: the inspections, the preparation,
    the prompt and the four pushes, each command with status 0. *)
Theorem run_exit_status (w : World) :
  (run_main w).1 = (if is_ok (main w).1 then 0 else 1)%Z
  /\ ((run_main w).1 = 0%Z ->
      exists version insp,
        get_version (w_argv w) = Ok version
        /\ forallb is_query insp = true
        /\ w_trace (run_main w).2
           = w_trace w ++ insp
             ++ prepare_steps version (w_cwd w) (path_parent (w_cwd w) // "toml.io")
                  (w_timestamp w) (w_today w)
             ++ EvInput
                :: pushes version (w_cwd w) (path_parent (w_cwd w) // "toml.io")).
Proof.
  destruct (run_main_status w) as [H1 Hrun].
  split; [exact H1|]. intros H0. rewrite H0 in H1.
  destruct (main_trace w) as (insp & evs & Hm & Hq & Hc).
  destruct (is_ok (main w).1); [|done].
  destruct Hc as [[? _]|(version & Hv & [[? _]|[(? & _)|(_ & pushed & Ha & ->)]])];
    try done.
  cbn in Ha. subst pushed. exists version, insp. by rewrite Hrun, Hm.
Qed.

(** ** An inspection, step by step *)

(** One command: what it adds to the history, and how it can fail. *)
Lemma run_step (a : list string) (d : string) (w : World) :
  exists rc, w_trace (run ("git" :: a) d w).2 = w_trace w ++ [EvRun ("git" :: a) d rc]
    /\ match (run ("git" :: a) d w).1 with
       | Ok _ => rc = 0%Z
       | Raise e => rc <> 0%Z /\ exists msg, e = AssertionError msg
       end.
Proof.
  rewrite run_git. cbv zeta. exists (git a d w).1.1.1.
  destruct (Z.eqb_spec (git a d w).1.1.1 0) as [E|E]; cbn; rewrite git_trace;
    (split; [done|]); [done|]. split; [done|]. by eauto.
Qed.

Lemma assert_step (b : bool) (msg : string) (w : World) :
  (assert b msg w).2 = w
  /\ match (assert b msg w).1 with
     | Ok _ => b = true
     | Raise e => e = AssertionError msg
     end.
Proof. by destruct b. Qed.

Lemma check_repo_state_steps (repo name : string) (w : World) :
  exists evs b,
    w_trace (check_repo_state repo name w).2 = w_trace w ++ evs
    /\ match (check_repo_state repo name w).1 with
       | Ok _ => evs = inspection_steps repo b /\ (b = "main" \/ b = "master")
       | Raise e =>
           stopped (inspection_steps repo b) evs
           /\ ((length evs <= 3 /\ exists msg, e = AssertionError msg)
               \/ (3 < length evs /\ e = SystemExit 1))
       end.
Proof.
  assert (Hfail : forall b pre a post rc,
            inspection_steps repo b = pre ++ EvRun a repo 0 :: post -> rc <> 0%Z ->
            stopped (inspection_steps repo b) (pre ++ [EvRun a repo rc])).
  { intros b pre a post rc E Hrc. left.
    exists pre, (EvRun a repo 0), post, [EvRun a repo rc].
    split; [done|]. split; [|done]. by exists rc. }
  assert (Hrefused : forall b k, k ∈ [1; 2; 3; 5] ->
            stopped (inspection_steps repo b) (take k (inspection_steps repo b))).
  { intros b k Hk. right. by exists k. }
  unfold check_repo_state, bind.
  destruct (run_step ["config"; "--get"; "remote.upstream.url"] repo w)
    as (rc1 & T1 & R1).
  destruct (run _ repo w) as [[upstream|e] w1]; cbn [fst snd] in *.
  2:{ destruct R1 as [Hrc [msg ->]]. eexists _, "". split; [exact T1|]. split.
      - eapply (Hfail "" []); [reflexivity | done].
      - left. split; [cbn; lia | by eauto]. }
  subst rc1.
  destruct (assert_step (upstream =? "git@github.com:toml-lang/" +:+ name +:+ ".git")%string
              ("Got incorrect upstream repo: " +:+ upstream) w1) as (W & R).
  destruct (assert _ _ w1) as [[[]|e] w1']; cbn [fst snd] in *; subst w1'.
  2:{ eexists _, "". split; [exact T1|]. split.
      - apply (Hrefused "" 1). by repeat constructor.
      - left. split; [cbn; lia | by eauto]. }
  clear R.
  destruct (run_step ["branch"; "--show-current"] repo w1) as (rc2 & T2 & R2).
  destruct (run _ repo w1) as [[b|e] w2]; cbn [fst snd] in *.
  2:{ destruct R2 as [Hrc [msg ->]]. eexists _, "".
      split; [by rewrite T2, T1, <- ?app_assoc|]. cbn [app]. split.
      - eapply (Hfail "" [_]); [reflexivity | done].
      - left. split; [cbn; lia | by eauto]. }
  subst rc2.
  destruct (assert_step ((b =? "main") || (b =? "master"))%string b w2) as (W & R).
  destruct (assert _ _ w2) as [[[]|e] w2']; cbn [fst snd] in *; subst w2'.
  2:{ eexists _, b. split; [by rewrite T2, T1, <- ?app_assoc|]. cbn [app]. split.
      - apply (Hrefused b 2). by repeat constructor.
      - left. split; [cbn; lia | by eauto]. }
  assert (Hb : b = "main" \/ b = "master").
  { apply orb_true_iff in R as [R|R]; apply String.eqb_eq in R; by eauto. }
  clear R.
  destruct (run_step ["status"; "--porcelain"] repo w2) as (rc3 & T3 & R3).
  destruct (run _ repo w2) as [[state|e] w3]; cbn [fst snd] in *.
  2:{ destruct R3 as [Hrc [msg ->]]. eexists _, b.
      split; [by rewrite T3, T2, T1, <- ?app_assoc|]. cbn [app]. split.
      - eapply (Hfail b [_; _]); [reflexivity | done].
      - left. split; [cbn; lia | by eauto]. }
  subst rc3.
  destruct (assert_step (state =? "")%string
              ("Dirty working directory" +:+ NL +:+ state) w3) as (W & R).
  destruct (assert _ _ w3) as [[[]|e] w3']; cbn [fst snd] in *; subst w3'.
  2:{ eexists _, b. split; [by rewrite T3, T2, T1, <- ?app_assoc|]. cbn [app]. split.
      - apply (Hrefused b 3). by repeat constructor.
      - left. split; [cbn; lia | by eauto]. }
  clear R.
  destruct (task_result "Checking against remote"
    (fun w => match run ["git"; "remote"; "update"; "upstream"] repo w with
              | (Ok _, w') =>
                  match run ["git"; "rev-list"; b +:+ "..upstream/" +:+ b;
                             "--left-right"] repo w' with
                  | (Ok deviation, w'') =>
                      assert (deviation =? "")%string
                        ("Local branch deviates from upstream" +:+ NL +:+ deviation) w''
                  | (Raise e, w'') => (Raise e, w'')
                  end
              | (Raise e, w') => (Raise e, w')
              end) w3) as (-> & -> & _).
  set (w3' := task_enter "Checking against remote" w3).
  assert (T3' : w_trace w3'
                = w_trace w
                  ++ [ EvRun ["git"; "config"; "--get"; "remote.upstream.url"] repo 0;
                       EvRun ["git"; "branch"; "--show-current"] repo 0;
                       EvRun ["git"; "status"; "--porcelain"] repo 0 ]).
  { subst w3'. cbn [task_enter set_indent set_out w_trace].
    rewrite T3, T2, T1, <- !app_assoc. done. }
  clearbody w3'.
  destruct (run_step ["remote"; "update"; "upstream"] repo w3') as (rc4 & T4 & R4).
  destruct (run _ repo w3') as [[out4|e] w4]; cbn [fst snd] in *.
  2:{ destruct R4 as [Hrc [msg ->]]. eexists _, b.
      split; [by rewrite T4, T3', <- ?app_assoc|]. cbn [app]. split.
      - eapply (Hfail b [_; _; _]); [reflexivity | done].
      - right. split; [cbn; lia | done]. }
  subst rc4.
  destruct (run_step ["rev-list"; b +:+ "..upstream/" +:+ b; "--left-right"] repo w4)
    as (rc5 & T5 & R5).
  destruct (run _ repo w4) as [[deviation|e] w5]; cbn [fst snd] in *.
  2:{ destruct R5 as [Hrc [msg ->]]. eexists _, b.
      split; [by rewrite T5, T4, T3', <- ?app_assoc|]. cbn [app]. split.
      - eapply (Hfail b [_; _; _; _]); [reflexivity | done].
      - right. split; [cbn; lia | done]. }
  subst rc5.
  destruct (assert_step (deviation =? "")%string
              ("Local branch deviates from upstream" +:+ NL +:+ deviation) w5) as (W & R).
  destruct (assert _ _ w5) as [[[]|e] w5']; cbn [fst snd] in *; subst w5'.
  - exists (inspection_steps repo b), b. rewrite T5, T4, T3', <- !app_assoc.
    split; [done|]. done.
  - subst e. exists (inspection_steps repo b), b. rewrite T5, T4, T3', <- !app_assoc.
    split; [done|]. split.
    + apply (Hrefused b 5). by repeat constructor.
    + right. split; [cbn; lia | done].
Qed.

(** ** A dirty working tree *)

Lemma head_tree_fetched (store : list Commit) (r r' : Repo) :
  only_fetched r r' -> head_tree store r' = head_tree store r.
Proof. intros (H & B & _). unfold head_tree, head_commit. by rewrite H, B. Qed.

Lemma git_status_fetched (store : list Commit) (fs : FileSystem) (d : string)
    (r r' : Repo) :
  only_fetched r r' -> git_status store fs d r' = git_status store fs d r.
Proof.
  intros Hf. pose proof (head_tree_fetched store r r' Hf) as Ht.
  destruct Hf as (_ & _ & I & _). unfold git_status. by rewrite Ht, I.
Qed.

Lemma dirty_untouched (repo : string) (w w' : World) :
  untouched w w' -> dirty repo w -> dirty repo w'.
Proof.
  intros (F & S & R & _) (r & Hr & Hs). specialize (R repo). rewrite Hr in R.
  inversion R as [? r' Hf E1 E2|]. exists r'. split; [done|].
  by rewrite F, S, (git_status_fetched _ _ _ r r' Hf).
Qed.

(** What [git status] reports does not begin with a line feed. *)
Lemma status_lines_report (f : string -> string) (paths : list string) :
  (forall p, f p = "" \/ exists c rest, f p = String c rest /\ c <> LF) ->
  concat_str (map f paths) <> "" ->
  exists c rest, concat_str (map f paths) = String c rest /\ c <> LF.
Proof.
  intros Hf. induction paths as [|p paths IH]; [done|]. cbn [map concat_str].
  destruct (Hf p) as [->|(c & rest & -> & Hc)]; [exact IH|].
  intros _. by exists c, (rest +:+ concat_str (map f paths)).
Qed.

Lemma git_status_report (store : list Commit) (fs : FileSystem) (d : string)
    (r : Repo) :
  git_status store fs d r <> "" -> rstrip_nl (git_status store fs d r) <> "".
Proof.
  intros H. unfold git_status in *.
  apply status_lines_report in H as (c & rest & -> & Hc).
  - cbn [rstrip_nl]. apply Ascii.eqb_neq in Hc. rewrite Hc.
    by destruct (rstrip_nl rest).
  - intros p. unfold status_code.
    repeat case_match; cbn; try (by left); right; by eauto.
Qed.

Lemma run_status (repo : string) (r : Repo) (w : World) :
  w_repos w !! repo = Some r ->
  (run ["git"; "status"; "--porcelain"] repo w).1
  = Ok (rstrip_nl (git_status (w_store w) (w_fs w) repo r)).
Proof. intros Hr. rewrite run_git. unfold git. by rewrite Hr. Qed.

(** An inspection of a dirty working tree does not pass. *)
Lemma dirty_check_fails (repo name : string) (w : World) :
  dirty repo w -> is_ok (check_repo_state repo name w).1 = false.
Proof.
  intros Hd. unfold check_repo_state, bind.
  destruct (quietly_run "config" ["--get"; "remote.upstream.url"] repo
              eq_refl ltac:(done) w) as [U1 _].
  destruct (run _ repo w) as [[upstream|e] w1]; [|done]. cbn [snd] in U1.
  apply (dirty_untouched repo) in U1; [|done]. clear Hd.
  destruct (assert_step (upstream =? "git@github.com:toml-lang/" +:+ name +:+ ".git")%string
              ("Got incorrect upstream repo: " +:+ upstream) w1) as (W & _).
  destruct (assert _ _ w1) as [[[]|e] w1']; [|done]. cbn [snd] in W. subst w1'.
  destruct (quietly_run "branch" ["--show-current"] repo eq_refl ltac:(done) w1)
    as [U2 _].
  destruct (run _ repo w1) as [[b|e] w2]; [|done]. cbn [snd] in U2.
  apply (dirty_untouched repo) in U2; [|done]. clear U1.
  destruct (assert_step ((b =? "main") || (b =? "master"))%string b w2) as (W & _).
  destruct (assert _ _ w2) as [[[]|e] w2']; [|done]. cbn [snd] in W. subst w2'.
  destruct U2 as (r & Hr & Hs).
  pose proof (run_status repo r w2 Hr) as Hrun.
  destruct (run _ repo w2) as [[state|e] w3]; [|done]. cbn [fst] in Hrun.
  injection Hrun as ->.
  apply git_status_report, String.eqb_neq in Hs. unfold assert. by rewrite Hs.
Qed.

(** A dirty working tree of the website makes [get_repositories]
    fail. *)
Lemma dirty_website_fails (w : World) :
  dirty (path_parent (w_cwd w) // "toml.io") w -> is_ok (get_repositories w).1 = false.
Proof.
  set (spec_repo := w_cwd w). set (website_repo := path_parent (w_cwd w) // "toml.io").
  intros Hd.
  set (inner := bind (task "toml" (check_repo_state spec_repo "toml"))
                  (fun _ => task "toml.io" (check_repo_state website_repo "toml.io"))).
  assert (Hg : get_repositories w
               = match task "Checking repositories" inner w with
                 | (Ok _, w') => (Ok (website_repo, spec_repo), w')
                 | (Raise e, w') => (Raise e, w')
                 end) by done.
  rewrite Hg. clear Hg.
  destruct (task_result "Checking repositories" inner w) as (Hr & _).
  set (w0 := task_enter "Checking repositories" w) in *.
  assert (Hd0 : dirty website_repo w0).
  { apply (dirty_untouched _ w); [by apply untouched_display | done]. }
  clearbody w0.
  assert (Hin : is_ok (inner w0).1 = false).
  { subst inner. unfold bind.
    destruct (quietly_task "toml" _ (quietly_check_repo_state spec_repo "toml") w0)
      as [U1 _].
    destruct (task "toml" _ w0) as [[[]|e] w1]; [|done]. cbn [snd] in U1.
    apply (dirty_untouched website_repo) in U1; [|done].
    destruct (task_result "toml.io" (check_repo_state website_repo "toml.io") w1)
      as (-> & _).
    rewrite is_ok_task_outcome. apply dirty_check_fails.
    apply (dirty_untouched _ w1); [by apply untouched_display | done]. }
  clearbody inner.
  destruct (task "Checking repositories" inner w) as [[[]|e] w']; cbn [fst] in *;
    [|done].
  by destruct (inner w0).1 as [|[]].
Qed.

(** C7, as amended.  A dirty working tree of the website makes a check
    fail, whatever else is the case.  And when a check of
    [get_repositories] fails, for either repository, the process exits
    with a non-zero status and has written no file, made no commit and
    no tag, staged and pushed nothing: the file system and the commits
    are as before, only inspections were run, and every repository is as
    before up to what [git remote update upstream] has fetched, which is
    remote-tracking branches that now follow [upstream] and tags copied
    from [upstream]. *)
Theorem failed_check_touches_nothing (w : World) :
  (dirty (path_parent (w_cwd w) // "toml.io") w ->
   is_ok (get_repositories w).1 = false)
  /\ (is_ok (get_repositories w).1 = false ->
      (run_main w).1 <> 0%Z /\ untouched w (run_main w).2).
Proof.
  split; [apply dirty_website_fails|].
  intros He. unfold run_main, main, bind.
  destruct (get_version (w_argv w)) as [version|e0] eqn:Hv; cbn.
  - destruct (quietly_get_repositories w) as [U F].
    destruct (get_repositories w) as [[repos|e'] w']; [done|]. cbn in *.
    specialize (F e' eq_refl). destruct e'; cbn; try done.
    split; [|done]. intros ->. by apply F.
  - apply get_version_raises in Hv as [msg ->]. split; [done | apply untouched_refl].
Qed.

(** The sample with a stray file in the website's working tree. *)
Lemma failed_check_touches_nothing_witness :
  dirty "/w/toml.io" Sample.dirty_website
  /\ is_ok (get_repositories Sample.dirty_website).1 = false
  /\ (run_main Sample.dirty_website).1 <> 0%Z
  /\ untouched Sample.dirty_website (run_main Sample.dirty_website).2.
Proof.
  assert (Hd : dirty "/w/toml.io" Sample.dirty_website).
  { exists Sample.website. split; [by vm_compute|]. by vm_compute. }
  destruct (failed_check_touches_nothing Sample.dirty_website) as [H1 H2].
  split; [exact Hd|]. split; [exact (H1 Hd)|]. exact (H2 (H1 Hd)).
Defined.

(** A run that stops at the dirty working tree of the website, after
    the inspection of the spec repository has fetched from upstream: the
    spec repository has a tag and a remote-tracking branch that it did
    not have before. *)
Lemma failed_check_has_fetched :
  let w := Sample.dirty_after_fetch in
  let tag (w : World) := w_repos w !! "/w/toml" ≫= fun r => g_tags r !! "0.9.0" in
  let tracking (w : World) :=
    w_repos w !! "/w/toml" ≫= fun r => g_tracking r !! ("upstream", "main") in
  (run_main w).1 = 1%Z
  /\ tag w = None /\ tag (run_main w).2 = Some (mkTag "Preview" 0)
  /\ tracking w = None /\ tracking (run_main w).2 = Some 0.
Proof. repeat split; by vm_compute. Qed.

(** X26.  An inspection never passes a working copy whose working tree
    is dirty, whatever its remote, its branch and its history are. *)
Theorem dirty_tree_fails_inspection (repo name : string) (w : World) :
  dirty repo w -> exists e, (check_repo_state repo name w).1 = Raise e.
Proof.
  intros Hd. apply (dirty_check_fails repo name) in Hd.
  destruct (check_repo_state repo name w).1 as [|e]; [done | by exists e].
Qed.

Lemma dirty_tree_fails_inspection_witness :
  dirty "/w/toml.io" Sample.dirty_website
  /\ exists e, (check_repo_state "/w/toml.io" "toml.io" Sample.dirty_website).1 = Raise e.
Proof.
  assert (Hd : dirty "/w/toml.io" Sample.dirty_website).
  { exists Sample.website. split; [by vm_compute|]. by vm_compute. }
  split; [exact Hd|].
  exact (dirty_tree_fails_inspection "/w/toml.io" "toml.io" Sample.dirty_website Hd).
Defined.

(** X14.  An inspection of a working copy runs its five commands in
    order and stops at the first that fails or whose answer is refused:
    the history then ends with the command that failed and its status,
    or with the command whose answer was refused, and every command
    before has status 0.  It passes only when all five succeeded and the
    current branch is [main] or [master]; the range it asks
    [git rev-list] for is [<branch>..upstream/<branch>].  It fails with
    an [AssertionError] in its first three steps, and with
    [SystemExit(1)] in the comparison with the remote. *)
Theorem check_repo_state_history (repo name : string) (w : World) :
  is_Some (w_repos w !! repo) ->
  exists evs b,
    w_trace (check_repo_state repo name w).2 = w_trace w ++ evs
    /\ match (check_repo_state repo name w).1 with
       | Ok _ => evs = inspection_steps repo b /\ (b = "main" \/ b = "master")
       | Raise e =>
           stopped (inspection_steps repo b) evs
           /\ ((length evs <= 3 /\ exists msg, e = AssertionError msg)
               \/ (3 < length evs /\ e = SystemExit 1))
       end.
Proof. intros _. apply check_repo_state_steps. Qed.

(** The inspection of the sample spec repository. *)
Lemma check_repo_state_history_witness :
  is_Some (w_repos Sample.behind !! "/w/toml")
  /\ exists evs b,
       w_trace (check_repo_state "/w/toml" "toml" Sample.behind).2
       = w_trace Sample.behind ++ evs
       /\ match (check_repo_state "/w/toml" "toml" Sample.behind).1 with
          | Ok _ => evs = inspection_steps "/w/toml" b /\ (b = "main" \/ b = "master")
          | Raise e =>
              stopped (inspection_steps "/w/toml" b) evs
              /\ ((length evs <= 3 /\ exists msg, e = AssertionError msg)
                  \/ (3 < length evs /\ e = SystemExit 1))
          end.
Proof.
  assert (H : is_Some (w_repos Sample.behind !! "/w/toml")) by (by eexists).
  split; [exact H|]. exact (check_repo_state_history "/w/toml" "toml" Sample.behind H).
Defined.

(** ** What a preparation leaves *)

Lemma copyfile_copies (src dst : string) (w w' : World) :
  copyfile src dst w = (Ok tt, w') ->
  exists f, w_fs w !! src = Some f /\ src <> dst
    /\ core w' = (<[dst := mkFile (f_data f) (copied_mode (w_umask w) (w_fs w) dst)]> (w_fs w),
                  w_store w, w_repos w).
Proof.
  unfold copyfile. destruct (w_fs w !! src) as [f|]; [|done].
  destruct (String.eqb_spec src dst) as [|Hne]; [done|]. intros [= <-].
  by exists f.
Qed.

(** The setting after a step that is known to have returned. *)
Ltac settled E U :=
  match type of E with
  | ?m ?w = (_, ?w') =>
      assert (U : setting w' = setting w) by
        (let H := fresh in
         assert (H : steady m) by
           (repeat first [ apply steady_run | apply steady_change_line
                         | apply steady_copyfile | apply steady_git_commit
                         | apply steady_task | apply steady_seq; [|intros ?] ]);
         specialize (H w); by rewrite E in H)
  end.

Lemma prepare_release_inv (version spec_repo website_repo : string) (w w' : World) :
  prepare_release version spec_repo website_repo w = (Ok tt, w') ->
  exists p, prepared version spec_repo website_repo w w' p.
Proof.
  intros H. unfold prepare_release in H. cbv zeta in H. unfold bind in H.
  next H o1 w1 E1. settled E1 U1.
  apply run_tag_ok in E1 as (r0 & ra & Hr0 & Ta & [= F1 S1 R1]).
  next H o2 w2 E2. settled E2 U2.
  apply run_tag_ok in E2 as (rw0 & rwa & Hrw0 & Twa & [= F2 S2 R2]).
  assert (Hne : spec_repo <> website_repo).
  { intros <-. rewrite R1, lookup_insert_eq in Hrw0. injection Hrw0 as <-.
    pose proof Ta as Ta'. pose proof Twa as Twa'.
    apply git_tag_spec in Ta' as (c0 & _ & _ & Tg & _).
    apply git_tag_spec in Twa' as (c1 & _ & Tn & _).
    by rewrite Tg, lookup_insert_eq in Tn. }
  rewrite R1, lookup_insert_ne in Hrw0 by done.
  next H u3 w3 E3. destruct u3. settled E3 U3.
  apply task_ok in E3 as (w3' & E3 & [= F3 S3 R3]). unfold bind in E3.
  next E3 u3a w3a E3a. destruct u3a.
  apply do_change_line_ok in E3a as (f & Hf & [= F3a S3a R3a]).
  apply git_commit_ok in E3
    as (rb0 & rb & store1 & rc & Hrb0 & Ab & Cb & [= F3' S3' R3']).
  next H o4 w4 E4. settled E4 U4. apply task_ok in E4 as (w4' & E4 & [= F4 S4 R4]).
  apply run_tag_ok in E4 as (rc' & rd & Hrc' & Td & [= F4' S4' R4']).
  next H u5 w5 E5. destruct u5. settled E5 U5.
  apply task_ok in E5 as (w5' & E5 & [= F5 S5 R5]). unfold bind in E5.
  next E5 u5a w5a E5a. destruct u5a.
  apply do_change_line_ok in E5a as (f1 & Hf1 & [= F5a S5a R5a]).
  apply git_commit_ok in E5
    as (re0 & re & store2 & rf & Hre0 & Ae & Ce & [= F5' S5' R5']).
  next H u6 w6 E6. destruct u6. apply task_ok in E6 as (w6' & E6 & [= F6 S6 R6]).
  apply copyfile_copies in E6 as (src & Hsrc & Hsd & [= F6' S6' R6']).
  next H u7 w7 E7. destruct u7.
  apply task_ok in E7 as (w7' & E7 & [= F7 S7 R7]). unfold bind in E7.
  next E7 u7a w7a E7a. destruct u7a.
  apply do_change_line_ok in E7a as (f7 & Hf7 & [= F7a S7a R7a]).
  apply do_change_line_ok in E7 as (f7' & Hf7' & [= F7' S7' R7']).
  apply task_ok in H as (w8' & E8 & [= F8 S8 R8]).
  apply git_commit_ok in E8
    as (rg0 & rg & store3 & rh & Hrg0 & Ag & Cg & [= F8' S8' R8']).
  assert (Hu : w_umask w5 = w_umask w).
  { change (snd (setting w5) = snd (setting w)). by rewrite U5, U4, U3, U2, U1. }
  unfold task_enter in *; cbn [w_fs w_store w_repos w_umask set_indent set_out] in *.
  rewrite Hu in F6'.
  (* the file system, step by step *)
  rewrite F2, F1 in Hf.
  rewrite F2, F1 in F3a.
  rewrite F4, F4', F3, F3', F3a, lookup_insert_eq in Hf1. injection Hf1 as <-.
  cbn [f_data f_mode] in F5a.
  rewrite F4, F4', F3, F3', F3a, insert_insert_eq in F5a.
  rewrite F5, F5', F5a in Hsrc, F6'.
  rewrite F6, F6', lookup_insert_eq in Hf7. injection Hf7 as <-.
  cbn [f_data f_mode] in F7a. rewrite F6, F6', insert_insert_eq in F7a.
  rewrite F7a, lookup_insert_eq in Hf7'. injection Hf7' as <-.
  cbn [f_data f_mode] in F7'. rewrite F7a, insert_insert_eq in F7'.
  (* the repositories *)
  rewrite R3a, R2, R1, lookup_insert_ne, lookup_insert_eq in Hrb0 by done.
  injection Hrb0 as <-. rewrite S3a, S2, S1 in Cb. rewrite F3a in Ab.
  rewrite R3, R3', lookup_insert_eq in Hrc'. injection Hrc' as <-.
  rewrite R5a, R4, R4', lookup_insert_eq in Hre0. injection Hre0 as <-.
  rewrite S5a, S4, S4', S3, S3' in Ce. rewrite F5a in Ae.
  rewrite R7, R7', R7a, R6, R6', R5, R5', lookup_insert_ne, R5a, R4, R4',
    lookup_insert_ne, R3, R3', lookup_insert_ne, R3a, R2, lookup_insert_eq
    in Hrg0 by done.
  injection Hrg0 as <-.
  rewrite S7, S7', S7a, S6, S6', S5, S5' in Cg. rewrite F7, F7' in Ag.
  exists (mkPreparation r0 ra rb rc rd re rf rw0 rwa rg rh store1 store2 store3 f src).
  unfold prepared, released_changelog, published_document.
  cbn [p_spec0 p_spec1 p_spec2 p_spec3 p_spec4 p_spec5 p_spec6 p_web0 p_web1 p_web2
       p_web3 p_store1 p_store2 p_store3 p_changelog p_source].
  repeat (split; [done|]).
  unfold core. rewrite F8, F8', F7, F7', S8, S8', R8, R8'. f_equal.
  rewrite R7, R7', R7a, R6, R6', R5, R5', R5a, R4, R4', R3, R3', R3a, R2, R1.
  rewrite !insert_insert_eq.
  rewrite (insert_insert_ne _ spec_repo website_repo) by done.
  by rewrite !insert_insert_eq.
Qed.

Lemma path_join_name_inj (d a b : string) : d // a = d // b -> a = b.
Proof.
  unfold path_join. destruct (d =? "/")%string.
  - by intros [= ->].
  - induction d as [|c d IH]; [by intros [= ->] | intros [= H]; by apply IH].
Qed.

(** X16.  The files of a preparation that succeeded.  The changelog and
    [toml.md] were there; the changelog now holds the text of the two
    edits under its old mode, the document of the website holds the text
    of [toml.md] with its title rewritten, under the mode a file of that
    name had before or else the mode of a new file (0o666 without the
    bits of the umask), and every other file is as it was: no temporary
    file is left. *)
Theorem prepare_release_files (version spec_repo website_repo : string)
    (w w' : World) :
  prepare_release version spec_repo website_repo w = (Ok tt, w') ->
  let changelog := spec_repo // "CHANGELOG.md" in
  let destination_md :=
    website_repo // "specs" // "en" // ("v" +:+ version +:+ ".md") in
  exists f src,
    w_fs w !! changelog = Some f
    /\ w_fs w !! (spec_repo // "toml.md") = Some src
    /\ let fs2 := <[changelog := mkFile (released_changelog version (w_today w)
                                           (f_data f)) (f_mode f)]> (w_fs w) in
       w_fs w' = <[destination_md := mkFile (published_document version (f_data src))
                                       (copied_mode (w_umask w) fs2 destination_md)]> fs2.
Proof.
  intros H changelog destination_md.
  destruct (prepare_release_inv _ _ _ _ _ H) as (p & Hp).
  destruct Hp as (_ & _ & _ & Hf & Hsrc & _ & _ & _ & _ & _ & _ & _ & _ & _ & _ & Hc).
  exists (p_changelog p), (p_source p). split; [exact Hf|]. split.
  - rewrite lookup_insert_ne in Hsrc; [done|].
    intros E. by apply path_join_name_inj in E.
  - by injection Hc as -> _ _.
Qed.

(** X17.  The backup tags of a preparation that succeeded: in each of the
    two repositories, which are distinct, the tag
    [backup/<timestamp>] is new, carries the message [backup] and
    points at the commit the repository was at when the preparation
    began. *)
Theorem prepare_release_backup_tags (version spec_repo website_repo : string)
    (w w' : World) :
  prepare_release version spec_repo website_repo w = (Ok tt, w') ->
  let backup_tag := "backup/" +:+ pretty (w_timestamp w) in
  spec_repo <> website_repo
  /\ forall repo, repo = spec_repo \/ repo = website_repo ->
     exists r r' c,
       w_repos w !! repo = Some r /\ head_commit r = Some c
       /\ g_tags r !! backup_tag = None
       /\ w_repos w' !! repo = Some r'
       /\ g_tags r' !! backup_tag = Some (mkTag "backup" c).
Proof.
  intros H backup_tag.
  destruct (prepare_release_inv _ _ _ _ _ H) as (p & Hp).
  destruct Hp as (Hne & Hs0 & Hw0 & _ & _ & _ & Ts & Tw & As & Cs & Tv & As' & Cs'
                  & Aw & Cw & Hc).
  injection Hc as _ _ Hr.
  apply git_tag_spec in Ts as (cs & Hcs & Hns & Ts & _).
  apply git_tag_spec in Tw as (cw & Hcw & Hnw & Tw & _).
  apply git_add_tags in As as [As _]. apply git_commit_spec in Cs as (_ & _ & Cs).
  apply git_tag_spec in Tv as (cv & _ & Hnv & Tv & _).
  apply git_add_tags in As' as [As' _]. apply git_commit_spec in Cs' as (_ & _ & Cs').
  apply git_add_tags in Aw as [Aw _]. apply git_commit_spec in Cw as (_ & _ & Cw).
  split; [done|]. intros repo [->| ->].
  - exists (p_spec0 p), (p_spec6 p), cs. repeat (split; [done|]). split.
    + by rewrite Hr, lookup_insert_ne, lookup_insert_eq.
    + rewrite Cs', As', Tv.
      rewrite Cs, As, Ts in Hnv.
      assert (version <> backup_tag).
      { intros ->. by rewrite lookup_insert_eq in Hnv. }
      rewrite lookup_insert_ne by done. rewrite Cs, As, Ts. apply lookup_insert_eq.
  - exists (p_web0 p), (p_web3 p), cw. repeat (split; [done|]). split.
    + by rewrite Hr, lookup_insert_eq.
    + rewrite Cw, Aw, Tw. apply lookup_insert_eq.
Qed.

(** X18.  The commit in the website after a preparation that succeeded
    (the website given by an absolute path): the branch has one new
    commit on top of the one it was at, with the message
    [Release v<version>] and, at the path of the new document, the text
    of [toml.md] with its title rewritten.  The website gets the backup
    tag and no other: the release tag is made in the spec repository
    only. *)
Theorem prepare_release_website_commit (version spec_repo website_repo : string)
    (w w' : World) :
  String.prefix "/" website_repo = true ->
  prepare_release version spec_repo website_repo w = (Ok tt, w') ->
  let destination_md :=
    website_repo // "specs" // "en" // ("v" +:+ version +:+ ".md") in
  exists r r' c src,
    w_repos w !! website_repo = Some r /\ head_commit r = Some c
    /\ w_fs w !! (spec_repo // "toml.md") = Some src
    /\ w_repos w' !! website_repo = Some r'
    /\ head_commit r' = Some (pred (length (w_store w')))
    /\ last (w_store w')
       = Some (mkCommit [c] ("Release v" +:+ version) (g_index r'))
    /\ g_index r' !! destination_md = Some (published_document version (f_data src))
    /\ g_tags r' = <["backup/" +:+ pretty (w_timestamp w) := mkTag "backup" c]> (g_tags r).
Proof.
  intros Habs H destination_md.
  destruct (prepare_release_inv _ _ _ _ _ H) as (p & Hp).
  destruct Hp as (Hne & _ & Hw0 & _ & Hsrc & _ & _ & Tw & _ & _ & _ & _ & _
                  & Aw & Cw & Hc).
  injection Hc as _ Hs Hr.
  apply git_tag_spec in Tw as (c & Hcw & _ & Tw & Hh).
  assert (Hd : abs_path website_repo destination_md = destination_md).
  { apply abs_path_absolute. by do 3 apply path_join_absolute. }
  match type of Aw with
  | git_add (<[_ := ?file]> _) _ _ _ = _ =>
      pose proof (git_add_spec _ _ _ _ _ file Aw) as Hx
  end.
  fold destination_md in Hx. rewrite Hd in Hx.
  destruct (Hx (lookup_insert_eq _ _ _)) as (At & Ah & Ai). clear Hx.
  cbn [f_data] in Ai.
  pose proof Cw as Cw'. apply git_commit_spec in Cw' as (Es & Hh' & Ct).
  exists (p_web0 p), (p_web3 p), c, (p_source p).
  split; [done|]. split; [done|]. split.
  { rewrite lookup_insert_ne in Hsrc; [done|].
    intros E. by apply path_join_name_inj in E. }
  split; [by rewrite Hr, lookup_insert_eq|].
  assert (Hidx : g_index (p_web3 p) = g_index (p_web2 p)).
  { unfold git_commit_cmd in Cw. destruct (bool_decide _ || _); [done|].
    injection Cw as _ <-. unfold set_head. by destruct (g_head (p_web2 p)). }
  rewrite Hs, Es, length_app, last_snoc. cbn [length].
  replace (pred (length (p_store2 p) + 1)) with (length (p_store2 p)) by lia.
  split; [done|]. split.
  { by rewrite Ah, Hh, Hcw, Hidx. }
  split; [by rewrite Hidx|]. by rewrite Ct, At, Tw.
Qed.

(** ** [change_line] on a missing file *)

(** X8.  [change_line] on a path that does not exist fails, and leaves
    behind the temporary file it had already created: one new, empty
    file of mode 0o600; nothing else changes. *)
Theorem change_line_missing_file (fs : FileSystem) (path line : string)
    (to : list string) :
  fs !! path = None ->
  exists tmp, tmp <> path /\ fs !! tmp = None
    /\ change_line path line to fs = (<[tmp := mkFile "" 384]> fs, false).
Proof.
  intros H. exists (mkstemp_name fs path).
  split; [apply mkstemp_ne|]. split; [apply mkstemp_fresh|].
  by apply change_line_missing.
Qed.

(** X25.  [change_line] on a file that does not decode fails.  The file
    is as it was, and so is every other file that was there; the
    temporary file that [mkstemp] had created stays, with mode 0o600. *)
Theorem change_line_undecodable_file (fs : FileSystem) (path line : string)
    (to : list string) (f : File) :
  fs !! path = Some f -> decodes (f_data f) = false ->
  exists tmp t, tmp <> path /\ fs !! tmp = None /\ f_mode t = 384%N
    /\ change_line path line to fs = (<[tmp := t]> fs, false).
Proof.
  intros Hf Hd. exists (mkstemp_name fs path), (mkFile "" 384).
  split; [apply mkstemp_ne|]. split; [apply mkstemp_fresh|]. split; [done|].
  by apply (change_line_undecodable _ _ _ _ f).
Qed.

(** A changelog in Latin-1: the byte 0xE9 begins no character of
    UTF-8. *)
Lemma change_line_undecodable_file_witness :
  let path := "/w/toml/CHANGELOG.md" in
  let data := unlines ["## unreleased"; ""; "- Caf" +:+ String "233" ""] in
  let fs := {[ path := mkFile data 420 ]} in
  decodes data = false
  /\ exists tmp t, tmp <> path /\ fs !! tmp = None /\ f_mode t = 384%N
       /\ change_line path "## unreleased" ["## 1.2.3 / 2024-01-02"] fs
          = (<[tmp := t]> fs, false).
Proof.
  intros path data fs.
  assert (H : decodes data = false) by (by vm_compute).
  split; [exact H|].
  exact (change_line_undecodable_file fs path "## unreleased" ["## 1.2.3 / 2024-01-02"]
           (mkFile data 420) (lookup_singleton_eq _ _) H).
Defined.

(** ** The title of the published document *)

Lemma str_has_repeat_chr (c a : ascii) (n : nat) :
  Ascii.eqb a c = false -> str_has c (repeat_chr a n) = false.
Proof. intros H. induction n as [|n IH]; [done|]. cbn. by rewrite H, IH. Qed.

Lemma replace_lines_cons (line l : string) (to ls : list string) :
  replace_lines line to (l :: ls)
  = (if (l =? line)%string then to else [l]) ++ replace_lines line to ls.
Proof. done. Qed.

Lemma py_len_repeat_chr (n : nat) : py_len (repeat_chr "=" n) = n.
Proof. induction n as [|n IH]; [done|]. cbn. by rewrite IH. Qed.

(** X9.  The title rewrite, for a document that opens with the line
    [TOML] and its underline [====] and has no other line equal to
    either: the first line becomes [TOML v<version>], the second a line
    of [=] of the same length, and the rest is as it was. *)
Theorem published_document_title (version data : string) (body : list string)
    (tail : string) :
  read_text data = unlines ("TOML" :: "====" :: body) +:+ tail ->
  Forall (fun l => str_has LF l = false) body -> str_has LF tail = false ->
  "TOML" ∉ body -> "====" ∉ body ->
  str_has LF version = false -> str_has CR version = false ->
  let title := "TOML v" +:+ version in
  let underline := repeat_chr "=" (py_len title) in
  published_document version data = unlines (title :: underline :: body) +:+ tail
  /\ py_len underline = py_len title.
Proof.
  intros E Hbody Ht Hb1 Hb2 Hlf Hcr title underline.
  split; [|apply py_len_repeat_chr].
  unfold published_document. fold title. fold underline.
  assert (Hdcr : str_has CR (unlines body +:+ tail) = false).
  { pose proof (read_text_lacks_cr data) as H. rewrite E in H.
    rewrite !unlines_cons, !sapp_assoc, !str_has_app in H.
    do 4 (apply orb_false_iff in H as [_ H]). by rewrite str_has_app. }
  rewrite (rewritten_text "TOML" [title] ("TOML" :: "====" :: body) data tail E);
    [|by repeat constructor|done].
  rewrite !replace_lines_cons, replace_lines_absent by done.
  cbn [String.eqb Ascii.eqb Bool.eqb app].
  rewrite rewritten_lines.
  - rewrite !replace_lines_cons, replace_lines_absent by done.
    cbn [String.eqb Ascii.eqb Bool.eqb app]. done.
  - by repeat constructor.
  - done.
  - rewrite !unlines_cons, !sapp_assoc, !str_has_app, <- str_has_app, Hdcr.
    unfold title. rewrite str_has_app, Hcr. done.
Qed.

Lemma published_document_title_witness :
  read_text Sample.toml_md
  = unlines ("TOML" :: "====" :: [""; "Tom's Obvious, Minimal Language."]) +:+ ""
  /\ published_document "9.9.9" Sample.toml_md
     = unlines ["TOML v9.9.9"; "==========="; ""; "Tom's Obvious, Minimal Language."].
Proof.
  assert (E : read_text Sample.toml_md
              = unlines ("TOML" :: "====" :: [""; "Tom's Obvious, Minimal Language."])
                +:+ "") by (by vm_compute).
  split; [exact E|].
  destruct (published_document_title "9.9.9" Sample.toml_md
              [""; "Tom's Obvious, Minimal Language."] "" E) as [H _].
  - by repeat constructor.
  - done.
  - apply (bool_decide_unpack _). by vm_compute.
  - apply (bool_decide_unpack _). by vm_compute.
  - done.
  - done.
  - rewrite H. by vm_compute.
Defined.

(** ** Tasks within tasks *)

(** X11.  A failed assertion inside two nested tasks is reported once, by
    the inner one, on standard error and at the depth of the body; the
    process is then on its way out with status 1, and the depth of the
    log is back where it was before the outer task. *)
Theorem nested_task_reports_once {A} (outer inner msg : string) (body : M A)
    (w w3 : World) :
  body (task_enter inner (task_enter outer w)) = (Raise (AssertionError msg), w3) ->
  w_indent w3 = S (S (w_indent w)) ->
  (task outer (task inner body) w).1 = Raise (SystemExit 1)
  /\ w_out (task outer (task inner body) w).2
     = w_out w3 ++ [(true, S (S (w_indent w)), "ERROR: " +:+ msg)]
  /\ w_indent (task outer (task inner body) w).2 = w_indent w.
Proof.
  intros Hb Hi.
  assert (Ei : task inner body (task_enter outer w)
               = (Raise (SystemExit 1),
                  set_indent (pred (w_indent w3))
                    (set_out (w_out w3 ++ [(true, w_indent w3, "ERROR: " +:+ msg)])
                       w3))).
  { unfold task.
    change (set_indent _ (log _ false (task_enter outer w)).2)
      with (task_enter inner (task_enter outer w)).
    by rewrite Hb. }
  unfold task at 1 3 5.
  change (set_indent _ (log _ false w).2) with (task_enter outer w).
  rewrite Ei. cbn. by rewrite Hi.
Qed.

Lemma nested_task_reports_once_witness :
  let w := Sample.ready in
  let body : M unit := assert false "no" in
  let w3 := task_enter "toml" (task_enter "Checking repositories" w) in
  body (task_enter "toml" (task_enter "Checking repositories" w))
    = (Raise (AssertionError "no"), w3)
  /\ w_indent w3 = S (S (w_indent w))
  /\ (task "Checking repositories" (task "toml" body) w).1 = Raise (SystemExit 1)
  /\ w_out (task "Checking repositories" (task "toml" body) w).2
     = w_out w3 ++ [(true, S (S (w_indent w)), "ERROR: " +:+ "no")]
  /\ w_indent (task "Checking repositories" (task "toml" body) w).2 = w_indent w.
Proof.
  intros w body w3.
  assert (H1 : body (task_enter "toml" (task_enter "Checking repositories" w))
               = (Raise (AssertionError "no"), w3)) by done.
  assert (H2 : w_indent w3 = S (S (w_indent w))) by done.
  split; [exact H1|]. split; [exact H2|].
  exact (nested_task_reports_once "Checking repositories" "toml" "no" body w w3 H1 H2).
Defined.

(** ** What [run] returns and reports *)

Lemma rstrip_nl_spec (s : string) :
  ends_in LF (rstrip_nl s) = false
  /\ exists n, s = rstrip_nl s +:+ repeat_chr LF n.
Proof.
  induction s as [|c s [IH1 [n IH2]]]; [split; [done | by exists 0]|].
  cbn [rstrip_nl]. destruct (rstrip_nl s) as [|c' r] eqn:E.
  - destruct (Ascii.eqb_spec c LF) as [->|Hc].
    + split; [done|]. exists (S n). rewrite IH2. done.
    + split; [cbn; by apply Ascii.eqb_neq|]. exists n. by rewrite IH2 at 1.
  - split; [exact IH1|]. exists n. by rewrite IH2 at 1.
Qed.

(** X12.  What a command that succeeded gives its caller: the standard
    output of the command without the line feeds at its end, and only
    those are removed; nothing is printed. *)
Theorem run_output (args : list string) (cwd out : string) (w w' : World) :
  run args cwd w = (Ok out, w') ->
  exists stdout stderr n,
    subprocess_run args cwd w = (Ok (0%Z, stdout, stderr), w')
    /\ stdout = out +:+ repeat_chr LF n /\ ends_in LF out = false.
Proof.
  unfold run, bind.
  destruct (subprocess_run args cwd w) as [[[[rc stdout] stderr]|e] w1]; [|done].
  destruct (Z.eqb_spec rc 0) as [->|Hrc].
  - intros [= <- <-]. destruct (rstrip_nl_spec stdout) as [H1 [n H2]].
    by exists stdout, stderr, n.
  - unfold log, raise. cbn. done.
Qed.

(** X13.  What a command that failed leaves: five entries in the log at
    the current depth (the command line, a banner, its standard output
    or [<nothing>], a banner, its standard error or [<nothing>]) and an
    [AssertionError] that names the exit status. *)
Theorem run_failure_report (args : list string) (cwd stdout stderr : string)
    (rc : Z) (w w1 : World) :
  subprocess_run args cwd w = (Ok (rc, stdout, stderr), w1) ->
  rc <> 0%Z ->
  run args cwd w
  = (Raise (AssertionError ("Exited with non-zero exit code: " +:+ pretty rc)),
     set_out (w_out w1 ++
        [(false, w_indent w1, join_words ("$" :: args));
         (false, w_indent w1, banner "stdout");
         (false, w_indent w1, or_nothing stdout);
         (false, w_indent w1, banner "stderr");
         (false, w_indent w1, or_nothing stderr)]) w1).
Proof.
  intros H Hrc. unfold run, bind. rewrite H.
  apply Z.eqb_neq in Hrc. rewrite Hrc.
  rewrite !log_set_out. unfold raise.
  rewrite !set_out_twice, !w_out_set_out, !w_indent_set_out.
  by rewrite <- !app_assoc.
Qed.

(** ** A changelog without the marker *)

Lemma rewritten_absent (line : string) (to : list string) (data : string) :
  str_has CR data = false -> line ∉ lines_of data -> rewritten line to data = data.
Proof.
  intros Hcr Hline.
  destruct (lines_decompose data) as (ls & tail & -> & Hls & Ht).
  rewrite lines_of_unlines in Hline by done.
  apply not_elem_of_app in Hline as [Hline _].
  by rewrite rewritten_lines, replace_lines_absent.
Qed.

Lemma git_tag_keeps (msg name : string) (r r' : Repo) :
  git_tag msg name r = Some r' ->
  g_index r' = g_index r /\ head_commit r' = head_commit r.
Proof.
  unfold git_tag. destruct (g_tags r !! name); [done|].
  destruct (head_commit r) eqn:E; [|done]. intros [= <-]. split; [done|].
  by rewrite <- E.
Qed.

Lemma head_tree_head (store : list Commit) (r r' : Repo) :
  head_commit r' = head_commit r -> head_tree store r' = head_tree store r.
Proof. unfold head_tree. by intros ->. Qed.

(** X20.  Without the marker the preparation does not get through: when
    nothing is staged in the spec repository (given by an absolute
    path), the changelog is tracked and unmodified, has no carriage
    return and no line [## unreleased], the release edit leaves the file
    as it is, so there is nothing to commit and [prepare_release]
    fails. *)
Theorem prepare_release_needs_marker (version spec_repo website_repo : string)
    (w : World) (r : Repo) (f : File) :
  String.prefix "/" spec_repo = true ->
  w_repos w !! spec_repo = Some r ->
  w_fs w !! (spec_repo // "CHANGELOG.md") = Some f ->
  g_index r = head_tree (w_store w) r ->
  g_index r !! (spec_repo // "CHANGELOG.md") = Some (f_data f) ->
  str_has CR (f_data f) = false ->
  "## unreleased" ∉ lines_of (f_data f) ->
  is_ok (prepare_release version spec_repo website_repo w).1 = false.
Proof.
  intros Habs Hr Hf Hclean Htracked Hcr Hmarker.
  destruct (prepare_release version spec_repo website_repo w) as [[[]|e] w'] eqn:H;
    [|done]. exfalso.
  destruct (prepare_release_inv _ _ _ _ _ H) as (p & Hp).
  destruct Hp as (_ & Hs0 & _ & Hf' & _ & _ & Ts & _ & As & Cs & _).
  rewrite Hr in Hs0. injection Hs0 as Hs0. rewrite Hf in Hf'. injection Hf' as Hf'.
  rewrite <- Hf', <- Hs0 in *. clear Hf' Hs0.
  rewrite rewritten_absent in As by done.
  apply git_tag_keeps in Ts as [Ti Th].
  assert (Hcl : abs_path spec_repo (spec_repo // "CHANGELOG.md")
                = spec_repo // "CHANGELOG.md").
  { apply abs_path_absolute. by apply path_join_absolute. }
  assert (Hidx : g_index (p_spec2 p) = g_index r
                 /\ head_commit (p_spec2 p) = head_commit r).
  { unfold git_add in As. destruct (forallb _ _); [|done]. injection As as <-.
    cbn [g_index head_commit g_head g_branches map foldl]. rewrite Hcl.
    rewrite lookup_insert_eq. cbn [f_data]. rewrite Ti.
    split; [by apply insert_id|]. exact Th. }
  destruct Hidx as [Hi Hh].
  unfold git_commit_cmd in Cs.
  rewrite Hi, (head_tree_head _ _ _ Hh), Hclean in Cs.
  by rewrite bool_decide_eq_true_2 in Cs.
Qed.

Lemma prepare_release_needs_marker_witness :
  is_ok (prepare_release "1.2.3" "/w/toml" "/w/toml.io" Sample.no_marker).1 = false.
Proof.
  apply (prepare_release_needs_marker "1.2.3" "/w/toml" "/w/toml.io" Sample.no_marker
           Sample.released_spec (mkFile Sample.released_changelog_text 420)).
  - done.
  - by vm_compute.
  - by vm_compute.
  - apply (bool_decide_unpack _). by vm_compute.
  - by vm_compute.
  - by vm_compute.
  - apply (bool_decide_unpack _). by vm_compute.
Defined.

Lemma run_output_witness :
  let w := Sample.ready in
  run ["git"; "branch"; "--show-current"] "/w/toml" w
    = (Ok "main", (run ["git"; "branch"; "--show-current"] "/w/toml" w).2)
  /\ exists stdout stderr n,
       subprocess_run ["git"; "branch"; "--show-current"] "/w/toml" w
       = (Ok (0%Z, stdout, stderr),
          (run ["git"; "branch"; "--show-current"] "/w/toml" w).2)
       /\ stdout = "main" +:+ repeat_chr LF n /\ ends_in LF "main" = false.
Proof.
  intros w.
  assert (H1 : (run ["git"; "branch"; "--show-current"] "/w/toml" w).1 = Ok "main")
    by (by vm_compute).
  assert (H : run ["git"; "branch"; "--show-current"] "/w/toml" w
              = (Ok "main", (run ["git"; "branch"; "--show-current"] "/w/toml" w).2)).
  { rewrite <- H1. apply surjective_pairing. }
  split; [exact H|]. exact (run_output _ _ _ _ _ H).
Defined.

Lemma run_failure_report_witness :
  let w := Sample.ready in
  let w1 := (subprocess_run ["git"; "tag"; "-m"; "again"; "1.0.0"] "/w/nowhere" w).2 in
  subprocess_run ["git"; "tag"; "-m"; "again"; "1.0.0"] "/w/nowhere" w
    = (Ok (128%Z, "", "fatal: not a git repository"), w1)
  /\ 128%Z <> 0%Z
  /\ run ["git"; "tag"; "-m"; "again"; "1.0.0"] "/w/nowhere" w
     = (Raise (AssertionError ("Exited with non-zero exit code: " +:+ pretty 128%Z)),
        set_out (w_out w1 ++
          [(false, w_indent w1, join_words ["$"; "git"; "tag"; "-m"; "again"; "1.0.0"]);
           (false, w_indent w1, banner "stdout");
           (false, w_indent w1, or_nothing "");
           (false, w_indent w1, banner "stderr");
           (false, w_indent w1, or_nothing "fatal: not a git repository")]) w1).
Proof.
  intros w w1.
  assert (H1 : (subprocess_run ["git"; "tag"; "-m"; "again"; "1.0.0"] "/w/nowhere" w).1
               = Ok (128%Z, "", "fatal: not a git repository")) by (by vm_compute).
  assert (H : subprocess_run ["git"; "tag"; "-m"; "again"; "1.0.0"] "/w/nowhere" w
              = (Ok (128%Z, "", "fatal: not a git repository"), w1)).
  { subst w1. rewrite <- H1. apply surjective_pairing. }
  assert (H2 : 128%Z <> 0%Z) by done.
  split; [exact H|]. split; [exact H2|].
  exact (run_failure_report _ _ _ _ _ _ _ H H2).
Defined.

(** ** Both inspections *)

(** An inspection under its task: a failure of any kind ends the
    process. *)
Lemma inspection_task (msg repo name : string) (w : World) :
  exists evs b,
    w_trace (task msg (check_repo_state repo name) w).2 = w_trace w ++ evs
    /\ match (task msg (check_repo_state repo name) w).1 with
       | Ok _ => evs = inspection_steps repo b /\ (b = "main" \/ b = "master")
       | Raise e => e = SystemExit 1 /\ stopped (inspection_steps repo b) evs
       end.
Proof.
  destruct (task_result msg (check_repo_state repo name) w) as (-> & -> & _).
  destruct (check_repo_state_steps repo name (task_enter msg w))
    as (evs & b & T & R).
  exists evs, b. split; [exact T|].
  destruct (check_repo_state _ _ _).1 as [|e]; [done|].
  destruct R as [Hs [[_ [m ->]]|[_ ->]]]; by split.
Qed.

(** X15.  [get_repositories], where the directory [toml.io] beside the
    working directory is a working copy, inspects the spec repository,
    which is the working directory, and then the website; the website is
    not looked at unless the spec repository passed, with every command
    at status 0.  It returns the two paths, the website first, only when
    both passed, each on [main] or [master] (not necessarily the same);
    any failure ends the process with status 1, the history ending where
    the inspection that failed stopped. *)
Theorem get_repositories_history (w : World) :
  let spec_repo := w_cwd w in
  let website_repo := path_parent (w_cwd w) // "toml.io" in
  is_Some (w_repos w !! website_repo) ->
  exists evs b1 b2,
    w_trace (get_repositories w).2 = w_trace w ++ evs
    /\ match (get_repositories w).1 with
       | Ok repos =>
           repos = (website_repo, spec_repo)
           /\ evs = inspection_steps spec_repo b1 ++ inspection_steps website_repo b2
           /\ (b1 = "main" \/ b1 = "master") /\ (b2 = "main" \/ b2 = "master")
       | Raise e =>
           e = SystemExit 1
           /\ (stopped (inspection_steps spec_repo b1) evs
               \/ exists evs2,
                    evs = inspection_steps spec_repo b1 ++ evs2
                    /\ (b1 = "main" \/ b1 = "master")
                    /\ stopped (inspection_steps website_repo b2) evs2)
       end.
Proof.
  intros spec_repo website_repo _.
  set (inner := bind (task "toml" (check_repo_state spec_repo "toml"))
                  (fun _ => task "toml.io" (check_repo_state website_repo "toml.io"))).
  assert (Hg : get_repositories w
               = match task "Checking repositories" inner w with
                 | (Ok _, w') => (Ok (website_repo, spec_repo), w')
                 | (Raise e, w') => (Raise e, w')
                 end) by done.
  rewrite Hg. clear Hg.
  destruct (task_result "Checking repositories" inner w) as (Hr & Ht & _).
  set (w0 := task_enter "Checking repositories" w) in *.
  assert (T0 : w_trace w0 = w_trace w) by done. clearbody w0.
  assert (Hin : inner w0
                = match task "toml" (check_repo_state spec_repo "toml") w0 with
                  | (Ok _, w1) =>
                      task "toml.io" (check_repo_state website_repo "toml.io") w1
                  | (Raise e, w1) => (Raise e, w1)
                  end) by done.
  rewrite Hin in Hr, Ht. clear Hin. clearbody inner.
  destruct (task "Checking repositories" inner w) as [r w']; cbn [fst snd] in *.
  destruct (inspection_task "toml" spec_repo "toml" w0) as (evs1 & b1 & T1 & R1).
  destruct (task "toml" (check_repo_state spec_repo "toml") w0) as [[[]|e1] w1];
    cbn [fst snd] in *.
  2:{ destruct R1 as [-> Hs]. subst r. exists evs1, b1, "".
      cbv beta iota delta [task_outcome fst snd].
      rewrite Ht, T1, T0. split; [done|]. split; [done|]. by left. }
  destruct R1 as [-> Hb1].
  destruct (inspection_task "toml.io" website_repo "toml.io" w1)
    as (evs2 & b2 & T2 & R2).
  exists (inspection_steps spec_repo b1 ++ evs2), b1, b2.
  subst r.
  destruct (task "toml.io" _ w1).1 as [[]|e2]; [|destruct R2 as [-> Hs]];
    cbv beta iota delta [task_outcome fst snd];
    rewrite Ht, T2, T1, T0, <- app_assoc.
  - destruct R2 as [-> Hb2]. split; [done|]. split; [done|]. done.
  - split; [done|]. split; [done|]. right. by exists evs2.
Qed.

(** Both inspections of the sample with the stray file in the
    website. *)
Lemma get_repositories_history_witness :
  let w := Sample.dirty_website in
  is_Some (w_repos w !! (path_parent (w_cwd w) // "toml.io"))
  /\ exists evs b1 b2,
       w_trace (get_repositories w).2 = w_trace w ++ evs
       /\ match (get_repositories w).1 with
          | Ok repos =>
              repos = (path_parent (w_cwd w) // "toml.io", w_cwd w)
              /\ evs = inspection_steps (w_cwd w) b1
                       ++ inspection_steps (path_parent (w_cwd w) // "toml.io") b2
              /\ (b1 = "main" \/ b1 = "master") /\ (b2 = "main" \/ b2 = "master")
          | Raise e =>
              e = SystemExit 1
              /\ (stopped (inspection_steps (w_cwd w) b1) evs
                  \/ exists evs2,
                       evs = inspection_steps (w_cwd w) b1 ++ evs2
                       /\ (b1 = "main" \/ b1 = "master")
                       /\ stopped (inspection_steps (path_parent (w_cwd w) // "toml.io")
                                     b2) evs2)
          end.
Proof.
  intros w.
  assert (H : is_Some (w_repos w !! (path_parent (w_cwd w) // "toml.io")))
    by (by eexists).
  split; [exact H|]. exact (get_repositories_history w H).
Defined.

(** X19.  A preparation that succeeded has made exactly three commits, in
    this order: the release and the development bump in the spec
    repository, the second on top of the first, and the release in the
    website. *)
Theorem prepare_release_commits (version spec_repo website_repo : string)
    (w w' : World) :
  prepare_release version spec_repo website_repo w = (Ok tt, w') ->
  exists release bump published,
    w_store w' = w_store w ++ [release; bump; published]
    /\ c_message release = "Release v" +:+ version
    /\ c_message bump = "Bump for development"
    /\ c_parents bump = [length (w_store w)]
    /\ c_message published = "Release v" +:+ version.
Proof.
  intros H. destruct (prepare_release_inv _ _ _ _ _ H) as (p & Hp).
  destruct Hp as (_ & _ & _ & _ & _ & _ & _ & _ & _ & Cs & Tv & As' & Cs' & _ & Cw & Hc).
  injection Hc as _ Hs _.
  apply git_commit_spec in Cs as (E1 & H1 & _).
  apply git_tag_spec in Tv as (_ & _ & _ & _ & Hv).
  apply git_add_tags in As' as [_ Ha].
  apply git_commit_spec in Cs' as (E2 & _ & _).
  apply git_commit_spec in Cw as (E3 & _ & _).
  eexists _, _, _. split.
  { rewrite Hs, E3, E2, E1, <- !app_assoc. cbn [app]. done. }
  cbn [c_message c_parents]. repeat (split; [done|]). split; [|done].
  by rewrite Ha, Hv, H1.
Qed.

(** ** The preparation of the sample release *)

Lemma sample_preparation :
  prepare_release "1.2.3" "/w/toml" "/w/toml.io" Sample.ready
  = (Ok tt, (prepare_release "1.2.3" "/w/toml" "/w/toml.io" Sample.ready).2).
Proof.
  assert (H1 : (prepare_release "1.2.3" "/w/toml" "/w/toml.io" Sample.ready).1 = Ok tt)
    by (by vm_compute).
  rewrite <- H1. apply surjective_pairing.
Defined.

Lemma prepare_release_commits_witness :
  let w := Sample.ready in
  let w' := (prepare_release "1.2.3" "/w/toml" "/w/toml.io" w).2 in
  exists release bump published,
    w_store w' = w_store w ++ [release; bump; published]
    /\ c_message release = "Release v" +:+ "1.2.3"
    /\ c_message bump = "Bump for development"
    /\ c_parents bump = [length (w_store w)]
    /\ c_message published = "Release v" +:+ "1.2.3".
Proof.
  exact (prepare_release_commits "1.2.3" "/w/toml" "/w/toml.io" Sample.ready _
           sample_preparation).
Defined.

Lemma prepare_release_files_witness :
  let w := Sample.ready in
  let w' := (prepare_release "1.2.3" "/w/toml" "/w/toml.io" w).2 in
  exists f src,
    w_fs w !! ("/w/toml" // "CHANGELOG.md") = Some f
    /\ w_fs w !! ("/w/toml" // "toml.md") = Some src
    /\ let fs2 := <["/w/toml" // "CHANGELOG.md"
                    := mkFile (released_changelog "1.2.3" (w_today w) (f_data f))
                         (f_mode f)]> (w_fs w) in
       w_fs w'
       = <["/w/toml.io" // "specs" // "en" // ("v" +:+ "1.2.3" +:+ ".md")
           := mkFile (published_document "1.2.3" (f_data src))
                (copied_mode (w_umask w) fs2
                   ("/w/toml.io" // "specs" // "en" // ("v" +:+ "1.2.3" +:+ ".md")))]>
           fs2.
Proof.
  exact (prepare_release_files "1.2.3" "/w/toml" "/w/toml.io" Sample.ready _
           sample_preparation).
Defined.

Lemma prepare_release_backup_tags_witness :
  let w := Sample.ready in
  let w' := (prepare_release "1.2.3" "/w/toml" "/w/toml.io" w).2 in
  "/w/toml" <> "/w/toml.io"
  /\ forall repo, repo = "/w/toml" \/ repo = "/w/toml.io" ->
     exists r r' c,
       w_repos w !! repo = Some r /\ head_commit r = Some c
       /\ g_tags r !! ("backup/" +:+ pretty (w_timestamp w)) = None
       /\ w_repos w' !! repo = Some r'
       /\ g_tags r' !! ("backup/" +:+ pretty (w_timestamp w)) = Some (mkTag "backup" c).
Proof.
  exact (prepare_release_backup_tags "1.2.3" "/w/toml" "/w/toml.io" Sample.ready _
           sample_preparation).
Defined.

Lemma prepare_release_website_commit_witness :
  let w := Sample.ready in
  let w' := (prepare_release "1.2.3" "/w/toml" "/w/toml.io" w).2 in
  exists r r' c src,
    w_repos w !! "/w/toml.io" = Some r /\ head_commit r = Some c
    /\ w_fs w !! ("/w/toml" // "toml.md") = Some src
    /\ w_repos w' !! "/w/toml.io" = Some r'
    /\ head_commit r' = Some (pred (length (w_store w')))
    /\ last (w_store w')
       = Some (mkCommit [c] ("Release v" +:+ "1.2.3") (g_index r'))
    /\ g_index r' !! ("/w/toml.io" // "specs" // "en" // ("v" +:+ "1.2.3" +:+ ".md"))
       = Some (published_document "1.2.3" (f_data src))
    /\ g_tags r' = <["backup/" +:+ pretty (w_timestamp w) := mkTag "backup" c]> (g_tags r).
Proof.
  exact (prepare_release_website_commit "1.2.3" "/w/toml" "/w/toml.io" Sample.ready _
           eq_refl sample_preparation).
Defined.

Lemma push_needs_confirmation_witness :
  let w := Sample.ready in
  let evs := w_trace (run_main w).2 in
  w_stdin w <> []
  /\ exists version insp pushed,
       get_version (w_argv w) = Ok version
       /\ existsb is_push insp = false
       /\ evs = insp
                ++ prepare_steps version (w_cwd w) (path_parent (w_cwd w) // "toml.io")
                     (w_timestamp w) (w_today w)
                ++ EvInput :: pushed.
Proof.
  intros w evs.
  apply (push_needs_confirmation w evs); [done | by vm_compute].
Defined.

Lemma change_line_missing_file_witness :
  exists tmp, tmp <> "/w/toml/NEWS.md" /\ Sample.fs !! tmp = None
    /\ change_line "/w/toml/NEWS.md" "## unreleased" [] Sample.fs
       = (<[tmp := mkFile "" 384]> Sample.fs, false).
Proof.
  apply (change_line_missing_file Sample.fs "/w/toml/NEWS.md" "## unreleased" []).
  by vm_compute.
Defined.

(** ** Staging and committing *)

(** X24.  [git_commit] stages the given files and then commits with the
    given message, nothing else; when staging fails no commit is
    attempted. *)
Theorem git_commit_steps (message : string) (files : list string) (repo : string)
    (w : World) :
  exists evs,
    w_trace (git_commit message files repo w).2 = w_trace w ++ evs
    /\ attempts [ EvRun ("git" :: "add" :: files) repo 0;
                  EvRun ["git"; "commit"; "-m"; message] repo 0 ]
         (is_ok (git_commit message files repo w).1) evs.
Proof. apply performs_git_commit. Qed.
